(* ===== verification/_CoqProject ===== *)
-Q . S2P
Prelude.v
JsValue.v
ChessPiece.v
ChessBoard.v
App.v
EngineBoard.v
EngineMoves.v
EngineRules.v
EngineSession.v
EngineSnapshot.v
EngineRegistry.v
Integration.v
