(* ===== verification/Prelude.v ===== *)
(** * A verification development for sormind/chessgame

    ** The program

    The repository is a browser chess client of three React files under
    src/ChessGameWithLogin/src:
    - [App.js]: the top component.  Three asynchronous handlers post to the
      server with [axios] ([/api/login], [/api/register], [/api/move]) and
      store [response.data] in React state ([user], [game]) or log a
      [console.error]; the JSX shows the login and registration forms until a
      user is set, then a [ChessBoard] with [board={game.board}] and
      [onMove={handleMove}].
    - [components/ChessBoard.js]: renders the 64 squares of [board] in two
      nested loops; each square reads [board[row][col]], is coloured by the
      parity of [row + col], shows a [ChessPiece] for a truthy cell and calls
      [onPieceClick] or [onSquareClick] when clicked.
    - [components/ChessPiece.js]: an [<img>] whose path comes from a lookup
      in an object literal keyed by the piece name, and whose drag handler
      stores [JSON.stringify({piece, color, position})].
    The components interact through props and callbacks: App hands
    ChessBoard its props object; ChessBoard hands each ChessPiece
    [piece.name], [piece.color] and [[row, col]]; ChessBoard's click
    handlers call the callbacks App is expected to supply.  The server and
    its chess engine, which the spec describes, are not in the repository.

    ** The development

    - [Prelude] (this file): the [chess_scope] and the [chess] hint
      databases, the [str_norm] tactic, string lemmas (stdpp declares
      [String.append] [simpl never]) and the decimal-digit lemmas: reading
      back the decimal text of a number ([read_digits_pretty_N]), which the
      JSON round trip and the injectivity of React keys rest on.
    - [JsValue]: the JavaScript values the client manipulates ([jsval]) and
      the runtime operations its code applies: truthiness, [ToString] of
      template literals, property access with [Object.prototype] fallback
      and the [TypeError] of reading [undefined]/[null], calling a value,
      [JSON.stringify]; thrown errors are values of [js_result], a monad
      with stdpp's notation.  [json_decode_stringify] proves that the text
      [JSON.stringify] writes decodes back to the value for every JSON-clean
      value, with a decoder whose fuel is the length of its input.
    - [ChessPiece] (Module [ChessPiece]): props record, [pieceImageMap],
      [pieceImage], [pieceColor], [imageSrc], [altText], [dragPayload],
      [handleDragStart] (on the [dataTransfer] store, a [gmap]) and
      [render]; theorems: the image path and alternative text of each of
      the six kinds, the path of an unknown name, the drag payload decoding
      to the literal [{ piece, color, position }] and the loss of an
      [undefined] name.
    - [ChessBoard] (Module [ChessBoard]): props, [props_of] (parameter
      destructuring), [isLight], [squareClass], [squareKey],
      [handleClick], [renderChild], [renderSquare], the two loops
      [renderCols]/[renderRows] as [Fixpoint]s on the iterations left, and
      [renderBoard]; theorems: the loops equal the reference traversal
      [mapM renderSquare board_coords] (row-major, first error wins), 64
      squares with square [i] at [(i / 8, i mod 8)], rendering succeeds iff
      the eight rows are readable, React keys are distinct, the squares
      are coloured like a chessboard (light when row and column have the
      same parity), the click behaviour of a square on every branch.
    - [App] (Module [App]): App.js as written does not parse (a top-level
      [return] at line 33, an undeclared [App] exported at line 50), so no
      handler of it can run; the module models its evident repair, the
      handlers and JSX of lines 6-47 inside a component.  The identifiers
      the file uses but never binds form a [scope] ([with_state]: [axios]
      imported and the two [useState] pairs declared), the state ([user], [game], issued
      requests, pending requests, console), [post]/[set_state]/[resume] and
      the three handlers, split at their [await]; [step] on an [event]
      (a user action or the settling of a pending request) and [run]
      over an interleaving; [render].  Theorems: the pending-request
      invariant over every interleaving; the resolved and rejected
      branches; responses overwrite [game] in arrival order, so an answer
      to an older move arriving last wins; App's props
      make every board click throw; without a settled move the board never
      renders; a move is posted as [{from, to}] only.

    The server's engine, which spec.md describes and the repository does
    not contain, is modelled from the spec (the [spec_modelled] rows of
    the manifest), one file per component:
    - [EngineBoard] (Module [Board]): colours, kinds, pieces with their
      moved flag, castling rights, the board as a [gmap] from squares
      [(file, rank)] to pieces with side to move, en-passant target and
      the two counters; [place], [remove], [move_piece], [applyCastle],
      [applyEnPassantCapture], [applyPromotion], the initial position;
      each operation keeps every piece on the board.
    - [EngineMoves] (Module [MoveGen]): rays, leaps, pawn pushes, captures,
      en passant and promotions, castling with its emptiness and
      attack conditions, [pseudoLegalMoves], [isSquareAttacked].  Every
      move starts from the piece's square and lands on the board, never on
      a piece of the mover's colour; a piece on the board has at most 27
      moves; a ray's fuel of 7 never cuts it short.
    - [EngineRules] (Module [Rules]): [applyMove] (castling, en passant,
      promotion, rights and en-passant target updates), [inCheck],
      [legalMoves] (pseudo-legal moves that leave the own king safe) and
      the game [status]; perft of the initial position (20 and 400).
    - [EngineSession] (Module [Session]): the [submitMove] transition with
      its rejection order ([InvalidSquare], [NotYourTurn], [GameOver],
      [IllegalMove]), counters, position history and the draw rules;
      the session invariant [session_wf] holds on every reachable
      session; fool's mate, castling through an attacked square, the
      fifty-move draw.
    - [EngineSnapshot] (Module [Snapshot]): [serialize]/[deserialize] of
      the dense 8x8 [BoardSnapshot] and its JSON; the round trip holds for
      every reachable board.
    - [EngineRegistry] (Module [Registry]): sessions keyed by ["game-n"],
      user bindings, [createSession], [submitMove] and the binding check
      [submitFor]; submissions to one session leave the others alone, and
      every session reachable by registry operations is well formed.
    - [Integration] (Module [Integration]): the class [MoveServer] (a
      server state and its answer to a request) with the laws the client
      relies on ([MoveServerLaws]); [deliver]/[deliver_n], the network
      settling the client's oldest pending request (in-order delivery);
      the engine as an
      instance ([engine_serve]: the [/api/move] handler reading the
      client's [[row, col]] positions as [(file, rank) = (col, row)]; the
      JSON of its answers, [{ data: { board, status, sideToMove } }] or an
      axios-style [error.response.data.error], is this development's
      choice, since neither the sources nor the spec fix the wire format).
      Theorems: against any lawful server a posted move ends in a rendered
      board or a logged rejection; with the engine, the rendered squares are the
      stored session's pieces, only legal moves are accepted, a pawn can
      never promote from this client, a legal non-promotion move can
      always be posted and accepted, a second move posted before the
      first answer is refused, the
      requests of the two players' clients ([serve_requests]) implement
      [Session.play] move for move, and served sessions stay well
      formed.  The sources contain no code that turns clicks into
      [handleMove(from, to)] (ChessBoard calls [onPieceClick] and
      [onSquareClick], which App never passes): [player_request] is the
      request that wiring would post.

    ** Bounds and fuel

    The board loops are structural on the iterations left (8 and 8), so
    they terminate by construction and [renderBoard_spec] states their
    result exactly.  [json_decode] runs [parse_value] with the length of its
    input as fuel; [jsize_le_text] shows that the nesting size of a value is
    at most the length of its JSON text, which is the fuel the round trip
    needs.  A sliding ray runs on fuel 7: from a square of the board at
    most 7 steps stay on it, and [ray_fuel_enough] shows that more fuel
    gives the same ray.  [deliver_n] runs for as many deliveries as it is
    given; the theorems use it with the number of requests in flight.
    Integers are [Z]/[nat] without bounds: the client only
    handles board indices 0..7 and the engine's counters only grow.

    ** Not modelled

    Rendering to the DOM, CSS and image assets, React's scheduling (a state
    update is applied when the handler stores it), the missing [LoginForm]
    and [RegistrationForm] files and the authentication endpoints they
    would call (neither the repository nor the spec defines them),
    floats/NaN in [jsval].  Of the engine: the optional
    insufficient-material draw (the spec leaves it to implementers; the
    status exists but is never produced), resignation and abort (external
    policy), archiving of finished sessions, time controls, and the
    transport's concurrency (the per-session serialisation of section 5
    is modelled as a sequence of operations). *)

From stdpp Require Export base list strings gmap pretty.
From Stdlib Require Export Ascii.

Declare Scope chess_scope.
Delimit Scope chess_scope with chess.

Create HintDb chess discriminated.
#[export] Hint Constants Transparent : chess.
Create Rewrite HintDb chess_rw.

(** ** Strings

    stdpp declares [String.append] [simpl never]; [string_app_cons] is the
    step that [simpl] would have taken. *)

Lemma string_app_cons (c : ascii) (s1 s2 : string) : String c s1 +:+ s2 = String c (s1 +:+ s2).
Proof. reflexivity. Qed.

Lemma string_app_nil_l (s : string) : "" +:+ s = s.
Proof. reflexivity. Qed.

Lemma string_app_nil_r (s : string) : s +:+ "" = s.
Proof. induction s as [|c s IH]; [done|]. by rewrite string_app_cons, IH. Qed.

Lemma string_app_assoc (s1 s2 s3 : string) : s1 +:+ (s2 +:+ s3) = (s1 +:+ s2) +:+ s3.
Proof. induction s1 as [|c s1 IH]; [done|]. by rewrite string_app_cons, IH. Qed.

Lemma string_length_app (s1 s2 : string) :
  String.length (s1 +:+ s2) = (String.length s1 + String.length s2)%nat.
Proof. induction s1 as [|c s1 IH]; [done|]. rewrite string_app_cons. simpl. by rewrite IH. Qed.

(** [str_norm] puts string concatenations in right-nested form and
    exposes the leading characters of literals. *)
Ltac str_norm :=
  repeat first [rewrite <- string_app_assoc | rewrite string_app_cons | rewrite string_app_nil_l].

#[export] Hint Rewrite string_app_cons string_app_nil_l string_app_nil_r string_length_app : chess_rw.

(** ** Decimal digits

    JavaScript turns an integer into a string in decimal (template literals,
    [JSON.stringify]); the development prints integers with stdpp's
    [pretty].  [read_digits] reads the longest run of decimal digits off the
    front of a string, accumulating its value; it is the inverse used by the
    round-trip and injectivity theorems of the components. *)

Definition is_digit (c : ascii) : bool :=
  (48 <=? nat_of_ascii c)%nat && (nat_of_ascii c <=? 57)%nat.

Definition digit_value (c : ascii) : N := N.of_nat (nat_of_ascii c - 48).

Fixpoint read_digits (acc : N) (s : string) : N * string :=
  match s with
  | String c s' =>
      if is_digit c then read_digits (acc * 10 + digit_value c)%N s'
      else (acc, s)
  | EmptyString => (acc, s)
  end.

(** [starts_with_digit s] holds when the first character of [s] is a digit. *)
Definition starts_with_digit (s : string) : bool :=
  match s with String c _ => is_digit c | EmptyString => false end.

Lemma read_digits_stop acc s :
  starts_with_digit s = false -> read_digits acc s = (acc, s).
Proof. destruct s as [|c s]; simpl; [done|]. by intros ->. Qed.

Lemma pretty_N_char_digit x :
  (x < 10)%N ->
  is_digit (pretty_N_char x) = true /\ digit_value (pretty_N_char x) = x.
Proof.
  intros Hx.
  assert (x = 0 \/ x = 1 \/ x = 2 \/ x = 3 \/ x = 4 \/ x = 5 \/ x = 6
          \/ x = 7 \/ x = 8 \/ x = 9)%N as Hc by lia.
  repeat destruct Hc as [-> | Hc]; [..| subst]; split; reflexivity.
Qed.

Lemma pretty_N_go_app x s r : pretty_N_go x s +:+ r = pretty_N_go x (s +:+ r).
Proof.
  revert s. induction (N.lt_wf_0 x) as [x _ IH]; intros s.
  destruct (decide (x = 0)%N) as [->|Hx]; [done|].
  rewrite (pretty_N_go_step x s), (pretty_N_go_step x (s +:+ r)) by lia.
  apply (IH (x `div` 10)%N). apply N.div_lt; lia.
Qed.

Lemma read_digits_pretty_N_go x s :
  exists k, forall acc, read_digits acc (pretty_N_go x s) = read_digits (acc * 10 ^ k + x)%N s.
Proof.
  revert s. induction (N.lt_wf_0 x) as [x _ IH]; intros s.
  destruct (decide (x = 0)%N) as [->|Hx].
  { exists 0%N. intros acc. rewrite pretty_N_go_0. f_equal. lia. }
  rewrite pretty_N_go_step by lia.
  assert (x `div` 10 < x)%N as Hlt by (apply N.div_lt; lia).
  destruct (IH _ Hlt (String (pretty_N_char (x `mod` 10)) s)) as [k Hk].
  exists (k + 1)%N. intros acc. rewrite Hk. simpl.
  destruct (pretty_N_char_digit (x `mod` 10)) as [-> ->]; [apply N.mod_lt; lia|].
  f_equal. rewrite N.pow_add_r, N.pow_1_r.
  pose proof (N.div_mod x 10 ltac:(lia)). nia.
Qed.

(** Reading back the decimal text of a natural number stops at the first
    character that is not a digit. *)
Lemma read_digits_pretty_N x r :
  starts_with_digit r = false -> read_digits 0 (pretty x +:+ r) = (x, r).
Proof.
  intros Hr. unfold pretty, pretty_N.
  case_decide as Hx.
  - subst. simpl. by rewrite read_digits_stop.
  - rewrite pretty_N_go_app. simpl.
    destruct (read_digits_pretty_N_go x r) as [k Hk]. rewrite Hk.
    rewrite read_digits_stop by done. f_equal.
Qed.

Lemma read_digits_pretty_nat (n : nat) r :
  starts_with_digit r = false -> read_digits 0 (pretty n +:+ r) = (N.of_nat n, r).
Proof. apply read_digits_pretty_N. Qed.

Lemma pretty_N_go_head x s :
  x <> 0%N -> exists c t, pretty_N_go x s = String c t /\ is_digit c = true.
Proof.
  revert s. induction (N.lt_wf_0 x) as [x _ IH]; intros s Hx.
  rewrite pretty_N_go_step by lia.
  destruct (pretty_N_char_digit (x `mod` 10)) as [Hd _]; [apply N.mod_lt; lia|].
  destruct (decide (x `div` 10 = 0)%N) as [Hq|Hq].
  - rewrite Hq, pretty_N_go_0. eauto.
  - apply IH; [apply N.div_lt; lia | done].
Qed.

(** The decimal text of a positive number starts with a digit. *)
Lemma pretty_pos_head (p : positive) :
  exists c t, pretty (Npos p) = String c t /\ is_digit c = true.
Proof. unfold pretty, pretty_N. rewrite decide_False by lia. by apply pretty_N_go_head. Qed.

Lemma pretty_nat_nonempty (n : nat) : pretty n <> "".
Proof.
  intros Hs. pose proof (read_digits_pretty_nat n "" eq_refl) as H.
  rewrite Hs in H. simpl in H. injection H as Hn.
  assert (n = 0%nat) as -> by lia. discriminate Hs.
Qed.

(** ** Generic list lemmas shared by the loop models *)

Lemma seq_S_app (start len : nat) : seq start (S len) = seq start len ++ [start + len].
Proof. rewrite seq_S. done. Qed.

Lemma list_sum_map_le {A} (f g : A -> nat) (xs : list A) :
  (forall x, In x xs -> f x <= g x) -> list_sum (map f xs) <= list_sum (map g xs).
Proof.
  induction xs as [|x xs IH]; simpl; [lia|]. intros H.
  pose proof (H x (or_introl eq_refl)). specialize (IH (fun y Hy => H y (or_intror Hy))). lia.
Qed.

Lemma length_filter_fmap {A B} (P : B -> Prop) `{forall y, Decision (P y)} (f : A -> B) (l : list A) :
  length (filter P (f <$> l)) = length (filter (fun x => P (f x)) l).
Proof.
  induction l as [|x l IH]; [done|]. rewrite fmap_cons, !filter_cons.
  by case_decide; simpl; rewrite IH.
Qed.

(** The length of a list bind is bounded by the sum of the bounds of its
    parts. *)
Lemma length_bind_le {A B} (f : A -> list B) (g : A -> nat) (l : list A) :
  (forall x, x ∈ l -> length (f x) <= g x) -> length (l ≫= f) <= sum_list_with g l.
Proof.
  induction l as [|x l IH]; intros Hf; [simpl; lia|].
  rewrite bind_cons, length_app. simpl. pose proof (Hf x ltac:(set_solver)).
  pose proof (IH ltac:(set_solver)). lia.
Qed.

(** Reading off a result computed by evaluation: a [match] on [x] that the
    virtual machine reduces to [P y] gives [x = inr y] and [P y], without
    writing the normal form of [y] into the proof. *)
Lemma inr_eval {A B} (x : A + B) (P : B -> Prop) :
  match x with inr y => P y | inl _ => False end -> exists y, x = inr y /\ P y.
Proof. destruct x; [done|eauto]. Qed.

Lemma some_eval {A} (x : option A) :
  match x with Some _ => True | None => False end -> exists y, x = Some y.
Proof. destruct x; [eauto|done]. Qed.

#[export] Hint Resolve read_digits_stop : chess.
