(* ===== verification/JsValue.v ===== *)
(** * JsValue: the JavaScript values and runtime operations the client uses

    The client (src/ChessGameWithLogin/src) manipulates untyped JavaScript
    values: the board received from the server, the piece objects in it,
    React props.  This file models those values ([jsval]), the runtime
    operations the components apply to them (truthiness, [ToString] as used
    by template literals, property access with its [TypeError] on
    [undefined]/[null], strict equality with a string, [JSON.stringify]),
    and a decoder for the JSON text [JSON.stringify] produces, with the
    round-trip theorem.  Errors thrown by the runtime are values of
    [js_result]; stdpp's monad notation sequences them.

    Modelling choices: numbers are integers ([Z]); floats, NaN and
    Infinity do not occur in the code's data and are not modelled.  A
    string is a sequence of 8-bit code units ([string]).  Objects are
    association lists in insertion order (the order [JSON.stringify]
    follows); lookup takes the first binding.  Reading a property an object
    does not own falls back to [Object.prototype]; the methods of
    [Array.prototype] and [String.prototype] are not modelled. *)

From S2P Require Import Prelude.

#[local] Set Warnings "-register-all".

Inductive jsval :=
| JUndefined
| JNull
| JBool (b : bool)
| JNum (z : Z)
| JStr (s : string)
| JArr (xs : list jsval)
| JObj (fs : list (string * jsval))
| JFun (name : string).

(** Nested induction: the generated principle does not look inside the
    lists of [JArr] and [JObj]. *)
Section jsval_rect.
Variable P : jsval -> Prop.
Hypothesis H_undef : P JUndefined.
Hypothesis H_null : P JNull.
Hypothesis H_bool : forall b, P (JBool b).
Hypothesis H_num : forall z, P (JNum z).
Hypothesis H_str : forall s, P (JStr s).
Hypothesis H_arr : forall xs, Forall P xs -> P (JArr xs).
Hypothesis H_obj : forall fs, Forall (fun f => P f.2) fs -> P (JObj fs).
Hypothesis H_fun : forall n, P (JFun n).

Fixpoint jsval_ind' (v : jsval) : P v :=
  match v with
  | JUndefined => H_undef
  | JNull => H_null
  | JBool b => H_bool b
  | JNum z => H_num z
  | JStr s => H_str s
  | JArr xs =>
      H_arr xs ((fix go (l : list jsval) : Forall P l :=
                   match l with
                   | [] => @List.Forall_nil _ P
                   | x :: l' => @List.Forall_cons _ P x l' (jsval_ind' x) (go l')
                   end) xs)
  | JObj fs =>
      H_obj fs ((fix go (l : list (string * jsval)) : Forall (fun f => P f.2) l :=
                   match l with
                   | [] => @List.Forall_nil _ (fun f => P f.2)
                   | f :: l' => @List.Forall_cons _ (fun f => P f.2) f l' (jsval_ind' f.2) (go l')
                   end) fs)
  | JFun n => H_fun n
  end.
End jsval_rect.

(** ** Thrown errors and the result monad *)

Inductive js_error :=
| TypeError (msg : string)
| ReferenceError (name : string).

Inductive js_result (A : Type) :=
| JsOk (a : A)
| JsThrow (e : js_error).
Arguments JsOk {A} a.
Arguments JsThrow {A} e.

#[export] Instance js_result_ret : MRet js_result := fun A a => JsOk a.
#[export] Instance js_result_bind : MBind js_result :=
  fun A B (k : A -> js_result B) m =>
    match m with JsOk a => k a | JsThrow e => JsThrow e end.

Lemma js_bind_ok {A B} (a : A) (k : A -> js_result B) : (JsOk a ≫= k) = k a.
Proof. done. Qed.

Lemma js_bind_throw {A B} (e : js_error) (k : A -> js_result B) :
  (JsThrow e ≫= k) = JsThrow e.
Proof. done. Qed.

#[export] Hint Rewrite @js_bind_ok @js_bind_throw : chess_rw.

(** ** Truthiness and strict equality *)

(** [ToBoolean]: [undefined], [null], [false], [0] and [""] are falsy. *)
Definition js_truthy (v : jsval) : bool :=
  match v with
  | JUndefined | JNull => false
  | JBool b => b
  | JNum z => bool_decide (z <> 0%Z)
  | JStr s => bool_decide (s <> "")
  | JArr _ | JObj _ | JFun _ => true
  end.

(** [v === "lit"] for a string literal. *)
Definition js_eq_str (v : jsval) (lit : string) : bool :=
  match v with JStr s => bool_decide (s = lit) | _ => false end.

(** ** [ToString], as a template literal applies it *)

Fixpoint concat_sep (sep : string) (l : list string) : string :=
  match l with
  | [] => ""
  | [s] => s
  | s :: l' => s +:+ sep +:+ concat_sep sep l'
  end.

Fixpoint js_to_string (v : jsval) : string :=
  match v with
  | JUndefined => "undefined"
  | JNull => "null"
  | JBool b => if b then "true" else "false"
  | JNum z => pretty z
  | JStr s => s
  | JArr xs =>
      (* Array.prototype.toString is join(","): holes, undefined and null
         print as the empty string *)
      concat_sep ","
        (map (fun x => match x with
                       | JUndefined | JNull => ""
                       | _ => js_to_string x
                       end) xs)
  | JObj _ => "[object Object]"
  | JFun n => "function " +:+ n +:+ "() { [native code] }"
  end.

(** ** Property access *)

(** The members every object inherits from [Object.prototype]. *)
Definition object_prototype_member (k : string) : option jsval :=
  if decide (k = "constructor") then Some (JFun "Object")
  else if decide (k = "__proto__") then Some (JObj [])
  else if decide (k ∈ ["toString"; "toLocaleString"; "valueOf"; "hasOwnProperty";
                       "isPrototypeOf"; "propertyIsEnumerable"; "__defineGetter__";
                       "__defineSetter__"; "__lookupGetter__"; "__lookupSetter__"])
  then Some (JFun k)
  else None.

Fixpoint assoc_lookup {A} (k : string) (l : list (string * A)) : option A :=
  match l with
  | [] => None
  | (k', a) :: l' => if decide (k = k') then Some a else assoc_lookup k l'
  end.

(** A property key names an array element when it is the canonical decimal
    text of a natural number. *)
Definition array_index (k : string) : option nat :=
  match read_digits 0 k with
  | (n, EmptyString) =>
      if decide (k ≠ "" /\ pretty n = k) then Some (N.to_nat n) else None
  | _ => None
  end.

Definition inherited (k : string) : jsval :=
  default JUndefined (object_prototype_member k).

(** [v[k]]: reading a property of [undefined] or [null] throws. *)
Definition js_get (v : jsval) (k : string) : js_result jsval :=
  match v with
  | JUndefined =>
      JsThrow (TypeError ("Cannot read properties of undefined (reading '" +:+ k +:+ "')"))
  | JNull =>
      JsThrow (TypeError ("Cannot read properties of null (reading '" +:+ k +:+ "')"))
  | JObj fs =>
      JsOk (match assoc_lookup k fs with Some x => x | None => inherited k end)
  | JArr xs =>
      JsOk (match array_index k with
            | Some i => default JUndefined (xs !! i)
            | None => if decide (k = "length") then JNum (Z.of_nat (length xs))
                      else inherited k
            end)
  | JStr s =>
      JsOk (match array_index k with
            | Some i => match String.get i s with
                        | Some c => JStr (String c EmptyString)
                        | None => JUndefined
                        end
            | None => if decide (k = "length") then JNum (Z.of_nat (String.length s))
                      else inherited k
            end)
  | JFun n => JsOk (if decide (k = "name") then JStr n else inherited k)
  | JBool _ | JNum _ => JsOk (inherited k)
  end.

(** [v[n]] with a number [n]: the key is [ToString n]. *)
Definition js_index (v : jsval) (n : nat) : js_result jsval := js_get v (pretty n).

Lemma array_index_pretty (n : nat) : array_index (pretty n) = Some n.
Proof.
  unfold array_index.
  rewrite <- (string_app_nil_r (pretty n)), read_digits_pretty_nat by done.
  rewrite string_app_nil_r, decide_True.
  - by rewrite Nat2N.id.
  - split; [apply pretty_nat_nonempty | done].
Qed.

Lemma js_index_arr (xs : list jsval) (n : nat) :
  js_index (JArr xs) n = JsOk (default JUndefined (xs !! n)).
Proof. unfold js_index, js_get. by rewrite array_index_pretty. Qed.

Lemma js_get_undefined_throws k : exists e, js_get JUndefined k = JsThrow e.
Proof. eexists. reflexivity. Qed.

(** ** [JSON.stringify]

    Strings are quoted as the specification's QuoteJSONString does: the
    quote and the backslash are escaped, the control characters below 0x20
    are written [\b \t \n \f \r] or [\u00xx] (lowercase hexadecimal), every
    other code unit is copied.  A value that has no JSON text ([undefined],
    a function) gives [None]: as an object member it is left out, as an
    array element it is written [null]. *)

Definition quote_char : ascii := ascii_of_nat 34.
Definition backslash_char : ascii := ascii_of_nat 92.

Definition hex_char (n : nat) : ascii :=
  ascii_of_nat (if n <? 10 then 48 + n else 87 + n)%nat.

Definition escaped (c : ascii) : string := String backslash_char (String c EmptyString).

Definition json_escape_char (c : ascii) : string :=
  let n := nat_of_ascii c in
  if n =? 34 then escaped quote_char
  else if n =? 92 then escaped backslash_char
  else if n =? 8 then escaped "b"
  else if n =? 9 then escaped "t"
  else if n =? 10 then escaped "n"
  else if n =? 12 then escaped "f"
  else if n =? 13 then escaped "r"
  else if n <? 32 then
    String backslash_char (String "u" (String "0" (String "0"
      (String (hex_char (n / 16)) (String (hex_char (n mod 16)) EmptyString)))))
  else String c EmptyString.

Fixpoint json_escape (s : string) : string :=
  match s with
  | EmptyString => EmptyString
  | String c s' => json_escape_char c +:+ json_escape s'
  end.

Definition json_quote (s : string) : string :=
  String quote_char (json_escape s +:+ String quote_char EmptyString).

Fixpoint json_stringify (v : jsval) : option string :=
  match v with
  | JUndefined | JFun _ => None
  | JNull => Some "null"
  | JBool b => Some (if b then "true" else "false")
  | JNum z => Some (pretty z)
  | JStr s => Some (json_quote s)
  | JArr xs =>
      Some ("[" +:+ concat_sep ","
                      (map (fun x => default "null" (json_stringify x)) xs) +:+ "]")
  | JObj fs =>
      Some ("{" +:+ concat_sep ","
              (flat_map (fun f => match json_stringify f.2 with
                                  | Some t => [json_quote f.1 +:+ ":" +:+ t]
                                  | None => []
                                  end) fs) +:+ "}")
  end.

(** ** Decoding compact JSON text

    [json_decode] reads the text [JSON.stringify] writes (no insignificant
    whitespace).  Nesting is bounded by fuel; [json_decode] gives the length
    of its input as fuel, which [json_decode_stringify] shows is enough. *)

Definition hex_value (c : ascii) : option nat :=
  let n := nat_of_ascii c in
  if (48 <=? n) && (n <=? 57) then Some (n - 48)%nat
  else if (97 <=? n) && (n <=? 102) then Some (n - 87)%nat
  else if (65 <=? n) && (n <=? 70) then Some (n - 55)%nat
  else None.

Definition unicode_escape (h1 h2 h3 h4 : ascii) : option ascii :=
  match hex_value h1, hex_value h2, hex_value h3, hex_value h4 with
  | Some a, Some b, Some c, Some d =>
      let n := (4096 * a + 256 * b + 16 * c + d)%nat in
      if n <? 256 then Some (ascii_of_nat n) else None
  | _, _, _, _ => None
  end.

Definition simple_escape (e : ascii) : option ascii :=
  let n := nat_of_ascii e in
  if n =? 34 then Some quote_char
  else if n =? 92 then Some backslash_char
  else if n =? 47 then Some e
  else if n =? 98 then Some (ascii_of_nat 8)
  else if n =? 116 then Some (ascii_of_nat 9)
  else if n =? 110 then Some (ascii_of_nat 10)
  else if n =? 102 then Some (ascii_of_nat 12)
  else if n =? 114 then Some (ascii_of_nat 13)
  else None.

Definition prepend_char (c : ascii) (o : option (string * string)) : option (string * string) :=
  match o with Some (b, r) => Some (String c b, r) | None => None end.

(** The body of a string literal, after its opening quote: the decoded
    characters and the text after the closing quote. *)
Fixpoint parse_string_body (s : string) : option (string * string) :=
  match s with
  | EmptyString => None
  | String c r =>
      if nat_of_ascii c =? 34 then Some (EmptyString, r)
      else if nat_of_ascii c =? 92 then
        match r with
        | String "u" (String h1 (String h2 (String h3 (String h4 r')))) =>
            match unicode_escape h1 h2 h3 h4 with
            | Some c' => prepend_char c' (parse_string_body r')
            | None => None
            end
        | String e r' =>
            match simple_escape e with
            | Some c' => prepend_char c' (parse_string_body r')
            | None => None
            end
        | EmptyString => None
        end
      else if nat_of_ascii c <? 32 then None
      else prepend_char c (parse_string_body r)
  end.

Fixpoint parse_value (fuel : nat) (s : string) : option (jsval * string) :=
  match fuel with
  | O => None
  | S f =>
      match s with
      | EmptyString => None
      | String c r =>
          let n := nat_of_ascii c in
          if is_digit c then
            let '(k, r') := read_digits 0 s in Some (JNum (Z.of_N k), r')
          else if n =? 45 then
            if starts_with_digit r
            then let '(k, r') := read_digits 0 r in Some (JNum (- Z.of_N k), r')
            else None
          else if n =? 34 then
            match parse_string_body r with
            | Some (b, r') => Some (JStr b, r')
            | None => None
            end
          else if n =? 91 then
            match r with
            | String c' r' =>
                if nat_of_ascii c' =? 93 then Some (JArr [], r') else parse_elems f r []
            | EmptyString => None
            end
          else if n =? 123 then
            match r with
            | String c' r' =>
                if nat_of_ascii c' =? 125 then Some (JObj [], r') else parse_members f r []
            | EmptyString => None
            end
          else if n =? 110 then
            match r with String "u" (String "l" (String "l" r')) => Some (JNull, r') | _ => None end
          else if n =? 116 then
            match r with String "r" (String "u" (String "e" r')) => Some (JBool true, r') | _ => None end
          else if n =? 102 then
            match r with
            | String "a" (String "l" (String "s" (String "e" r'))) => Some (JBool false, r')
            | _ => None
            end
          else None
      end
  end
with parse_elems (fuel : nat) (s : string) (acc : list jsval) : option (jsval * string) :=
  match fuel with
  | O => None
  | S f =>
      match parse_value f s with
      | Some (v, String "," r) => parse_elems f r (acc ++ [v])
      | Some (v, String "]" r) => Some (JArr (acc ++ [v]), r)
      | _ => None
      end
  end
with parse_members (fuel : nat) (s : string) (acc : list (string * jsval))
  : option (jsval * string) :=
  match fuel with
  | O => None
  | S f =>
      match s with
      | String c r =>
          if nat_of_ascii c =? 34 then
            match parse_string_body r with
            | Some (k, String ":" r') =>
                match parse_value f r' with
                | Some (v, String "," r'') => parse_members f r'' (acc ++ [(k, v)])
                | Some (v, String "}" r'') => Some (JObj (acc ++ [(k, v)]), r'')
                | _ => None
                end
            | _ => None
            end
          else None
      | EmptyString => None
      end
  end.

Definition json_decode (s : string) : option jsval :=
  match parse_value (String.length s) s with
  | Some (v, EmptyString) => Some v
  | _ => None
  end.

(** A value is JSON-clean when it contains no [undefined] and no function:
    those are the values [JSON.stringify] writes without loss. *)
Fixpoint json_clean (v : jsval) : bool :=
  match v with
  | JUndefined | JFun _ => false
  | JArr xs => forallb json_clean xs
  | JObj fs => forallb (fun f => json_clean f.2) fs
  | _ => true
  end.

Fixpoint jsize (v : jsval) : nat :=
  match v with
  | JArr xs => S (list_sum (map (fun x => S (jsize x)) xs))
  | JObj fs => S (list_sum (map (fun f => S (jsize f.2)) fs))
  | _ => 1
  end.

Definition json_text (v : jsval) : string := default "" (json_stringify v).

(** ** The round trip [json_decode (JSON.stringify v) = v] *)


Lemma parse_escape_char c r :
  parse_string_body (json_escape_char c +:+ r) = prepend_char c (parse_string_body r).
Proof. destruct c as [[] [] [] [] [] [] [] []]; reflexivity. Qed.

Lemma parse_string_body_escape s r :
  parse_string_body (json_escape s +:+ String quote_char r) = Some (s, r).
Proof.
  induction s as [|c s IH]; [reflexivity|].
  cbn [json_escape]. rewrite <- string_app_assoc, parse_escape_char, IH. reflexivity.
Qed.

Lemma json_stringify_clean v : json_clean v = true -> json_stringify v = Some (json_text v).
Proof. by destruct v. Qed.

Lemma json_text_arr xs :
  forallb json_clean xs = true ->
  json_text (JArr xs) = "[" +:+ concat_sep "," (map json_text xs) +:+ "]".
Proof.
  intros Hc. unfold json_text at 1. simpl. do 3 f_equal.
  apply map_ext_in. intros x Hx. rewrite json_stringify_clean; [done|].
  by apply (proj1 (forallb_forall _ _) Hc).
Qed.

Definition json_member (f : string * jsval) : string := json_quote f.1 +:+ ":" +:+ json_text f.2.

Lemma json_text_obj fs :
  forallb (fun f => json_clean f.2) fs = true ->
  json_text (JObj fs) = "{" +:+ concat_sep "," (map json_member fs) +:+ "}".
Proof.
  intros Hc. unfold json_text at 1. simpl. do 3 f_equal.
  induction fs as [|[k x] fs IH]; [done|]. simpl in *.
  apply andb_prop in Hc as [Hx Hfs]. rewrite json_stringify_clean by done.
  simpl. by rewrite IH.
Qed.

Lemma json_text_head v :
  json_clean v = true -> exists c t, json_text v = String c t /\ nat_of_ascii c <> 93.
Proof.
  intros Hc. destruct v as [| |[]|[|p|p]|s|xs|fs|]; try discriminate;
    try (eexists _, _; split; [reflexivity | cbv; lia]).
  - destruct (pretty_pos_head p) as (c & t & Hp & Hd).
    exists c, t. split; [exact Hp|].
    unfold is_digit in Hd. apply andb_prop in Hd as [H1 H2].
    apply Nat.leb_le in H1, H2. lia.
Qed.

Lemma concat_sep_cons2 sep t1 t2 ts :
  concat_sep sep (t1 :: t2 :: ts) = t1 +:+ sep +:+ concat_sep sep (t2 :: ts).
Proof. reflexivity. Qed.

Lemma concat_sep_head sep c t ts :
  concat_sep sep (String c t :: ts) = String c (concat_sep sep (t :: ts)).
Proof. by destruct ts. Qed.

Definition parses_back (v : jsval) : Prop :=
  forall fuel rest, jsize v <= fuel -> starts_with_digit rest = false ->
  parse_value fuel (json_text v +:+ rest) = Some (v, rest).

Lemma parse_elems_text xs :
  Forall parses_back xs -> xs <> [] ->
  forall fuel acc rest, list_sum (map (fun x => S (jsize x)) xs) <= fuel ->
  parse_elems fuel (concat_sep "," (map json_text xs) +:+ "]" +:+ rest) acc
  = Some (JArr (acc ++ xs), rest).
Proof.
  induction 1 as [|x xs Hx Hxs IH]; [done|]. intros _ fuel acc rest Hf.
  destruct fuel as [|f]; simpl in Hf; [lia|].
  destruct xs as [|y ys].
  - simpl. rewrite Hx by (simpl in *; lia || done). done.
  - rewrite !map_cons, concat_sep_cons2, <- !map_cons.
    rewrite <- !string_app_assoc, string_app_cons, string_app_nil_l.
    remember (concat_sep "," (map json_text (y :: ys))) as r eqn:Er.
    simpl parse_elems. rewrite Hx by (simpl in *; lia || done).
    simpl. subst r.
    rewrite (IH ltac:(done) f (acc ++ [x]) rest) by (simpl in *; lia).
    by rewrite <- app_assoc.
Qed.

Lemma parse_member_text k x r acc f :
  parses_back x -> jsize x <= f -> starts_with_digit r = false ->
  parse_members (S f) (json_member (k, x) +:+ r) acc
  = match parse_value f (json_text x +:+ r) with
    | Some (v, String "," r'') => parse_members f r'' (acc ++ [(k, v)])
    | Some (v, String "}" r'') => Some (JObj (acc ++ [(k, v)]), r'')
    | _ => None
    end.
Proof.
  intros Hx Hf Hr. unfold json_member, json_quote. cbn [fst snd]. str_norm.
  remember (json_text x +:+ r) as t eqn:Et.
  simpl parse_members. rewrite parse_string_body_escape. done.
Qed.

Lemma parse_members_text fs :
  Forall (fun f => parses_back f.2) fs -> fs <> [] ->
  forall fuel acc rest, list_sum (map (fun f => S (jsize f.2)) fs) <= fuel ->
  parse_members fuel (concat_sep "," (map json_member fs) +:+ "}" +:+ rest) acc
  = Some (JObj (acc ++ fs), rest).
Proof.
  induction 1 as [|[k x] fs Hx Hfs IH]; [done|]. intros _ fuel acc rest Hf.
  destruct fuel as [|f]; simpl in Hf; [lia|].
  destruct fs as [|g gs].
  - simpl concat_sep. rewrite parse_member_text by (done || simpl in *; lia).
    rewrite Hx by (done || simpl in *; lia). done.
  - rewrite !map_cons, concat_sep_cons2, <- !map_cons.
    remember (concat_sep "," (map json_member (g :: gs))) as r eqn:Er.
    rewrite <- !string_app_assoc.
    rewrite parse_member_text by (done || simpl in *; lia).
    rewrite Hx by (done || simpl in *; lia). simpl. subst r.
    rewrite string_app_nil_l.
    rewrite (IH ltac:(done) f (acc ++ [(k, x)]) rest) by (simpl in *; lia).
    by rewrite <- app_assoc.
Qed.

Lemma parse_value_text v : json_clean v = true -> parses_back v.
Proof.
  induction v as [| |b|z|s|xs IH|fs IH|n] using jsval_ind'; intros Hc fuel rest Hf Hr;
    try discriminate; destruct fuel as [|f]; simpl in Hf; try lia.
  - reflexivity.
  - by destruct b.
  - destruct z as [|p|p].
    + simpl. by rewrite read_digits_stop.
    + unfold json_text; simpl json_stringify.
      destruct (pretty_pos_head p) as (c & t & Hp & Hd).
      change (pretty (Z.pos p)) with (pretty (N.pos p)).
      pose proof (read_digits_pretty_N (N.pos p) rest Hr) as Hrd.
      rewrite Hp in Hrd |- *. simpl default. rewrite string_app_cons in Hrd |- *.
      simpl parse_value. simpl in Hrd. rewrite Hd in Hrd |- *. by rewrite Hrd.
    + unfold json_text; simpl json_stringify. unfold pretty at 1, pretty_Z.
      destruct (pretty_pos_head p) as (c & t & Hp & Hd).
      pose proof (read_digits_pretty_N (N.pos p) rest Hr) as Hrd.
      change (pretty p) with (pretty (N.pos p)). simpl default. str_norm.
      simpl parse_value. rewrite Hp, string_app_cons. simpl starts_with_digit.
      rewrite Hd, <- string_app_cons, <- Hp, Hrd. done.
  - unfold json_text; simpl json_stringify. simpl default. unfold json_quote. str_norm.
    simpl parse_value. by rewrite parse_string_body_escape.
  - simpl in Hc. rewrite json_text_arr by done.
    destruct xs as [|x xs']; [reflexivity|].
    destruct (json_text_head x) as (c & t & Ht & H93).
    { exact (proj1 (forallb_forall _ _) Hc x (or_introl eq_refl)). }
    rewrite map_cons.
    assert (Forall parses_back (x :: xs')) as Hall.
    { rewrite Forall_forall in IH |- *. intros y Hy. apply IH; [done|].
      apply (proj1 (forallb_forall _ _) Hc). by apply list_elem_of_In. }
    pose proof (parse_elems_text (x :: xs') Hall ltac:(done) f [] rest ltac:(simpl in *; lia))
      as He.
    rewrite map_cons, Ht, concat_sep_head, string_app_cons in He.
    rewrite Ht, concat_sep_head. str_norm.
    remember (concat_sep "," (t :: map json_text xs')) as q eqn:Eq.
    simpl parse_value. apply Nat.eqb_neq in H93. rewrite H93. exact He.
  - simpl in Hc. rewrite json_text_obj by done.
    destruct fs as [|[k x] fs']; [reflexivity|].
    assert (Forall (fun g => parses_back g.2) ((k, x) :: fs')) as Hall.
    { rewrite Forall_forall in IH |- *. intros g Hg. apply IH; [done|].
      apply (proj1 (forallb_forall _ _) Hc). by apply list_elem_of_In. }
    pose proof (parse_members_text _ Hall ltac:(done) f [] rest ltac:(simpl in *; lia)) as He.
    assert (json_member (k, x)
            = String quote_char (json_escape k +:+ String quote_char (String ":" (json_text x))))
      as Hm by (unfold json_member, json_quote; cbn [fst snd]; by str_norm).
    rewrite map_cons, Hm, concat_sep_head in He |- *. str_norm.
    remember (concat_sep "," (_ :: map json_member fs')) as q eqn:Eq.
    simpl parse_value. exact He.
Qed.

Lemma concat_sep_length ts :
  list_sum (map (fun t => S (String.length t)) ts) <= S (String.length (concat_sep "," ts)).
Proof.
  induction ts as [|t ts IH]; simpl; [lia|].
  destruct ts as [|t' ts']; simpl in *; [lia|].
  rewrite !string_length_app in *. simpl. lia.
Qed.



Lemma jsize_le_text v : json_clean v = true -> jsize v <= String.length (json_text v).
Proof.
  induction v as [| |b|z|s|xs IH|fs IH|n] using jsval_ind'; intros Hc; try discriminate.
  - simpl. lia.
  - destruct b; simpl; lia.
  - destruct z as [|p|p]; [simpl; lia| |].
    + destruct (pretty_pos_head p) as (c & t & Hp & _). unfold json_text. simpl.
      change (pretty (Z.pos p)) with (pretty (N.pos p)). rewrite Hp. simpl. lia.
    + unfold json_text. simpl. lia.
  - unfold json_text. simpl. lia.
  - simpl in Hc. rewrite json_text_arr by done. rewrite !string_length_app. simpl.
    pose proof (concat_sep_length (map json_text xs)) as Hl. rewrite map_map in Hl.
    enough (list_sum (map (fun x => S (jsize x)) xs)
            <= list_sum (map (fun x => S (String.length (json_text x))) xs)) by lia.
    apply list_sum_map_le. intros x Hx. rewrite Forall_forall in IH.
    enough (jsize x <= String.length (json_text x)) by lia.
    apply IH; [by apply list_elem_of_In|]. by apply (proj1 (forallb_forall _ _) Hc).
  - simpl in Hc. rewrite json_text_obj by done. rewrite !string_length_app. simpl.
    pose proof (concat_sep_length (map json_member fs)) as Hl. rewrite map_map in Hl.
    enough (list_sum (map (fun g => S (jsize g.2)) fs)
            <= list_sum (map (fun g => S (String.length (json_member g))) fs)) by lia.
    apply list_sum_map_le. intros [k x] Hx. rewrite Forall_forall in IH.
    unfold json_member, json_quote. cbn [fst snd]. rewrite !string_length_app. simpl.
    rewrite !string_length_app. simpl.
    enough (jsize x <= String.length (json_text x)) by lia.
    apply (IH (k, x)); [by apply list_elem_of_In|]. by apply (proj1 (forallb_forall _ _) Hc (k, x)).
Qed.

Theorem json_decode_stringify v : json_clean v = true -> (json_stringify v ≫= json_decode) = Some v.
Proof.
  intros Hc. rewrite json_stringify_clean by done. simpl. unfold json_decode.
  pose proof (parse_value_text v Hc (String.length (json_text v)) "" (jsize_le_text v Hc)
                eq_refl) as H.
  rewrite string_app_nil_r in H. by rewrite H.
Qed.

(** ** Calling a value

    Calling a function value hands its arguments to the caller's side (the
    component that supplied the callback); calling anything else throws a
    [TypeError].  The call is returned as a value so that the parent
    component decides what it does. *)

Record js_call_event := mkCallEvent {
  callee : string;
  call_args : list jsval
}.

Definition js_call (f : jsval) (what : string) (args : list jsval) : js_result js_call_event :=
  match f with
  | JFun n => JsOk (mkCallEvent n args)
  | _ => JsThrow (TypeError (what +:+ " is not a function"))
  end.

(** ** [mapM] in the result monad

    stdpp's [mapM] runs a function over a list and stops at the first
    thrown error; the loops of the components are compared with it. *)

Lemma js_bind_assoc {A B C} (m : js_result A) (f : A -> js_result B) (g : B -> js_result C) :
  ((m ≫= f) ≫= g) = (m ≫= fun a => f a ≫= g).
Proof. by destruct m. Qed.

Lemma js_bind_ret_r {A} (m : js_result A) : (m ≫= fun a => mret a) = m.
Proof. by destruct m. Qed.

Section js_mapM.
Context {A B : Type} (f : A -> js_result B).

Lemma js_mapM_app (l1 l2 : list A) :
  mapM f (l1 ++ l2) = (k1 ← mapM f l1; k2 ← mapM f l2; mret (k1 ++ k2)).
Proof.
  induction l1 as [|x l1 IH]; simpl.
  - by destruct (mapM f l2).
  - destruct (f x); simpl; [|done]. rewrite IH.
    destruct (mapM f l1); simpl; [|done]. by destruct (mapM f l2).
Qed.

Lemma js_mapM_ok (l : list A) (k : list B) :
  mapM f l = JsOk k <-> Forall2 (fun x y => f x = JsOk y) l k.
Proof.
  revert k. induction l as [|x l IH]; intros k; simpl.
  - split; [intros [= <-]; constructor | by inversion 1].
  - destruct (f x) as [y|e] eqn:Hx; simpl.
    + destruct (mapM f l) as [k'|e] eqn:Hl; simpl.
      * split; [intros [= <-]; constructor; [done|]; by apply IH|].
        inversion 1 as [|? y' ? k'' Hy Hk]; subst. rewrite Hx in Hy. injection Hy as ->.
        apply IH in Hk. injection Hk as ->. reflexivity.
      * split; [discriminate|]. inversion 1 as [|? ? ? k'' _ Hk]; subst.
        apply IH in Hk. congruence.
    + split; [discriminate|]. inversion 1; congruence.
Qed.
End js_mapM.

Lemma js_mapM_map {A B C} (f : B -> js_result C) (g : A -> B) (l : list A) :
  mapM f (map g l) = mapM (fun x => f (g x)) l.
Proof. induction l as [|x l IH]; simpl; [done|]. by rewrite IH. Qed.

Lemma js_mapM_ok_all {A B} (f : A -> js_result B) (l : list A) :
  (exists k, mapM f l = JsOk k) <-> (forall x, In x l -> exists y, f x = JsOk y).
Proof.
  induction l as [|x l IH]; simpl.
  - split; [intros _ x []|]. by exists [].
  - split.
    + intros [k Hk]. destruct (f x) as [y|e] eqn:Hx; simpl in Hk; [|discriminate].
      destruct (mapM f l) as [k'|e] eqn:Hl; simpl in Hk; [|discriminate].
      intros z [<-|Hz]; [by exists y|]. apply IH; [by exists k'|done].
    + intros Hall. destruct (Hall x (or_introl eq_refl)) as [y ->]. simpl.
      destruct (proj2 IH (fun z Hz => Hall z (or_intror Hz))) as [k ->]. by eexists.
Qed.

(** Reading a property of anything but [undefined] and [null] succeeds. *)
Lemma js_get_ok v k : v <> JUndefined -> v <> JNull -> exists x, js_get v k = JsOk x.
Proof. destruct v; try congruence; by eexists. Qed.

Lemma js_truthy_defined v : js_truthy v = true -> v <> JUndefined /\ v <> JNull.
Proof. by destruct v. Qed.
