(* ===== verification/ChessPiece.v ===== *)
(** * ChessPiece: src/ChessGameWithLogin/src/components/ChessPiece.js

    The component receives the props [{ piece, color, position }] and
    renders an [<img>] whose source path is built from a lookup in the
    object literal [pieceImageMap] and from the colour; dragging the image
    stores [JSON.stringify({ piece, color, position })] under the format
    ['piece'] of the drag event's [dataTransfer] store.

    Each [const] of the component is one definition below; the rendered
    element is a record whose [onDragStart] field is the handler, a function
    on the [dataTransfer] store (a [gmap] from format to data). *)

From S2P Require Import Prelude JsValue.

Module ChessPiece.

(** The props object [{ piece, color, position }] (ChessPiece.js:3). *)
Record props := mkProps {
  piece : jsval;
  color : jsval;
  position : jsval
}.

(** [e.dataTransfer]: the drag data store, format to data. *)
Abbreviation data_transfer := (gmap string string).

(** The rendered [<img>] element (ChessPiece.js:22-29). *)
Record element := mkImg {
  img_src : string;
  img_alt : string;
  img_className : string;
  img_draggable : bool;
  img_onDragStart : data_transfer -> data_transfer
}.

(** ChessPiece.js:4-11 *)
Definition pieceImageMap : jsval :=
  JObj [("Pawn", JStr "pawn"); ("Knight", JStr "knight"); ("Bishop", JStr "bishop");
        ("Rook", JStr "rook"); ("Queen", JStr "queen"); ("King", JStr "king")].

(** [pieceImageMap[piece]]: the key is [ToString(piece)] (ChessPiece.js:13). *)
Definition pieceImage (p : props) : js_result jsval :=
  js_get pieceImageMap (js_to_string (piece p)).

(** [color === 'white' ? 'w' : 'b'] (ChessPiece.js:14). *)
Definition pieceColor (p : props) : string :=
  if js_eq_str (color p) "white" then "w" else "b".

(** [`./assets/pieces/${pieceColor}${pieceImage}.png`] (ChessPiece.js:15). *)
Definition imageSrc (p : props) (image : jsval) : string :=
  "./assets/pieces/" +:+ pieceColor p +:+ js_to_string image +:+ ".png".

(** [`${color} ${piece}`] (ChessPiece.js:16). *)
Definition altText (p : props) : string :=
  js_to_string (color p) +:+ " " +:+ js_to_string (piece p).

(** The object literal [{ piece, color, position }] of ChessPiece.js:19. *)
Definition dragPayload (p : props) : jsval :=
  JObj [("piece", piece p); ("color", color p); ("position", position p)].

(** [e.dataTransfer.setData('piece', JSON.stringify(...))]
    (ChessPiece.js:18-20).  [setData] converts its argument to a string,
    so an [undefined] result of [JSON.stringify] would be stored as
    ["undefined"]. *)
Definition handleDragStart (p : props) (dt : data_transfer) : data_transfer :=
  <["piece" := default "undefined" (json_stringify (dragPayload p))]> dt.

(** The component (ChessPiece.js:3-30). *)
Definition render (p : props) : js_result element :=
  image ← pieceImage p;
  mret {| img_src := imageSrc p image;
          img_alt := altText p;
          img_className := "chess-piece";
          img_draggable := true;
          img_onDragStart := handleDragStart p |}.

(** ** The six piece kinds the image map names *)

Inductive kind := Pawn | Knight | Bishop | Rook | Queen | King.

Definition kind_name (k : kind) : string :=
  match k with
  | Pawn => "Pawn" | Knight => "Knight" | Bishop => "Bishop"
  | Rook => "Rook" | Queen => "Queen" | King => "King"
  end.

Definition kind_image (k : kind) : string :=
  match k with
  | Pawn => "pawn" | Knight => "knight" | Bishop => "bishop"
  | Rook => "rook" | Queen => "queen" | King => "king"
  end.

(** ** Properties *)

Lemma pieceImageMap_get k :
  js_get pieceImageMap k
  = JsOk (match assoc_lookup k [("Pawn", JStr "pawn"); ("Knight", JStr "knight");
                                ("Bishop", JStr "bishop"); ("Rook", JStr "rook");
                                ("Queen", JStr "queen"); ("King", JStr "king")] with
          | Some x => x
          | None => inherited k
          end).
Proof. reflexivity. Qed.

(** (C21) A well-formed piece of kind [k] and colour [c] is drawn from
    [./assets/pieces/<w|b><kind>.png], with the alternative text
    ["<c> <Kind>"]. *)
Theorem render_kind (k : kind) (c : string) (pos : jsval) :
  exists el,
    render (mkProps (JStr (kind_name k)) (JStr c) pos) = JsOk el /\
    img_src el = "./assets/pieces/" +:+ (if decide (c = "white") then "w" else "b")
                 +:+ kind_image k +:+ ".png" /\
    img_alt el = c +:+ " " +:+ kind_name k.
Proof.
  destruct k; (eexists; split; [reflexivity|]; split; [|reflexivity];
    unfold imageSrc, pieceColor, js_eq_str; simpl;
    case_bool_decide; case_decide; congruence).
Qed.

(** (C22) A [piece] whose text is neither one of the six kinds nor a member
    of [Object.prototype] gives [pieceImageMap[piece] === undefined], and
    the path ends in ["undefined.png"]. *)
Theorem render_unknown_piece (p : props) :
  js_to_string (piece p) ∉ map kind_name [Pawn; Knight; Bishop; Rook; Queen; King] ->
  object_prototype_member (js_to_string (piece p)) = None ->
  exists el, render p = JsOk el /\
    img_src el = "./assets/pieces/" +:+ pieceColor p +:+ "undefined.png".
Proof.
  intros Hk Hproto. unfold render, pieceImage. rewrite pieceImageMap_get.
  simpl in Hk. unfold inherited. rewrite Hproto.
  remember (js_to_string (piece p)) as k eqn:Ek.
  assert (assoc_lookup k [("Pawn", JStr "pawn"); ("Knight", JStr "knight");
                          ("Bishop", JStr "bishop"); ("Rook", JStr "rook");
                          ("Queen", JStr "queen"); ("King", JStr "king")] = None) as ->.
  { simpl. repeat (case_decide; [set_solver|]). done. }
  by eexists.
Qed.

(** (C17) Dragging stores, under the format ['piece'], a JSON text that
    decodes back to [{ piece, color, position }] when the three values are
    JSON-clean, and leaves the other formats of the store unchanged. *)
Theorem handleDragStart_roundtrip (p : props) (dt : data_transfer) :
  json_clean (piece p) = true -> json_clean (color p) = true ->
  json_clean (position p) = true ->
  (handleDragStart p dt !! "piece" ≫= json_decode) = Some (JObj [("piece", piece p); ("color", color p); ("position", position p)]) /\
  (forall fmt, fmt <> "piece" -> handleDragStart p dt !! fmt = dt !! fmt).
Proof.
  intros Hp Hc Hpos.
  assert (json_clean (dragPayload p) = true) as Hd by (simpl; by rewrite Hp, Hc, Hpos).
  unfold handleDragStart. split.
  - rewrite lookup_insert_eq, (json_stringify_clean _ Hd). simpl.
    pose proof (json_decode_stringify (dragPayload p) Hd) as H.
    by rewrite (json_stringify_clean _ Hd) in H.
  - intros fmt Hfmt. by rewrite lookup_insert_ne.
Qed.

(** (C23) When [piece] is [undefined] (a board cell without a [name]),
    [JSON.stringify] leaves the member out: the stored payload has no
    [piece] key. *)
Theorem handleDragStart_drops_undefined_piece (p : props) (dt : data_transfer) :
  piece p = JUndefined -> json_clean (color p) = true -> json_clean (position p) = true ->
  (handleDragStart p dt !! "piece" ≫= json_decode)
  = Some (JObj [("color", color p); ("position", position p)]).
Proof.
  intros Hp Hc Hpos. unfold handleDragStart. rewrite lookup_insert_eq.
  pose proof (json_decode_stringify (JObj [("color", color p); ("position", position p)])) as H.
  assert (json_stringify (dragPayload p)
          = json_stringify (JObj [("color", color p); ("position", position p)])) as E.
  { unfold dragPayload. rewrite Hp. reflexivity. }
  assert (json_clean (JObj [("color", color p); ("position", position p)]) = true) as Hd
    by (simpl; by rewrite Hc, Hpos).
  rewrite E, (json_stringify_clean _ Hd). simpl.
  specialize (H Hd). by rewrite (json_stringify_clean _ Hd) in H.
Qed.

(** ** Witnesses *)

(** A cell without [name]: the image path is ["./assets/pieces/bundefined.png"]. *)
Lemma render_unknown_piece_witness :
  exists el, render (mkProps JUndefined JUndefined (JArr [JNum 0; JNum 0])) = JsOk el /\
    img_src el = "./assets/pieces/" +:+ "b" +:+ "undefined.png".
Proof.
  apply (render_unknown_piece (mkProps JUndefined JUndefined (JArr [JNum 0; JNum 0])));
    [apply (bool_decide_unpack _); vm_compute; reflexivity | vm_compute; reflexivity].
Defined.

Lemma handleDragStart_roundtrip_witness :
  let p := mkProps (JStr "Knight") (JStr "white") (JArr [JNum 7; JNum 6]) in
  (handleDragStart p ∅ !! "piece" ≫= json_decode)
  = Some (JObj [("piece", JStr "Knight"); ("color", JStr "white"); ("position", JArr [JNum 7; JNum 6])]) /\
  (forall fmt, fmt <> "piece" -> handleDragStart p ∅ !! fmt = (∅ : data_transfer) !! fmt).
Proof. intros p. apply handleDragStart_roundtrip; reflexivity. Defined.

Lemma handleDragStart_drops_undefined_piece_witness :
  let p := mkProps JUndefined (JStr "black") (JArr [JNum 0; JNum 3]) in
  (handleDragStart p ∅ !! "piece" ≫= json_decode)
  = Some (JObj [("color", JStr "black"); ("position", JArr [JNum 0; JNum 3])]).
Proof. intros p. apply (handleDragStart_drops_undefined_piece p); reflexivity. Defined.

End ChessPiece.
