(* ===== verification/ChessBoard.v ===== *)
(** * ChessBoard: src/ChessGameWithLogin/src/components/ChessBoard.js

    The component receives [{ board, onPieceClick, onSquareClick }].
    [renderSquare(row, col)] reads [board[row][col]], colours the square by
    the parity of [row + col], renders a [ChessPiece] for a truthy cell and
    installs a click handler that calls [onPieceClick(piece, [row, col])] on
    a truthy cell and [onSquareClick([row, col])] otherwise.
    [renderBoard()] pushes the 64 squares in two nested [for] loops.

    The loops are [Fixpoint]s on the number of iterations left; the
    squares they push are accumulated in order, as [squares.push] does.
    Rendering can throw: [board[row]] is [undefined] for a missing row and
    reading [[col]] of it raises a [TypeError], which aborts [renderBoard]. *)

From S2P Require Import Prelude JsValue ChessPiece.

Module ChessBoard.

(** The props [{ board, onPieceClick, onSquareClick }] (ChessBoard.js:5). *)
Record props := mkProps {
  board : jsval;
  onPieceClick : jsval;
  onSquareClick : jsval
}.

(** What [{piece && <ChessPiece .../>}] renders: nothing for [undefined],
    [null], [false] and [""], the text ["0"] for the number [0], a
    [ChessPiece] with its props for a truthy cell. *)
Inductive child :=
| NoChild
| TextChild (s : string)
| PieceChild (pp : ChessPiece.props).

(** The [<div>] of one square (ChessBoard.js:19-33); [sq_onClick] is the
    outcome of running [handleClick]. *)
Record square := mkSquare {
  sq_key : string;
  sq_className : string;
  sq_onClick : js_result js_call_event;
  sq_child : child
}.

Definition position (row col : nat) : jsval :=
  JArr [JNum (Z.of_nat row); JNum (Z.of_nat col)].

(** [(row + col) % 2 === 0] (ChessBoard.js:8). *)
Definition isLight (row col : nat) : bool := Nat.eqb ((row + col) mod 2) 0.

(** ChessBoard.js:9 *)
Definition squareClass (row col : nat) : string :=
  if isLight row col then "light-square" else "dark-square".

(** [`${row}-${col}`] (ChessBoard.js:21). *)
Definition squareKey (row col : nat) : string := pretty row +:+ "-" +:+ pretty col.

(** ChessBoard.js:11-17 *)
Definition handleClick (p : props) (piece : jsval) (row col : nat) : js_result js_call_event :=
  if js_truthy piece
  then js_call (onPieceClick p) "onPieceClick" [piece; position row col]
  else js_call (onSquareClick p) "onSquareClick" [position row col].

(** ChessBoard.js:25-31: the [ChessPiece] element reads [piece.name] and
    [piece.color] when the cell is truthy. *)
Definition renderChild (piece : jsval) (row col : nat) : js_result child :=
  if js_truthy piece then
    name ← js_get piece "name";
    color ← js_get piece "color";
    mret (PieceChild (ChessPiece.mkProps name color (position row col)))
  else mret (match piece with JNum 0 => TextChild "0" | _ => NoChild end).

(** ChessBoard.js:6-34 *)
Definition renderSquare (p : props) (row col : nat) : js_result square :=
  cells ← js_index (board p) row;
  piece ← js_index cells col;
  c ← renderChild piece row col;
  mret {| sq_key := squareKey row col;
          sq_className := "chess-square " +:+ squareClass row col;
          sq_onClick := handleClick p piece row col;
          sq_child := c |}.

(** The inner loop [for (let col = ...; col < 8; col++)]
    (ChessBoard.js:39-41), with [n] iterations left. *)
Fixpoint renderCols (p : props) (row col n : nat) (squares : list square)
  : js_result (list square) :=
  match n with
  | O => mret squares
  | S n' =>
      sq ← renderSquare p row col;
      renderCols p row (S col) n' (squares ++ [sq])
  end.

(** The outer loop [for (let row = ...; row < 8; row++)]
    (ChessBoard.js:38-42). *)
Fixpoint renderRows (p : props) (row n : nat) (squares : list square)
  : js_result (list square) :=
  match n with
  | O => mret squares
  | S n' =>
      squares' ← renderCols p row 0 8 squares;
      renderRows p (S row) n' squares'
  end.

(** ChessBoard.js:36-44 *)
Definition renderBoard (p : props) : js_result (list square) := renderRows p 0 8 [].

(** The component: [<div className="chess-board">{renderBoard()}</div>]
    (ChessBoard.js:5-47). *)
Definition render (p : props) : js_result (string * list square) :=
  squares ← renderBoard p;
  mret ("chess-board", squares).

(** The parameter destructuring [({ board, onPieceClick, onSquareClick })]
    applied to the props object a parent passes (ChessBoard.js:5). *)
Definition props_of (o : jsval) : js_result props :=
  b ← js_get o "board";
  opc ← js_get o "onPieceClick";
  osc ← js_get o "onSquareClick";
  mret (mkProps b opc osc).

(** ** Reference definitions *)

(** The squares in the order the loops visit them: row-major. *)
Definition board_coords : list (nat * nat) :=
  flat_map (fun r => map (fun c => (r, c)) (seq 0 8)) (seq 0 8).

(** [board[row]] is an array-like value whose cells can be read. *)
Definition row_readable (p : props) (row : nat) : bool :=
  match js_index (board p) row with
  | JsOk JUndefined | JsOk JNull | JsThrow _ => false
  | JsOk _ => true
  end.

(** ** Loops *)

Lemma renderCols_mapM p row col n acc :
  renderCols p row col n acc = (sqs ← mapM (renderSquare p row) (seq col n); mret (acc ++ sqs)).
Proof.
  revert col acc. induction n as [|n IH]; intros col acc; simpl.
  - by rewrite app_nil_r.
  - destruct (renderSquare p row col) as [sq|e]; simpl; [|done].
    rewrite IH. destruct (mapM (renderSquare p row) (seq (S col) n)); simpl; [|done].
    by rewrite <- app_assoc.
Qed.

Lemma renderRows_mapM p row n acc :
  renderRows p row n acc
  = (sqs ← mapM (fun rc => renderSquare p rc.1 rc.2)
                (flat_map (fun r => map (fun c => (r, c)) (seq 0 8)) (seq row n));
     mret (acc ++ sqs)).
Proof.
  revert row acc. induction n as [|n IH]; intros row acc.
  - simpl. by rewrite app_nil_r.
  - cbn [renderRows]. rewrite renderCols_mapM.
    replace (flat_map (fun r => map (fun c => (r, c)) (seq 0 8)) (seq row (S n)))
      with (map (fun c => (row, c)) (seq 0 8)
            ++ flat_map (fun r => map (fun c => (r, c)) (seq 0 8)) (seq (S row) n))
      by reflexivity.
    rewrite js_mapM_app, js_mapM_map. cbn [fst snd].
    change (fun x => renderSquare p row x) with (renderSquare p row).
    destruct (mapM (renderSquare p row) (seq 0 8)); simpl; [|done].
    rewrite IH.
    destruct (mapM _ (flat_map _ (seq (S row) n))); simpl; [|done].
    by rewrite app_assoc.
Qed.

Lemma board_coords_lookup i : i < 64 -> board_coords !! i = Some (i / 8, i mod 8).
Proof. intros Hi. do 64 (destruct i as [|i]; [reflexivity|]). lia. Qed.

Lemma board_coords_In r c : In (r, c) board_coords <-> r < 8 /\ c < 8.
Proof.
  unfold board_coords. rewrite in_flat_map. split.
  - intros (r' & Hr & Hc). apply in_map_iff in Hc as (c' & [= <- <-] & Hc).
    apply in_seq in Hr, Hc. lia.
  - intros [Hr Hc]. exists r. split; [apply in_seq; lia|].
    apply in_map_iff. exists c. split; [done|]. apply in_seq. lia.
Qed.

Lemma renderSquare_ok_iff p row col :
  (exists sq, renderSquare p row col = JsOk sq) <-> row_readable p row = true.
Proof.
  unfold renderSquare, row_readable.
  destruct (js_index (board p) row) as [cells|e]; simpl; [|split; [intros []; discriminate | done]].
  assert (cells = JUndefined \/ cells = JNull \/ (cells <> JUndefined /\ cells <> JNull))
    as [->|[->|[Hu Hn]]] by (destruct cells; naive_solver).
  - split; [intros []; discriminate | done].
  - split; [intros []; discriminate | done].
  - destruct (js_get_ok cells (pretty col)) as [piece Hpiece]; [done..|].
    unfold js_index. rewrite Hpiece. simpl. unfold renderChild.
    destruct (js_truthy piece) eqn:Ht.
    + destruct (js_truthy_defined piece Ht).
      destruct (js_get_ok piece "name") as [n ->]; [done..|].
      destruct (js_get_ok piece "color") as [c ->]; [done..|].
      split; [|by eexists]. intros _. destruct cells; naive_solver.
    + split; [|by eexists]. intros _. destruct cells; naive_solver.
Qed.

Lemma renderSquare_key p row col sq :
  renderSquare p row col = JsOk sq ->
  sq_key sq = squareKey row col /\ sq_className sq = "chess-square " +:+ squareClass row col.
Proof.
  unfold renderSquare.
  destruct (js_index (board p) row); simpl; [|discriminate].
  destruct (js_index a col); simpl; [|discriminate].
  destruct (renderChild a0 row col); simpl; [|discriminate]. by intros [= <-].
Qed.

Lemma renderSquare_onClick p row col sq :
  renderSquare p row col = JsOk sq -> exists piece, sq_onClick sq = handleClick p piece row col.
Proof.
  unfold renderSquare.
  destruct (js_index (board p) row); simpl; [|discriminate].
  destruct (js_index a col) as [piece|]; simpl; [|discriminate].
  destruct (renderChild piece row col); simpl; [|discriminate]. intros [= <-]. eauto.
Qed.

(** Two different squares have different React keys: [`${row}-${col}`]
    is injective because a decimal numeral contains no ['-']. *)
Lemma squareKey_inj r1 c1 r2 c2 : squareKey r1 c1 = squareKey r2 c2 -> r1 = r2 /\ c1 = c2.
Proof.
  unfold squareKey. intros H.
  pose proof (read_digits_pretty_nat r1 ("-" +:+ pretty c1) eq_refl) as H1.
  pose proof (read_digits_pretty_nat r2 ("-" +:+ pretty c2) eq_refl) as H2.
  rewrite H in H1. rewrite H1 in H2. injection H2 as Hr Hc.
  split; [lia|]. rewrite !string_app_nil_l in Hc. by apply (inj pretty).
Qed.

Lemma eqb_mod2_even n : Nat.eqb (n mod 2) 0 = Nat.even n.
Proof.
  destruct (Nat.even n) eqn:E.
  - apply Nat.even_spec in E as [k ->]. by rewrite Nat.mul_comm, Nat.Div0.mod_mul.
  - assert (Nat.odd n = true) as O by (unfold Nat.odd; by rewrite E).
    apply Nat.odd_spec in O as [k ->]. by rewrite Nat.add_comm, Nat.mul_comm, Nat.Div0.mod_add.
Qed.

(** [(row + col) % 2 === 0] is the equality of the parities of [row]
    and [col]. *)
Lemma squareClass_parity row col :
  squareClass row col
  = if bool_decide (Nat.even row = Nat.even col) then "light-square" else "dark-square".
Proof.
  unfold squareClass, isLight. rewrite eqb_mod2_even, Nat.even_add.
  by destruct (Nat.even row), (Nat.even col).
Qed.

(** ** Properties of [renderBoard] *)

Ltac render_traversal :=
  unfold renderBoard; rewrite renderRows_mapM; cbn [app]; rewrite js_bind_ret_r;
  change (flat_map (fun r => map (fun c => (r, c)) (seq 0 8)) (seq 0 8)) with board_coords.

(** A successful render has one square per coordinate. *)
Lemma renderBoard_length p sqs : renderBoard p = JsOk sqs -> length sqs = 64.
Proof. render_traversal. rewrite js_mapM_ok. intros H. by rewrite <- (Forall2_length _ _ _ H). Qed.

(** (C9) The nested loops push exactly what the reference traversal
    computes: [renderSquare] over the 64 coordinates in row-major order,
    stopping at the first thrown error. *)
Theorem renderBoard_spec (p : props) :
  renderBoard p = mapM (fun rc => renderSquare p rc.1 rc.2) board_coords.
Proof. by render_traversal. Qed.

(** (C10) A successful render yields 64 squares; square [i] is the one
    [renderSquare(i / 8, i % 8)] returns. *)
Theorem renderBoard_squares (p : props) (sqs : list square) :
  renderBoard p = JsOk sqs ->
  length sqs = 64 /\
  forall i, i < 64 -> exists sq, sqs !! i = Some sq /\ renderSquare p (i / 8) (i mod 8) = JsOk sq.
Proof.
  intros Hr. split; [by apply (renderBoard_length p)|]. revert Hr.
  render_traversal. rewrite js_mapM_ok. intros H i Hi.
  destruct (Forall2_lookup_l _ _ _ i (i / 8, i mod 8) H) as (sq & Hsq & Hr);
    [by apply board_coords_lookup|]. eauto.
Qed.

(** (C11) Rendering succeeds exactly when each of [board[0]] .. [board[7]]
    is readable; a missing row throws the [TypeError] of [board[row][col]]. *)
Theorem renderBoard_ok_iff (p : props) :
  (exists sqs, renderBoard p = JsOk sqs) <-> (forall r, r < 8 -> row_readable p r = true).
Proof.
  render_traversal. rewrite js_mapM_ok_all. split.
  - intros H r Hr. apply (renderSquare_ok_iff p r 0), (H (r, 0)), board_coords_In. lia.
  - intros H [r c] Hrc. apply board_coords_In in Hrc as [Hr _].
    apply renderSquare_ok_iff, H, Hr.
Qed.

(** (C18) The React keys of the 64 squares are pairwise distinct. *)
Theorem renderBoard_keys_unique (p : props) (sqs : list square) :
  renderBoard p = JsOk sqs -> NoDup (sq_key <$> sqs).
Proof.
  render_traversal. rewrite js_mapM_ok. intros H.
  assert (sq_key <$> sqs = (fun rc => squareKey rc.1 rc.2) <$> board_coords) as ->.
  { clear -H. induction H as [|[r c] sq l k Hsq _ IH]; [done|].
    rewrite !fmap_cons, IH. f_equal. by apply renderSquare_key in Hsq as [-> _]. }
  apply NoDup_fmap_2; [|vm_compute; apply (bool_decide_unpack _); vm_compute; reflexivity].
  intros [r1 c1] [r2 c2] Hk. simpl in Hk. by destruct (squareKey_inj _ _ _ _ Hk) as [-> ->].
Qed.

(** (C24) The squares are coloured like a chessboard: square [i], at
    [[i / 8, i % 8]], is light exactly when its row and its column have
    the same parity, so neighbours along a row or a column differ and 32
    of the 64 squares are light. *)
Theorem renderBoard_checkerboard (p : props) (sqs : list square) :
  renderBoard p = JsOk sqs ->
  (forall i, i < 64 -> exists sq, sqs !! i = Some sq /\
     sq_className sq = "chess-square " +:+
       (if bool_decide (Nat.even (i / 8) = Nat.even (i mod 8)) then "light-square" else "dark-square")) /\
  length (filter (fun sq => sq_className sq = "chess-square light-square") sqs) = 32.
Proof.
  intros Hr. pose proof Hr as Hr'. revert Hr'. render_traversal. rewrite js_mapM_ok. intros H. split.
  - intros i Hi.
    destruct (Forall2_lookup_l _ _ _ i (i / 8, i mod 8) H) as (sq & Hsq & Hs);
      [by apply board_coords_lookup|].
    exists sq. split; [done|]. apply renderSquare_key in Hs as [_ ->]. by rewrite squareClass_parity.
  - assert (sq_className <$> sqs
            = (fun rc => "chess-square " +:+ squareClass rc.1 rc.2) <$> board_coords) as E.
    { clear -H. induction H as [|[r c] sq l k Hsq _ IH]; [done|].
      rewrite !fmap_cons, IH. f_equal. by apply renderSquare_key in Hsq as [_ ->]. }
    transitivity (length (filter (fun s => s = "chess-square light-square") (sq_className <$> sqs))).
    { symmetry. apply length_filter_fmap. }
    rewrite E. reflexivity.
Qed.

(** (C12) The click handler of a rendered square calls
    [onPieceClick(piece, [row, col])] when the cell is truthy and then
    shows a [ChessPiece], and [onSquareClick([row, col])] otherwise; it
    throws a [TypeError] when the prop it calls is not a function. *)
Theorem renderSquare_click (p : props) (r c : nat) (cells piece : jsval) (sq : square) :
  js_index (board p) r = JsOk cells -> js_index cells c = JsOk piece ->
  renderSquare p r c = JsOk sq ->
  (js_truthy piece = true ->
     sq_onClick sq = js_call (onPieceClick p) "onPieceClick" [piece; position r c] /\
     exists n col, sq_child sq = PieceChild (ChessPiece.mkProps n col (position r c))) /\
  (js_truthy piece = false ->
     sq_onClick sq = js_call (onSquareClick p) "onSquareClick" [position r c] /\
     (sq_child sq = NoChild \/ sq_child sq = TextChild "0")).
Proof.
  unfold renderSquare, handleClick, renderChild. intros Hrow Hcell Hsq.
  rewrite Hrow, js_bind_ok in Hsq; cbv beta in Hsq.
  rewrite Hcell, js_bind_ok in Hsq; cbv beta in Hsq.
  split; intros Ht; rewrite Ht in Hsq.
  - destruct (js_truthy_defined piece Ht).
    destruct (js_get_ok piece "name") as [n Hn]; [done..|].
    destruct (js_get_ok piece "color") as [col Hc]; [done..|].
    rewrite Hn, Hc in Hsq. simpl in Hsq. injection Hsq as <-. simpl. eauto.
  - simpl in Hsq. injection Hsq as <-. simpl. split; [done|].
    destruct piece as [| | |[]| | | |]; auto.
Qed.

(** ** A concrete board: the standard starting position *)

Definition piece_js (name color : string) : jsval :=
  JObj [("name", JStr name); ("color", JStr color)].

Definition back_rank : list string :=
  ["Rook"; "Knight"; "Bishop"; "Queen"; "King"; "Bishop"; "Knight"; "Rook"].

Definition start_board_js : jsval :=
  JArr [JArr (map (fun n => piece_js n "black") back_rank);
        JArr (repeat (piece_js "Pawn" "black") 8);
        JArr (repeat JNull 8); JArr (repeat JNull 8);
        JArr (repeat JNull 8); JArr (repeat JNull 8);
        JArr (repeat (piece_js "Pawn" "white") 8);
        JArr (map (fun n => piece_js n "white") back_rank)].

Definition demo_props : props :=
  mkProps start_board_js (JFun "selectPiece") (JFun "selectSquare").

(** ** Witnesses *)

Lemma renderBoard_squares_witness :
  exists sqs, renderBoard demo_props = JsOk sqs /\ length sqs = 64.
Proof.
  destruct (renderBoard demo_props) as [sqs|e] eqn:E; [|vm_compute in E; discriminate].
  exists sqs. split; [reflexivity|]. apply (renderBoard_squares demo_props sqs E).
Defined.

Lemma renderBoard_keys_unique_witness :
  exists sqs, renderBoard demo_props = JsOk sqs /\ NoDup (sq_key <$> sqs).
Proof.
  destruct (renderBoard demo_props) as [sqs|e] eqn:E; [|vm_compute in E; discriminate].
  exists sqs. split; [reflexivity|]. apply (renderBoard_keys_unique demo_props sqs E).
Defined.

Lemma renderBoard_checkerboard_witness :
  exists sqs, renderBoard demo_props = JsOk sqs /\
  (forall i, i < 64 -> exists sq, sqs !! i = Some sq /\
     sq_className sq = "chess-square " +:+
       (if bool_decide (Nat.even (i / 8) = Nat.even (i mod 8)) then "light-square" else "dark-square")) /\
  length (filter (fun sq => sq_className sq = "chess-square light-square") sqs) = 32.
Proof.
  destruct (renderBoard demo_props) as [sqs|e] eqn:E; [|vm_compute in E; discriminate].
  exists sqs. split; [reflexivity|]. apply (renderBoard_checkerboard demo_props sqs E).
Defined.

(** The white king's square, [board[7][4]]: a click selects the piece. *)
Lemma renderSquare_click_witness :
  exists sq, renderSquare demo_props 7 4 = JsOk sq /\
    sq_onClick sq = js_call (JFun "selectPiece") "onPieceClick"
                      [piece_js "King" "white"; position 7 4].
Proof.
  destruct (renderSquare demo_props 7 4) as [sq|e] eqn:E; [|vm_compute in E; discriminate].
  exists sq. split; [reflexivity|].
  apply (renderSquare_click demo_props 7 4 (JArr (map (fun n => piece_js n "white") back_rank))
           (piece_js "King" "white") sq); [vm_compute; reflexivity..| exact E | reflexivity].
Defined.

End ChessBoard.
