(* ===== verification/App.v ===== *)
(** * App: src/ChessGameWithLogin/src/App.js

    [App.js] defines three asynchronous handlers, [handleLogin],
    [handleRegistration] and [handleMove], each of which posts to the server
    with [axios.post], stores [response.data] with a React state setter, and
    logs a [console.error] when anything inside its [try] throws; the JSX
    renders the [ChessBoard] once a user is logged in and the two forms
    before.

    As written, the file does not load: line 33 puts [return (] at the
    top level of the module (the [const App = () => {] that should enclose
    the state, the handlers and the JSX is missing) and line 50 exports an
    [App] that is never declared, so the module is a [SyntaxError] and no
    handler ever runs.  The development models the file as its evident
    repair: the three handlers and the JSX of lines 6-47 as written, inside
    a component whose scope binds the identifiers the file uses but never
    declares, [axios] (not imported) and [user], [setUser], [game],
    [setGame] (the results of two [useState] calls).  [scope] records how
    they are bound; [with_state] is the repair that imports [axios] and
    declares both state pairs, and the theorems are stated for it.

    The asynchronous handlers are split at their [await]: [step] on a user
    event runs the synchronous part (the [axios.post] call, which records a
    request and leaves it pending); [step] on [ESettle] resumes the handler
    of a pending request with the server's outcome.  Any interleaving of
    user actions and server responses is a list of events, and [run]
    folds [step] over it. *)

From S2P Require Import Prelude JsValue ChessPiece ChessBoard.

Module App.

(** What a [catch] clause receives. *)
Inductive thrown :=
| ThrownError (e : js_error)
| ThrownValue (v : jsval).

(** [console.error(label, error)] *)
Record log_entry := mkLog { log_label : string; log_error : thrown }.

(** [axios.post(url, body)] *)
Record request := mkRequest { req_url : string; req_body : jsval }.

(** Which handler awaits a request. *)
Inductive handler := HLogin | HRegister | HMove.

(** How the server settles a request: the promise resolves with a response
    object or rejects with a reason. *)
Inductive outcome :=
| Resolved (response : jsval)
| Rejected (reason : jsval).

(** The identifiers the handlers and the JSX use but App.js never
    binds: [axios], and the [useState] pairs with their initial values.
    A scope fixes how a repaired module binds them; an identifier left
    unbound raises the [ReferenceError] JavaScript raises for it. *)
Record scope := mkScope {
  axios_imported : bool;
  state_hooks : option (jsval * jsval)
}.

(** The repair the file needs: [axios] imported, and
    [const [user, setUser] = useState(user0)] and
    [const [game, setGame] = useState(game0)] in scope of the handlers. *)
Definition with_state (user0 game0 : jsval) : scope := mkScope true (Some (user0, game0)).

Record state := mkState {
  user : jsval;
  game : jsval;
  requests : list request;
  pending : list (nat * handler);
  console : list log_entry
}.

Definition init (sc : scope) : state :=
  match state_hooks sc with
  | Some (u, g) => mkState u g [] [] []
  | None => mkState JUndefined JUndefined [] [] []
  end.

Definition log (label : string) (t : thrown) (st : state) : state :=
  mkState (user st) (game st) (requests st) (pending st) (console st ++ [mkLog label t]).

Definition label_of (h : handler) : string :=
  match h with
  | HLogin => "Login failed:"
  | HRegister => "Registration failed:"
  | HMove => "Invalid move:"
  end.

Definition setter_of (h : handler) : string :=
  match h with HLogin | HRegister => "setUser" | HMove => "setGame" end.

(** [const response = await axios.post(url, body)]: the synchronous part.
    Without the import, [axios] is an unbound identifier and the
    [ReferenceError] goes straight to the [catch]. *)
Definition post (sc : scope) (h : handler) (url : string) (body : jsval) (st : state) : state :=
  if axios_imported sc then
    mkState (user st) (game st) (requests st ++ [mkRequest url body])
            (pending st ++ [(length (requests st), h)]) (console st)
  else log (label_of h) (ThrownError (ReferenceError "axios")) st.

(** [setUser(response.data)] / [setGame(response.data)]. *)
Definition set_state (sc : scope) (h : handler) (data : jsval) (st : state) : state :=
  match state_hooks sc with
  | None => log (label_of h) (ThrownError (ReferenceError (setter_of h))) st
  | Some _ =>
      match h with
      | HLogin | HRegister =>
          mkState data (game st) (requests st) (pending st) (console st)
      | HMove =>
          mkState (user st) data (requests st) (pending st) (console st)
      end
  end.

(** The rest of a handler once its request settles. *)
Definition resume (sc : scope) (h : handler) (o : outcome) (st : state) : state :=
  match o with
  | Rejected reason => log (label_of h) (ThrownValue reason) st
  | Resolved response =>
      match js_get response "data" with
      | JsThrow e => log (label_of h) (ThrownError e) st
      | JsOk data => set_state sc h data st
      end
  end.

(** App.js:6-13 *)
Definition handleLogin (sc : scope) (username password : jsval) (st : state) : state :=
  post sc HLogin "/api/login" (JObj [("username", username); ("password", password)]) st.

(** App.js:15-22 *)
Definition handleRegistration (sc : scope) (username password : jsval) (st : state) : state :=
  post sc HRegister "/api/register" (JObj [("username", username); ("password", password)]) st.

(** App.js:24-31 *)
Definition handleMove (sc : scope) (from to : jsval) (st : state) : state :=
  post sc HMove "/api/move" (JObj [("from", from); ("to", to)]) st.

Inductive event :=
| ELogin (username password : jsval)
| ERegister (username password : jsval)
| EMove (from to : jsval)
| ESettle (id : nat) (o : outcome).

Fixpoint take_pending (id : nat) (ps : list (nat * handler)) : option (handler * list (nat * handler)) :=
  match ps with
  | [] => None
  | (i, h) :: ps' =>
      if decide (i = id) then Some (h, ps')
      else match take_pending id ps' with
           | Some (h', rest) => Some (h', (i, h) :: rest)
           | None => None
           end
  end.

(** A promise settles once: settling a request that is not pending does
    nothing. *)
Definition settle (sc : scope) (id : nat) (o : outcome) (st : state) : state :=
  match take_pending id (pending st) with
  | None => st
  | Some (h, rest) =>
      resume sc h o (mkState (user st) (game st) (requests st) rest (console st))
  end.

Definition step (sc : scope) (st : state) (ev : event) : state :=
  match ev with
  | ELogin u p => handleLogin sc u p st
  | ERegister u p => handleRegistration sc u p st
  | EMove f t => handleMove sc f t st
  | ESettle id o => settle sc id o st
  end.

Definition run (sc : scope) (st : state) (evs : list event) : state :=
  fold_left (step sc) evs st.

(** ** Rendering (App.js:33-47) *)

Inductive view :=
| FormsView
| BoardView (board_props : jsval).

(** [user ? <ChessBoard board={game.board} onMove={handleMove} /> : forms]:
    reading the unbound [user] throws; reading [game.board] throws while
    [game] is [undefined] or [null]. *)
Definition render (sc : scope) (st : state) : js_result view :=
  match state_hooks sc with
  | None => JsThrow (ReferenceError "user")
  | Some _ =>
      if js_truthy (user st) then
        b ← js_get (game st) "board";
        mret (BoardView (JObj [("board", b); ("onMove", JFun "handleMove")]))
      else mret FormsView
  end.

(** ** Reference definitions *)

Definition url_of (h : handler) : string :=
  match h with
  | HLogin => "/api/login" | HRegister => "/api/register" | HMove => "/api/move"
  end.

(** The pending requests are distinct and each names an issued request to
    its handler's URL. *)
Definition wf (st : state) : Prop :=
  NoDup (fst <$> pending st) /\
  forall i h, (i, h) ∈ pending st -> exists body, requests st !! i = Some (mkRequest (url_of h) body).

Definition wfb (st : state) : bool :=
  bool_decide (NoDup (fst <$> pending st)) &&
  forallb (fun '(i, h) => match requests st !! i with
                          | Some r => bool_decide (req_url r = url_of h)
                          | None => false
                          end) (pending st).

Definition is_move (ev : event) : bool := match ev with EMove _ _ => true | _ => false end.

(** ** Lemmas *)

Lemma take_pending_Some id ps h rest :
  take_pending id ps = Some (h, rest) ->
  exists l1 l2, ps = l1 ++ (id, h) :: l2 /\ rest = l1 ++ l2 /\ id ∉ fst <$> l1.
Proof.
  revert rest. induction ps as [|[i h'] ps IH]; intros rest; simpl; [discriminate|].
  case_decide as Hi.
  - intros [= <- <-]. subst. exists [], ps. split; [done|]. split; [done|]. set_solver.
  - destruct (take_pending id ps) as [[h'' rest']|] eqn:E; [|discriminate].
    intros [= -> <-]. destruct (IH rest' eq_refl) as (l1 & l2 & -> & -> & Hn).
    exists ((i, h') :: l1), l2. split; [done|]. split; [done|]. set_solver.
Qed.

Lemma take_pending_None id ps : id ∉ fst <$> ps -> take_pending id ps = None.
Proof.
  induction ps as [|[i h] ps IH]; simpl; [done|]. intros Hn.
  rewrite decide_False by set_solver. rewrite IH by set_solver. done.
Qed.

Lemma log_fields label t st :
  user (log label t st) = user st /\ game (log label t st) = game st /\
  requests (log label t st) = requests st /\ pending (log label t st) = pending st.
Proof. done. Qed.

Lemma resume_fields sc h o st :
  requests (resume sc h o st) = requests st /\ pending (resume sc h o st) = pending st.
Proof.
  unfold resume, set_state. destruct o as [resp|]; [|done].
  destruct (js_get resp "data"); [|done]. destruct (state_hooks sc); [|done]. by destruct h.
Qed.

Lemma post_wf sc h body st : wf st -> wf (post sc h (url_of h) body st).
Proof.
  intros [Hnd Hreq]. unfold post. destruct (axios_imported sc); [|done].
  split; simpl.
  - rewrite fmap_app. apply NoDup_app. split; [done|]. split; [|apply NoDup_singleton].
    intros i Hi Hi'. apply list_elem_of_singleton in Hi'. subst i.
    apply list_elem_of_fmap in Hi as ([i h'] & Heq & Hin). simpl in Heq. subst i.
    destruct (Hreq _ _ Hin) as [b Hb]. apply lookup_lt_Some in Hb. lia.
  - intros i h' Hin. apply elem_of_app in Hin as [Hin|Hin].
    + destruct (Hreq _ _ Hin) as [b Hb]. exists b. by apply lookup_app_l_Some.
    + apply list_elem_of_singleton in Hin. injection Hin as -> ->. exists body.
      rewrite lookup_app_r by lia. by rewrite Nat.sub_diag.
Qed.

Lemma settle_wf sc id o st : wf st -> wf (settle sc id o st).
Proof.
  intros [Hnd Hreq]. unfold settle.
  destruct (take_pending id (pending st)) as [[h rest]|] eqn:E; [|done].
  destruct (take_pending_Some _ _ _ _ E) as (l1 & l2 & Hps & -> & _).
  set (st1 := mkState (user st) (game st) (requests st) (l1 ++ l2) (console st)).
  destruct (resume_fields sc h o st1) as [Hr Hp]. split; rewrite ?Hr, ?Hp; simpl.
  - rewrite Hps, !fmap_app in Hnd. simpl in Hnd. rewrite fmap_app.
    apply NoDup_app in Hnd as (H1 & H2 & H3). apply NoDup_cons in H3 as [_ H3].
    apply NoDup_app. split; [done|]. split; [|done]. set_solver.
  - intros i h' Hin. apply Hreq. rewrite Hps. set_solver.
Qed.

Lemma step_wf sc st ev : wf st -> wf (step sc st ev).
Proof. destruct ev; simpl; [apply post_wf..|apply settle_wf]. Qed.

Lemma settle_no_move sc id o st :
  (forall i h, (i, h) ∈ pending st -> h <> HMove) ->
  game (settle sc id o st) = game st /\
  (forall i h, (i, h) ∈ pending (settle sc id o st) -> h <> HMove).
Proof.
  intros Hp. unfold settle.
  destruct (take_pending id (pending st)) as [[h rest]|] eqn:E; [|done].
  destruct (take_pending_Some _ _ _ _ E) as (l1 & l2 & Hps & -> & _).
  assert (h <> HMove) as Hh by (apply (Hp id); rewrite Hps; set_solver).
  set (st1 := mkState (user st) (game st) (requests st) (l1 ++ l2) (console st)).
  destruct (resume_fields sc h o st1) as [_ ->]. split.
  - unfold resume, set_state. destruct o as [resp|]; [|done].
    destruct (js_get resp "data"); [|done]. destruct (state_hooks sc); [|done].
    by destruct h.
  - intros i h' Hin. apply (Hp i). rewrite Hps. simpl in Hin. set_solver.
Qed.

Lemma wfb_spec st : wfb st = true <-> wf st.
Proof.
  unfold wfb, wf. rewrite andb_true_iff, bool_decide_eq_true, forallb_forall.
  apply and_iff_compat_l. split.
  - intros H i h Hin. apply list_elem_of_In in Hin. specialize (H _ Hin). simpl in H.
    destruct (requests st !! i) as [[url body]|]; [|discriminate].
    apply bool_decide_eq_true in H. simpl in H. subst. eauto.
  - intros H [i h] Hin. apply list_elem_of_In in Hin.
    destruct (H i h Hin) as [body ->]. by apply bool_decide_eq_true.
Qed.

Lemma run_no_move sc st evs :
  (forall i h, (i, h) ∈ pending st -> h <> HMove) -> forallb (fun ev => negb (is_move ev)) evs = true ->
  game (run sc st evs) = game st.
Proof.
  revert st. induction evs as [|ev evs IH]; intros st Hp Hm; [done|].
  simpl in Hm. apply andb_prop in Hm as [Hev Hm].
  assert (game (step sc st ev) = game st /\
          forall i h, (i, h) ∈ pending (step sc st ev) -> h <> HMove) as [Hg Hp'].
  { destruct ev; try discriminate; simpl.
    - unfold handleLogin, post. destruct (axios_imported sc); simpl; [|done].
      split; [done|]. intros i h Hin. apply elem_of_app in Hin as [Hin|Hin]; [eauto|set_solver].
    - unfold handleRegistration, post. destruct (axios_imported sc); simpl; [|done].
      split; [done|]. intros i h Hin. apply elem_of_app in Hin as [Hin|Hin]; [eauto|set_solver].
    - by apply settle_no_move. }
  change (run sc st (ev :: evs)) with (run sc (step sc st ev) evs).
  by rewrite (IH _ Hp' Hm).
Qed.

Lemma run_cons_cons sc st e1 e2 evs : run sc st (e1 :: e2 :: evs) = run sc (run sc st [e1; e2]) evs.
Proof. reflexivity. Qed.

(** Two moves posted by a logged-in client with nothing in flight. *)
Lemma run_two_moves u0 g0 st f1 t1 f2 t2 :
  pending st = [] ->
  run (with_state u0 g0) st [EMove f1 t1; EMove f2 t2]
  = mkState (user st) (game st)
      (requests st ++ [mkRequest "/api/move" (JObj [("from", f1); ("to", t1)]);
                       mkRequest "/api/move" (JObj [("from", f2); ("to", t2)])])
      [(length (requests st), HMove); (S (length (requests st)), HMove)] (console st).
Proof.
  intros Hp. unfold run. cbn [fold_left step handleMove post axios_imported with_state pending requests
    user game console].
  rewrite Hp, <- app_assoc, length_app. cbn [app length]. by rewrite Nat.add_1_r.
Qed.

Lemma take_pending_first n h h' : take_pending n [(n, h); (S n, h')] = Some (h, [(S n, h')]).
Proof. simpl. by rewrite decide_True. Qed.

Lemma take_pending_second n h h' : take_pending (S n) [(n, h); (S n, h')] = Some (h', [(n, h)]).
Proof. simpl. rewrite decide_False by lia. by rewrite decide_True. Qed.

Lemma take_pending_first_alone n h : take_pending n [(n, h)] = Some (h, []).
Proof. simpl. by rewrite decide_True. Qed.

Lemma take_pending_second_alone n h : take_pending (S n) [(S n, h)] = Some (h, []).
Proof. simpl. by rewrite decide_True. Qed.

(** ** Properties *)

(** (C14) Whatever the interleaving of user actions and server responses,
    the pending requests are distinct and each is an issued request to its
    handler's endpoint. *)
Theorem run_wf (sc : scope) (evs : list event) : wfb (run sc (init sc) evs) = true.
Proof.
  apply wfb_spec. unfold run.
  assert (forall st, wf st -> wf (fold_left (step sc) evs st)) as H.
  { induction evs as [|ev evs IH]; simpl; [done|]. intros st Hst. by apply IH, step_wf. }
  apply H. unfold init. destruct (state_hooks sc) as [[u g]|];
    (split; [simpl; apply NoDup_nil_2 | intros i h Hin; simpl in Hin; set_solver]).
Qed.

(** (C19) When a pending request resolves with a response whose [data] can
    be read, the handler stores it: in [user] for a login or registration,
    in [game] for a move; nothing is logged. *)
Theorem settle_resolved (sc : scope) (id : nat) (resp d : jsval) (st : state) (h : handler)
    (rest : list (nat * handler)) :
  state_hooks sc <> None -> take_pending id (pending st) = Some (h, rest) ->
  js_get resp "data" = JsOk d ->
  let st' := settle sc id (Resolved resp) st in
  pending st' = rest /\ requests st' = requests st /\ console st' = console st /\
  (if h is HMove then game st' = d /\ user st' = user st
   else user st' = d /\ game st' = game st).
Proof.
  intros Hhooks E Hd. unfold settle. rewrite E. simpl. rewrite Hd.
  unfold set_state. destruct (state_hooks sc); [|done]. by destruct h.
Qed.

(** (C20) A rejected request leaves [user] and [game] alone and logs one
    [console.error] with the handler's label and the rejection reason. *)
Theorem settle_rejected (sc : scope) (id : nat) (reason : jsval) (st : state) (h : handler)
    (rest : list (nat * handler)) :
  take_pending id (pending st) = Some (h, rest) ->
  settle sc id (Rejected reason) st
  = mkState (user st) (game st) (requests st) rest
            (console st ++ [mkLog (label_of h) (ThrownValue reason)]).
Proof. intros E. unfold settle. by rewrite E. Qed.

(** (C15) Responses are applied in the order they arrive, not in the
    order the moves were made: with two moves in flight, [game] holds the
    data of whichever answer arrives last, so when the answer to the
    earlier move arrives last the board of the later move is overwritten
    by the older one. *)
Theorem stale_move_response_wins (u0 g0 : jsval) (st : state) (f1 t1 f2 t2 r1 r2 d1 d2 : jsval) :
  pending st = [] -> js_get r1 "data" = JsOk d1 -> js_get r2 "data" = JsOk d2 ->
  game (run (with_state u0 g0) st [EMove f1 t1; EMove f2 t2;
          ESettle (length (requests st)) (Resolved r1); ESettle (S (length (requests st))) (Resolved r2)]) = d2 /\
  game (run (with_state u0 g0) st [EMove f1 t1; EMove f2 t2;
          ESettle (S (length (requests st))) (Resolved r2); ESettle (length (requests st)) (Resolved r1)]) = d1.
Proof.
  intros Hp H1 H2.
  split; rewrite run_cons_cons, (run_two_moves _ _ _ _ _ _ _ Hp); unfold run;
    cbn [fold_left step]; unfold settle; cbn [pending].
  - rewrite take_pending_first. unfold resume. rewrite H1.
    cbn [set_state state_hooks with_state pending]. rewrite take_pending_second_alone. by rewrite H2.
  - rewrite take_pending_second. unfold resume. rewrite H2.
    cbn [set_state state_hooks with_state pending]. rewrite take_pending_first_alone. by rewrite H1.
Qed.

(** (C1) [App] passes [onMove] but [ChessBoard] reads [onPieceClick] and
    [onSquareClick]: both are [undefined], so clicking any rendered square
    throws a [TypeError] and never reaches [handleMove]. *)
Theorem board_clicks_throw (sc : scope) (st : state) (o : jsval) :
  render sc st = JsOk (BoardView o) ->
  exists bp, ChessBoard.props_of o = JsOk bp /\
    ChessBoard.onPieceClick bp = JUndefined /\ ChessBoard.onSquareClick bp = JUndefined /\
    forall r c sq, ChessBoard.renderSquare bp r c = JsOk sq ->
      exists msg, ChessBoard.sq_onClick sq = JsThrow (TypeError msg).
Proof.
  unfold render. destruct (state_hooks sc); [|discriminate].
  destruct (js_truthy (user st)); [|discriminate].
  destruct (js_get (game st) "board") as [b|]; simpl; [|discriminate].
  intros [= <-]. eexists. split; [reflexivity|]. split; [done|]. split; [done|].
  intros r c sq Hsq. destruct (ChessBoard.renderSquare_onClick _ _ _ _ Hsq) as [piece ->].
  unfold ChessBoard.handleClick. simpl. destruct (js_truthy piece); eauto.
Qed.

(** (C16) With [game] initially [undefined] or [null], only a settled move
    could make the board renderable; without a move, a logged-in user gets
    a [TypeError] from [game.board] instead of a board. *)
Theorem no_board_without_moves (u0 g0 : jsval) (evs : list event) :
  (g0 = JUndefined \/ g0 = JNull) ->
  forallb (fun ev => negb (is_move ev)) evs = true ->
  js_truthy (user (run (with_state u0 g0) (init (with_state u0 g0)) evs)) = true ->
  exists e, render (with_state u0 g0) (run (with_state u0 g0) (init (with_state u0 g0)) evs)
            = JsThrow (TypeError e).
Proof.
  intros Hg Hm Hu. unfold render. simpl. rewrite Hu.
  rewrite (run_no_move (with_state u0 g0) (init (with_state u0 g0)) evs); [|simpl; set_solver|done].
  simpl. destruct Hg as [-> | ->]; simpl; eauto.
Qed.

(** (C25) A move is posted to [/api/move] with the body [{ from, to }] and
    nothing else: no promotion piece and no session identifier. *)
Theorem handleMove_request (sc : scope) (from to : jsval) (st : state) :
  axios_imported sc = true ->
  requests (handleMove sc from to st)
  = requests st ++ [mkRequest "/api/move" (JObj [("from", from); ("to", to)])] /\
  pending (handleMove sc from to st) = pending st ++ [(length (requests st), HMove)].
Proof. intros H. unfold handleMove, post. by rewrite H. Qed.

(** ** Witnesses *)

Definition alice_login : list event :=
  [ELogin (JStr "alice") (JStr "secret");
   ESettle 0 (Resolved (JObj [("data", JObj [("name", JStr "alice")])]))].

Lemma stale_move_response_wins_witness :
  let sc := with_state (JStr "alice") JNull in
  game (run sc (init sc) [EMove (JStr "e2") (JStr "e4"); EMove (JStr "d2") (JStr "d4");
          ESettle 0 (Resolved (JObj [("data", JStr "after e2-e4")]));
          ESettle 1 (Resolved (JObj [("data", JStr "after d2-d4")]))]) = JStr "after d2-d4" /\
  game (run sc (init sc) [EMove (JStr "e2") (JStr "e4"); EMove (JStr "d2") (JStr "d4");
          ESettle 1 (Resolved (JObj [("data", JStr "after d2-d4")]));
          ESettle 0 (Resolved (JObj [("data", JStr "after e2-e4")]))]) = JStr "after e2-e4".
Proof.
  intros sc.
  exact (stale_move_response_wins (JStr "alice") JNull (init sc) (JStr "e2") (JStr "e4") (JStr "d2") (JStr "d4")
           (JObj [("data", JStr "after e2-e4")]) (JObj [("data", JStr "after d2-d4")])
           (JStr "after e2-e4") (JStr "after d2-d4") eq_refl eq_refl eq_refl).
Defined.

Lemma settle_resolved_witness :
  let sc := with_state JNull JNull in
  let st := run sc (init sc) [ELogin (JStr "alice") (JStr "secret")] in
  let st' := settle sc 0 (Resolved (JObj [("data", JStr "alice")])) st in
  pending st' = [] /\ requests st' = requests st /\ console st' = console st /\
  user st' = JStr "alice" /\ game st' = game st.
Proof.
  intros sc st st'. apply (settle_resolved sc 0 (JObj [("data", JStr "alice")]) (JStr "alice") st HLogin []);
    [simpl; congruence | vm_compute; reflexivity | reflexivity].
Defined.

Lemma settle_rejected_witness :
  let sc := with_state JNull JNull in
  let st := run sc (init sc) [EMove (JStr "e2") (JStr "e5")] in
  settle sc 0 (Rejected (JStr "Illegal move")) st
  = mkState JNull JNull [mkRequest "/api/move" (JObj [("from", JStr "e2"); ("to", JStr "e5")])] []
            [mkLog "Invalid move:" (ThrownValue (JStr "Illegal move"))].
Proof.
  intros sc st. rewrite (settle_rejected sc 0 (JStr "Illegal move") st HMove []);
    [reflexivity | vm_compute; reflexivity].
Defined.

Lemma board_clicks_throw_witness :
  let sc := with_state (JStr "alice") (JObj [("board", ChessBoard.start_board_js)]) in
  exists bp, ChessBoard.props_of (JObj [("board", ChessBoard.start_board_js); ("onMove", JFun "handleMove")])
             = JsOk bp /\
    ChessBoard.onPieceClick bp = JUndefined /\ ChessBoard.onSquareClick bp = JUndefined /\
    forall r c sq, ChessBoard.renderSquare bp r c = JsOk sq ->
      exists msg, ChessBoard.sq_onClick sq = JsThrow (TypeError msg).
Proof. intros sc. apply (board_clicks_throw sc (init sc)). vm_compute. reflexivity. Defined.

Lemma no_board_without_moves_witness :
  exists e, render (with_state JNull JNull) (run (with_state JNull JNull) (init (with_state JNull JNull)) alice_login)
            = JsThrow (TypeError e).
Proof.
  apply no_board_without_moves; [right; reflexivity | vm_compute; reflexivity | vm_compute; reflexivity].
Defined.

Lemma handleMove_request_witness :
  let sc := with_state (JStr "alice") JNull in
  requests (handleMove sc (JStr "e2") (JStr "e4") (init sc))
  = [] ++ [mkRequest "/api/move" (JObj [("from", JStr "e2"); ("to", JStr "e4")])] /\
  pending (handleMove sc (JStr "e2") (JStr "e4") (init sc)) = [] ++ [(0, HMove)].
Proof. intros sc. apply (handleMove_request sc _ _ (init sc)). reflexivity. Defined.

End App.
