(* ===== verification/EngineBoard.v ===== *)
(** * EngineBoard: the board model of the server engine (spec section 3, 4.1)

    The engine behind [/api/move] is not in the repository; this file and
    the [Engine*] files after it model it from the spec.  A square is a
    pair [(file, rank)] of integers, on the board when both lie in [0, 8);
    off-board squares are values too, so that the session can reject them
    explicitly.  The occupancy is a [gmap] from squares to pieces; a board
    also carries the side to move, the en-passant target, the four castling
    rights and the two move counters.

    White starts on ranks 0 and 1 and moves towards rank 7. *)

From S2P Require Import Prelude.

Module Board.

Inductive color := White | Black.
Inductive kind := Pawn | Knight | Bishop | Rook | Queen | King.

#[export] Instance color_eq_dec : EqDecision color.
Proof. solve_decision. Defined.
#[export] Instance kind_eq_dec : EqDecision kind.
Proof. solve_decision. Defined.

Definition opposite (c : color) : color := match c with White => Black | Black => White end.

Record piece := mkPiece { pkind : kind; pcolor : color; has_moved : bool }.

#[export] Instance piece_eq_dec : EqDecision piece.
Proof. solve_decision. Defined.

(** [(file, rank)] *)
Abbreviation square := (Z * Z)%type.

Definition on_board (s : square) : bool :=
  bool_decide (0 <= s.1 < 8)%Z && bool_decide (0 <= s.2 < 8)%Z.

Record castling := mkCastling { white_king_side : bool; white_queen_side : bool;
                                black_king_side : bool; black_queen_side : bool }.

#[export] Instance castling_eq_dec : EqDecision castling.
Proof. solve_decision. Defined.

Record board := mkBoard {
  squares : gmap square piece;
  side_to_move : color;
  ep_target : option square;
  rights : castling;
  halfmove_clock : nat;
  fullmove_number : nat
}.

#[export] Instance board_eq_dec : EqDecision board.
Proof. solve_decision. Defined.

(** ** Operations of spec section 4.1 *)

Definition occupant (b : board) (s : square) : option piece := squares b !! s.

Definition with_squares (b : board) (m : gmap square piece) : board :=
  mkBoard m (side_to_move b) (ep_target b) (rights b) (halfmove_clock b) (fullmove_number b).

Definition place (s : square) (p : piece) (b : board) : board :=
  with_squares b (<[s := p]> (squares b)).

Definition remove (s : square) (b : board) : board :=
  with_squares b (delete s (squares b)).

Definition moved (p : piece) : piece := mkPiece (pkind p) (pcolor p) true.

(** [move(from, to)]: relocates the occupant of [from], which becomes a
    piece that has moved; an empty [from] leaves the board unchanged. *)
Definition move_piece (from to : square) (b : board) : board :=
  match occupant b from with
  | Some p => place to (moved p) (remove from b)
  | None => b
  end.

(** The home rank of a colour and the squares of castling. *)
Definition home_rank (c : color) : Z := match c with White => 0%Z | Black => 7%Z end.

(** [applyCastle]: the king goes two files towards the rook, the rook jumps
    over it. *)
Definition applyCastle (c : color) (king_side : bool) (b : board) : board :=
  let r := home_rank c in
  if king_side then move_piece (7, r)%Z (5, r)%Z (move_piece (4, r)%Z (6, r)%Z b)
  else move_piece (0, r)%Z (3, r)%Z (move_piece (4, r)%Z (2, r)%Z b).

(** [applyEnPassantCapture]: the capturing pawn lands on the target square
    and the pawn it passes, on the capturer's starting rank, is removed. *)
Definition applyEnPassantCapture (from to : square) (b : board) : board :=
  move_piece from to (remove (to.1, from.2) b).

(** [applyPromotion(square, newKind)] *)
Definition applyPromotion (s : square) (k : kind) (b : board) : board :=
  match occupant b s with
  | Some p => place s (mkPiece k (pcolor p) true) b
  | None => b
  end.

(** ** The standard initial position *)

Definition back_rank : list kind := [Rook; Knight; Bishop; Queen; King; Bishop; Knight; Rook].

Definition rank_of (c : color) (r : Z) (ks : list kind) : list (square * piece) :=
  imap (fun f k => ((Z.of_nat f, r), mkPiece k c false)) ks.

Definition initial_squares : gmap square piece :=
  list_to_map (rank_of White 0 back_rank ++ rank_of White 1 (repeat Pawn 8) ++
               rank_of Black 6 (repeat Pawn 8) ++ rank_of Black 7 back_rank).

Definition initial_board : board :=
  mkBoard initial_squares White None (mkCastling true true true true) 0 1.

(** ** Well-formedness (spec section 3 and 4.1) *)

(** Every occupied square is on the board. *)
Definition squares_on_board (b : board) : Prop :=
  map_Forall (fun s _ => on_board s = true) (squares b).

(** The occupied squares with their pieces, and those of colour [c]. *)
Definition pieces (b : board) : list (square * piece) := map_to_list (squares b).

Definition pieces_of (b : board) (c : color) : list (square * piece) :=
  filter (fun sp => pcolor sp.2 = c) (pieces b).

(** The squares holding a king of colour [c]. *)
Definition kings (b : board) (c : color) : list square :=
  (filter (fun sp => pkind sp.2 = King) (pieces_of b c)).*1.

Definition one_king_each (b : board) : Prop :=
  length (kings b White) = 1 /\ length (kings b Black) = 1.

(** ** Lemmas *)

Lemma elem_of_pieces_of b c s p :
  (s, p) ∈ pieces_of b c <-> occupant b s = Some p /\ pcolor p = c.
Proof.
  unfold pieces_of, pieces, occupant.
  rewrite list_elem_of_filter, elem_of_map_to_list. simpl. tauto.
Qed.

Lemma opposite_involutive c : opposite (opposite c) = c.
Proof. by destruct c. Qed.

Lemma opposite_neq c : opposite c <> c.
Proof. by destruct c. Qed.

Lemma on_board_insert (m : gmap square piece) s p :
  map_Forall (fun s _ => on_board s = true) m -> on_board s = true ->
  map_Forall (fun s _ => on_board s = true) (<[s := p]> m).
Proof. intros Hm Hs. by apply map_Forall_insert_2. Qed.

Lemma on_board_delete (m : gmap square piece) s :
  map_Forall (fun s _ => on_board s = true) m ->
  map_Forall (fun s _ => on_board s = true) (delete s m).
Proof. intros Hm. by apply map_Forall_delete. Qed.

#[export] Hint Resolve on_board_insert on_board_delete opposite_neq : chess.

Lemma place_on_board s p b :
  squares_on_board b -> on_board s = true -> squares_on_board (place s p b).
Proof. unfold squares_on_board, place. simpl. eauto with chess. Qed.

Lemma remove_on_board s b : squares_on_board b -> squares_on_board (remove s b).
Proof. unfold squares_on_board, remove. simpl. eauto with chess. Qed.

Lemma move_piece_on_board from to b :
  squares_on_board b -> on_board to = true -> squares_on_board (move_piece from to b).
Proof.
  unfold move_piece. destruct (occupant b from); auto.
  intros. apply place_on_board; auto using remove_on_board.
Qed.

#[export] Hint Resolve place_on_board remove_on_board move_piece_on_board : chess.

Lemma applyCastle_on_board c ks b : squares_on_board b -> squares_on_board (applyCastle c ks b).
Proof. unfold applyCastle. intros. destruct ks, c; auto 6 with chess. Qed.

Lemma applyEnPassantCapture_on_board from to b :
  squares_on_board b -> on_board to = true -> squares_on_board (applyEnPassantCapture from to b).
Proof. unfold applyEnPassantCapture. auto with chess. Qed.

Lemma applyPromotion_on_board s k b :
  squares_on_board b -> on_board s = true -> squares_on_board (applyPromotion s k b).
Proof. unfold applyPromotion. destruct (occupant b s); auto with chess. Qed.

#[export] Hint Resolve applyCastle_on_board applyEnPassantCapture_on_board
  applyPromotion_on_board : chess.

Lemma elem_of_kings b c k :
  k ∈ kings b c <-> exists p, occupant b k = Some p /\ pkind p = King /\ pcolor p = c.
Proof.
  unfold kings. rewrite list_elem_of_fmap. split.
  - intros ([k' p] & -> & Hf). apply list_elem_of_filter in Hf as [Hk Hp].
    apply elem_of_pieces_of in Hp. simpl in *. naive_solver.
  - intros (p & Hk & Hkind & Hc). exists (k, p). split; [done|].
    apply list_elem_of_filter. split; [done|]. by apply elem_of_pieces_of.
Qed.

End Board.
