(* ===== verification/EngineMoves.v ===== *)
(** * EngineMoves: the pseudo-legal move generator (spec section 4.2)

    [pseudoLegalMoves b s] lists the moves of the piece on [s] following its
    movement rules, without regard to the safety of its own king.  Sliding
    pieces cast rays with fuel 7, the longest ray on an 8x8 board; knight
    and king steps are filtered to the board and to squares not held by a
    piece of their own colour.  Castling needs the attack test of section
    4.3, which itself uses the castling-free generator [pieceMoves]: the
    spec defines attacks through pseudo-legal moves, and castling never
    captures, so [pieceMoves] is the part of the generator the attack test
    reads. *)

From S2P Require Import Prelude EngineBoard.

Module MoveGen.
Import Board.

(** A move: from, to, promotion, and the flags the generator sets. *)
Record move := mkMove {
  mv_from : square;
  mv_to : square;
  mv_promotion : option kind;
  mv_capture : bool;
  mv_en_passant : bool;
  mv_castle : bool
}.

#[export] Instance move_eq_dec : EqDecision move.
Proof. solve_decision. Defined.

(** Membership in a legal-move list matches from, to and promotion only. *)
Definition same_move (m m' : move) : bool :=
  bool_decide (mv_from m = mv_from m' /\ mv_to m = mv_to m' /\ mv_promotion m = mv_promotion m').

Definition plain (from to : square) (cap : bool) : move := mkMove from to None cap false false.

Definition shift (s : square) (d : Z * Z) : square := (s.1 + d.1, s.2 + d.2)%Z.

(** A single step of a knight or king onto [to]. *)
Definition step_to (b : board) (c : color) (from to : square) : list move :=
  if on_board to then
    match occupant b to with
    | None => [plain from to false]
    | Some p => if decide (pcolor p = c) then [] else [plain from to true]
    end
  else [].

(** A ray from [from] in direction [d], [cur] the last square reached. *)
Fixpoint ray (b : board) (c : color) (from cur : square) (d : Z * Z) (fuel : nat) : list move :=
  match fuel with
  | O => []
  | S n =>
      let s := shift cur d in
      if on_board s then
        match occupant b s with
        | None => plain from s false :: ray b c from s d n
        | Some p => if decide (pcolor p = c) then [] else [plain from s true]
        end
      else []
  end.

Definition knight_offsets : list (Z * Z) :=
  [(1, 2); (2, 1); (2, -1); (1, -2); (-1, -2); (-2, -1); (-2, 1); (-1, 2)]%Z.
Definition rook_dirs : list (Z * Z) := [(1, 0); (-1, 0); (0, 1); (0, -1)]%Z.
Definition bishop_dirs : list (Z * Z) := [(1, 1); (1, -1); (-1, 1); (-1, -1)]%Z.
Definition king_offsets : list (Z * Z) := rook_dirs ++ bishop_dirs.

Definition slide (b : board) (c : color) (from : square) (dirs : list (Z * Z)) : list move :=
  dirs ≫= fun d => ray b c from from d 7.

Definition leap (b : board) (c : color) (from : square) (offs : list (Z * Z)) : list move :=
  offs ≫= fun d => step_to b c from (shift from d).

(** ** Pawns *)

Definition pawn_dir (c : color) : Z := match c with White => 1%Z | Black => (-1)%Z end.
Definition pawn_start_rank (c : color) : Z := match c with White => 1%Z | Black => 6%Z end.
Definition last_rank (c : color) : Z := match c with White => 7%Z | Black => 0%Z end.

Definition promotion_kinds : list kind := [Queen; Rook; Bishop; Knight].

(** A pawn move onto the last rank is one move per promotion kind. *)
Definition pawn_to (c : color) (from to : square) (cap : bool) : list move :=
  if decide (to.2 = last_rank c) then map (fun k => mkMove from to (Some k) cap false false) promotion_kinds
  else [plain from to cap].

Definition is_empty (b : board) (s : square) : bool :=
  match occupant b s with None => true | Some _ => false end.

Definition pawn_advances (b : board) (c : color) (from : square) : list move :=
  let one := (from.1, from.2 + pawn_dir c)%Z in
  let two := (from.1, from.2 + 2 * pawn_dir c)%Z in
  if on_board one && is_empty b one then
    pawn_to c from one false ++
    (if bool_decide (from.2 = pawn_start_rank c) && is_empty b two then [plain from two false] else [])
  else [].

Definition pawn_capture (b : board) (c : color) (from : square) (df : Z) : list move :=
  let s := (from.1 + df, from.2 + pawn_dir c)%Z in
  if on_board s then
    match occupant b s with
    | Some p => if decide (pcolor p = c) then [] else pawn_to c from s true
    | None => if decide (ep_target b = Some s) then [mkMove from s None true true false] else []
    end
  else [].

Definition pawn_moves (b : board) (c : color) (from : square) : list move :=
  pawn_advances b c from ++ pawn_capture b c from (-1) ++ pawn_capture b c from 1.

(** The moves of piece [p] standing on [from], castling apart. *)
Definition pieceMoves (b : board) (from : square) (p : piece) : list move :=
  let c := pcolor p in
  match pkind p with
  | Pawn => pawn_moves b c from
  | Knight => leap b c from knight_offsets
  | Bishop => slide b c from bishop_dirs
  | Rook => slide b c from rook_dirs
  | Queen => slide b c from (rook_dirs ++ bishop_dirs)
  | King => leap b c from king_offsets
  end.

(** ** Attacks (spec section 4.3) *)

(** A pawn attacks the two squares diagonally in front of it, occupied or
    not, and never the square ahead. *)
Definition pawn_attacks (c : color) (from s : square) : bool :=
  bool_decide (s.2 = from.2 + pawn_dir c /\ (s.1 = from.1 - 1 \/ s.1 = from.1 + 1))%Z.

Definition attacks (b : board) (from : square) (p : piece) (s : square) : bool :=
  match pkind p with
  | Pawn => pawn_attacks (pcolor p) from s
  | _ => existsb (fun m => bool_decide (mv_to m = s)) (pieceMoves b from p)
  end.

(** [isSquareAttacked(board, square, byColor)] *)
Definition isSquareAttacked (b : board) (s : square) (by_color : color) : bool :=
  existsb (fun sp => attacks b sp.1 sp.2 s) (pieces_of b by_color).

(** ** Castling *)

Definition has_piece (b : board) (s : square) (k : kind) (c : color) : bool :=
  match occupant b s with
  | Some p => bool_decide (pkind p = k /\ pcolor p = c /\ has_moved p = false)
  | None => false
  end.

Definition castle_right (b : board) (c : color) (king_side : bool) : bool :=
  match c, king_side with
  | White, true => white_king_side (rights b)
  | White, false => white_queen_side (rights b)
  | Black, true => black_king_side (rights b)
  | Black, false => black_queen_side (rights b)
  end.

(** The files that must be empty, and the files the king stands on, passes
    and lands on, which must not be attacked. *)
Definition castle_empty_files (king_side : bool) : list Z :=
  if king_side then [5; 6]%Z else [1; 2; 3]%Z.
Definition castle_king_files (king_side : bool) : list Z :=
  if king_side then [4; 5; 6]%Z else [4; 3; 2]%Z.

Definition can_castle (b : board) (c : color) (king_side : bool) : bool :=
  let r := home_rank c in
  castle_right b c king_side &&
  has_piece b (4, r)%Z King c &&
  has_piece b (if king_side then 7 else 0, r)%Z Rook c &&
  forallb (fun f => is_empty b (f, r)) (castle_empty_files king_side) &&
  forallb (fun f => negb (isSquareAttacked b (f, r) (opposite c))) (castle_king_files king_side).

Definition castle_move (c : color) (king_side : bool) : move :=
  let r := home_rank c in
  mkMove (4, r)%Z (if king_side then 6 else 2, r)%Z None false false true.

Definition castle_moves (b : board) (c : color) (from : square) : list move :=
  if decide (from = (4, home_rank c)%Z) then
    (if can_castle b c true then [castle_move c true] else []) ++
    (if can_castle b c false then [castle_move c false] else [])
  else [].

(** [pseudoLegalMoves(board, square)] *)
Definition pseudoLegalMoves (b : board) (from : square) : list move :=
  match occupant b from with
  | None => []
  | Some p => pieceMoves b from p ++
              (if decide (pkind p = King) then castle_moves b (pcolor p) from else [])
  end.

(** ** Shape of the generated moves *)

(** A move of colour [c] from [from] is well-aimed when it starts on
    [from], lands on the board, and not on a piece of colour [c]. *)
Definition aimed (b : board) (c : color) (from : square) (m : move) : Prop :=
  mv_from m = from /\ on_board (mv_to m) = true /\
  forall q, occupant b (mv_to m) = Some q -> pcolor q <> c.

Ltac list_mem :=
  repeat match goal with
  | H : _ ∈ [] |- _ => apply not_elem_of_nil in H; destruct H
  | H : _ ∈ [_] |- _ => apply list_elem_of_singleton in H; subst
  | H : _ ∈ _ :: _ |- _ => apply elem_of_cons in H; destruct H as [->|H]
  | H : _ ∈ _ ++ _ |- _ => apply elem_of_app in H; destruct H as [H|H]
  | H : _ ∈ map _ _ |- _ => apply list_elem_of_In, in_map_iff in H; destruct H as (? & <- & H)
  | H : _ ∈ _ ≫= _ |- _ => apply list_elem_of_bind in H; destruct H as (? & H & ?)
  end.

Lemma step_to_aimed b c from to m :
  m ∈ step_to b c from to -> aimed b c from m /\ mv_to m = to /\ mv_castle m = false.
Proof.
  unfold step_to, aimed. intros Hm.
  destruct (on_board to) eqn:Ho; [|list_mem].
  destruct (occupant b to) as [q|] eqn:Hq; [case_decide|]; list_mem;
    simpl; repeat split; auto; congruence.
Qed.

Lemma ray_aimed b c from cur d n m :
  m ∈ ray b c from cur d n -> aimed b c from m /\ mv_castle m = false.
Proof.
  revert cur. induction n as [|n IH]; intros cur Hm; simpl in Hm; [list_mem|].
  destruct (on_board (shift cur d)) eqn:Ho; [|list_mem].
  destruct (occupant b (shift cur d)) as [q|] eqn:Hq; [case_decide|]; list_mem;
    eauto; unfold aimed; simpl; repeat split; auto; congruence.
Qed.

Lemma leap_aimed b c from offs m :
  m ∈ leap b c from offs ->
  (exists d, d ∈ offs /\ mv_to m = shift from d) /\ aimed b c from m /\ mv_castle m = false.
Proof.
  unfold leap. intros Hm. list_mem.
  destruct (step_to_aimed _ _ _ _ _ Hm) as (? & ? & ?). eauto.
Qed.

Lemma slide_aimed b c from dirs m :
  m ∈ slide b c from dirs -> aimed b c from m /\ mv_castle m = false.
Proof. unfold slide. intros Hm. list_mem. eauto using ray_aimed. Qed.

Lemma pawn_to_shape c from to cap m :
  m ∈ pawn_to c from to cap -> mv_from m = from /\ mv_to m = to /\ mv_castle m = false.
Proof. unfold pawn_to. case_decide; intros Hm; list_mem; auto. Qed.

Lemma pawn_moves_aimed b c from m :
  m ∈ pawn_moves b c from -> aimed b c from m /\ mv_castle m = false.
Proof.
  unfold pawn_moves, pawn_advances, pawn_capture, is_empty, aimed. intros Hm.
  repeat match goal with
  | H : _ ∈ (if ?x then _ else _) |- _ => destruct x eqn:?
  | H : _ ∈ (match ?x with _ => _ end) |- _ => destruct x eqn:?
  | H : _ ∈ pawn_to _ _ _ _ |- _ =>
      apply pawn_to_shape in H as (-> & -> & ->)
  | _ => progress (list_mem; simpl in * )
  end;
  repeat match goal with H : _ && _ = true |- _ => apply andb_prop in H as [? ?] end;
  repeat split; auto; intros; try congruence.
all: try match goal with
       | H : occupant ?b ?s = Some _, H' : context [occupant ?b ?s] |- _ =>
           rewrite H in H'; discriminate
       end.
  unfold on_board in *; simpl in *.
  repeat match goal with H : _ && _ = true |- _ => apply andb_prop in H as [? ?] end.
  repeat match goal with H : bool_decide _ = true |- _ => apply bool_decide_eq_true in H end.
  apply andb_true_intro; split; apply bool_decide_eq_true; destruct c; simpl in *; lia.
Qed.

Lemma pieceMoves_aimed b from p m :
  m ∈ pieceMoves b from p -> aimed b (pcolor p) from m /\ mv_castle m = false.
Proof.
  unfold pieceMoves. destruct (pkind p); eauto using pawn_moves_aimed, slide_aimed;
    intros Hm; apply leap_aimed in Hm; tauto.
Qed.

Lemma can_castle_spec b c ks :
  can_castle b c ks = true ->
  castle_right b c ks = true /\ has_piece b (4, home_rank c)%Z King c = true /\
  has_piece b (if ks then 7 else 0, home_rank c)%Z Rook c = true /\
  (forall f, f ∈ castle_empty_files ks -> is_empty b (f, home_rank c) = true) /\
  (forall f, f ∈ castle_king_files ks -> isSquareAttacked b (f, home_rank c) (opposite c) = false).
Proof.
  unfold can_castle. intros H.
  repeat match goal with H : _ && _ = true |- _ => apply andb_prop in H as [? ?] end.
  rewrite forallb_forall in *. repeat split; auto;
    intros f Hf; apply list_elem_of_In in Hf; [auto|]; apply negb_true_iff; auto.
Qed.

(** The castling moves: the king's, from its home square, when
    [can_castle] allows them. *)
Lemma castle_moves_spec b c from m :
  m ∈ castle_moves b c from ->
  exists ks, m = castle_move c ks /\ from = (4, home_rank c)%Z /\ can_castle b c ks = true.
Proof.
  unfold castle_moves. case_decide as Hf; intros Hm; [|list_mem].
  apply elem_of_app in Hm as [Hm|Hm]; destruct (can_castle b c _) eqn:Hc; list_mem; eauto.
Qed.

Lemma castle_move_aimed b c ks :
  can_castle b c ks = true -> aimed b c (4, home_rank c)%Z (castle_move c ks).
Proof.
  intros (_ & _ & _ & He & _)%can_castle_spec.
  specialize (He (if ks then 6 else 2)%Z ltac:(destruct ks; set_solver)).
  unfold aimed, is_empty in *. simpl. repeat split.
  - destruct ks, c; reflexivity.
  - intros q Hq. destruct ks; rewrite Hq in He; discriminate.
Qed.

(** Every pseudo-legal move of the piece on [s] starts on [s], lands on
    the board and never on a piece of the mover's colour. *)
Theorem pseudoLegalMoves_aimed b s p m :
  occupant b s = Some p -> m ∈ pseudoLegalMoves b s -> aimed b (pcolor p) s m.
Proof.
  unfold pseudoLegalMoves. intros -> Hm. apply elem_of_app in Hm as [Hm|Hm].
  - apply pieceMoves_aimed in Hm; tauto.
  - case_decide; list_mem.
    apply castle_moves_spec in Hm as (ks & -> & -> & Hc). by apply castle_move_aimed.
Qed.

(** A move flagged as castling is generated only as a castling move. *)
Lemma pseudoLegalMoves_castle b s p m :
  occupant b s = Some p -> m ∈ pseudoLegalMoves b s -> mv_castle m = true ->
  exists ks, pkind p = King /\ m = castle_move (pcolor p) ks /\ s = (4, home_rank (pcolor p))%Z /\
             can_castle b (pcolor p) ks = true.
Proof.
  unfold pseudoLegalMoves. intros -> Hm Hc. apply elem_of_app in Hm as [Hm|Hm].
  - apply pieceMoves_aimed in Hm. destruct Hm as [_ Hf]. congruence.
  - case_decide; list_mem. apply castle_moves_spec in Hm as (ks & -> & -> & ?). eauto.
Qed.

(** ** Fuel and size of the rays *)

(** The number of squares a ray from [cur] in direction [d] can pass
    before the edge of the board. *)
Definition edge (x dx : Z) : Z :=
  if decide (dx = 1%Z) then (7 - x)%Z else if decide (dx = (-1)%Z) then x else 7%Z.

Definition steps (cur : square) (d : Z * Z) : nat :=
  Z.to_nat (Z.min (edge cur.1 d.1) (edge cur.2 d.2)).

Lemma steps_shift cur d :
  on_board cur = true -> d ∈ king_offsets ->
  (steps cur d <= 7)%nat /\
  on_board (shift cur d) = bool_decide (1 <= steps cur d)%nat /\
  (on_board (shift cur d) = true -> steps (shift cur d) d = (steps cur d - 1)%nat).
Proof.
  destruct cur as [x y]. unfold on_board, steps, edge, shift, king_offsets, rook_dirs, bishop_dirs.
  simpl. rewrite <- bool_decide_and. intros Hb%bool_decide_eq_true Hd.
  list_mem; simpl; rewrite <- bool_decide_and;
    repeat split; try (apply bool_decide_ext); try intros _; repeat case_decide; lia.
Qed.

Lemma ray_fuel b c from cur d n :
  on_board cur = true -> d ∈ king_offsets -> (steps cur d <= n)%nat ->
  ray b c from cur d n = ray b c from cur d (steps cur d).
Proof.
  revert cur. induction n as [|n IH]; intros cur Hcur Hd Hn.
  - by replace (steps cur d) with 0%nat by lia.
  - destruct (steps_shift cur d Hcur Hd) as (H7 & Ho & Hs).
    destruct (steps cur d) as [|k] eqn:Ek; [simpl; rewrite Ho; reflexivity|].
    simpl. destruct (on_board (shift cur d)) eqn:Hb; [|reflexivity].
    specialize (Hs eq_refl). simpl in Hs. rewrite Nat.sub_0_r in Hs.
    destruct (occupant b (shift cur d)); [reflexivity|].
    f_equal. rewrite <- Hs. apply IH; auto. lia.
Qed.

Lemma ray_length b c from cur d n :
  on_board cur = true -> d ∈ king_offsets -> (length (ray b c from cur d n) <= steps cur d)%nat.
Proof.
  revert cur. induction n as [|n IH]; intros cur Hcur Hd; simpl; [lia|].
  destruct (steps_shift cur d Hcur Hd) as (H7 & Ho & Hs).
  destruct (on_board (shift cur d)) eqn:Hb; simpl; [|lia].
  symmetry in Ho. apply bool_decide_eq_true in Ho.
  destruct (occupant b (shift cur d)); [case_decide; simpl; lia|].
  simpl. specialize (IH (shift cur d) Hb Hd). rewrite Hs in IH by done. lia.
Qed.

(** A ray from a square of the board leaves the board within 7 steps:
    the generator's fuel of 7 gives the same ray as any larger fuel. *)
Theorem ray_fuel_enough b c from cur d n :
  on_board cur = true -> d ∈ king_offsets -> (7 <= n)%nat ->
  ray b c from cur d n = ray b c from cur d 7.
Proof.
  intros Hcur Hd Hn. destruct (steps_shift cur d Hcur Hd) as (H7 & _).
  rewrite (ray_fuel _ _ _ _ _ n), (ray_fuel _ _ _ _ _ 7); auto; lia.
Qed.

Lemma slide_length b c from dirs :
  on_board from = true -> (forall d, d ∈ dirs -> d ∈ king_offsets) ->
  (length (slide b c from dirs) <= sum_list_with (steps from) dirs)%nat.
Proof. intros Hf Hd. apply length_bind_le. intros d Hin. apply ray_length; auto. Qed.

Lemma queen_steps from :
  on_board from = true -> (sum_list_with (steps from) (rook_dirs ++ bishop_dirs) <= 27)%nat.
Proof.
  destruct from as [x y]. unfold on_board. rewrite <- bool_decide_and.
  intros Hb%bool_decide_eq_true. simpl in Hb.
  assert (x = 0 \/ x = 1 \/ x = 2 \/ x = 3 \/ x = 4 \/ x = 5 \/ x = 6 \/ x = 7)%Z as Hx by lia.
  assert (y = 0 \/ y = 1 \/ y = 2 \/ y = 3 \/ y = 4 \/ y = 5 \/ y = 6 \/ y = 7)%Z as Hy by lia.
  apply Nat.leb_le. destruct_or! Hx; destruct_or! Hy; subst; reflexivity.
Qed.

Lemma step_to_length b c from to : (length (step_to b c from to) <= 1)%nat.
Proof. unfold step_to. repeat case_match; simpl; lia. Qed.

Lemma leap_length b c from offs : (length (leap b c from offs) <= length offs)%nat.
Proof.
  induction offs as [|d offs IH]; [simpl; lia|]. unfold leap in *.
  rewrite bind_cons, length_app. pose proof (step_to_length b c from (shift from d)).
  simpl. lia.
Qed.

Lemma pawn_to_length c from to cap : (length (pawn_to c from to cap) <= 4)%nat.
Proof. unfold pawn_to. case_decide; simpl; lia. Qed.

Lemma pawn_moves_length b c from : (length (pawn_moves b c from) <= 13)%nat.
Proof.
  unfold pawn_moves, pawn_advances, pawn_capture. rewrite !length_app.
  pose proof (pawn_to_length c from). repeat case_match; simpl; rewrite ?length_app; simpl;
    repeat match goal with |- context [length (pawn_to ?c ?f ?t ?k)] =>
      pose proof (pawn_to_length c f t k); generalize dependent (length (pawn_to c f t k)) end;
    intros; lia.
Qed.

Lemma castle_moves_length b c from : (length (castle_moves b c from) <= 2)%nat.
Proof. unfold castle_moves. repeat case_match; simpl; lia. Qed.

(** Move generation is finite and bounded by the board: a piece on a
    square of the board has at most 27 pseudo-legal moves, the count of a
    queen on an open board. *)
Theorem pseudoLegalMoves_length b s :
  on_board s = true -> (length (pseudoLegalMoves b s) <= 27)%nat.
Proof.
  intros Hs. pose proof (queen_steps s Hs) as Hq. rewrite sum_list_with_app in Hq.
  assert (forall d, d ∈ rook_dirs ++ bishop_dirs -> d ∈ king_offsets) as Hk by done.
  unfold pseudoLegalMoves. destruct (occupant b s) as [p|]; [|simpl; lia].
  rewrite length_app. set (c := pcolor p).
  pose proof (castle_moves_length b c s). pose proof (pawn_moves_length b c s).
  pose proof (leap_length b c s king_offsets) as Hl. change (length king_offsets) with 8%nat in Hl.
  pose proof (leap_length b c s knight_offsets) as Hn. change (length knight_offsets) with 8%nat in Hn.
  pose proof (slide_length b c s bishop_dirs Hs ltac:(intros; apply Hk; set_solver)).
  pose proof (slide_length b c s rook_dirs Hs ltac:(intros; apply Hk; set_solver)).
  pose proof (slide_length b c s (rook_dirs ++ bishop_dirs) Hs Hk).
  rewrite sum_list_with_app in *.
  unfold pieceMoves. fold c. destruct (pkind p); case_decide; try congruence; cbn [length]; lia.
Qed.

(** ** The capture flag *)

Lemma step_to_capture b c from to m :
  m ∈ step_to b c from to -> mv_capture m = negb (is_empty b (mv_to m)).
Proof.
  unfold step_to, is_empty. intros Hm.
  destruct (on_board to); [|list_mem].
  destruct (occupant b to) eqn:Hq; [case_decide|]; list_mem; simpl; by rewrite Hq.
Qed.

Lemma ray_capture b c from cur d n m :
  m ∈ ray b c from cur d n -> mv_capture m = negb (is_empty b (mv_to m)).
Proof.
  unfold is_empty. revert cur. induction n as [|n IH]; intros cur Hm; simpl in Hm; [list_mem|].
  destruct (on_board (shift cur d)); [|list_mem].
  destruct (occupant b (shift cur d)) eqn:Hq; [case_decide|]; list_mem; eauto; simpl; by rewrite Hq.
Qed.

(** For every piece but a pawn, a move is flagged a capture exactly when
    its target square is occupied (a pawn's en-passant capture lands on an
    empty square). *)
Lemma pseudoLegalMoves_capture b s p m :
  occupant b s = Some p -> pkind p <> Pawn -> m ∈ pseudoLegalMoves b s ->
  mv_capture m = negb (is_empty b (mv_to m)).
Proof.
  unfold pseudoLegalMoves. intros Hs Hk Hm. rewrite Hs in Hm.
  apply elem_of_app in Hm as [Hm|Hm].
  - unfold pieceMoves, slide, leap in Hm. destruct (pkind p); [done| | | | |];
      list_mem; eauto using step_to_capture, ray_capture.
  - case_decide; list_mem. apply castle_moves_spec in Hm as (ks & -> & _ & Hc).
    apply can_castle_spec in Hc as (_ & _ & _ & He & _).
    destruct ks; simpl; [rewrite (He 6%Z) | rewrite (He 2%Z)]; simpl; auto; set_solver.
Qed.

(** A king's move that is not castling is a step to a neighbouring square. *)
Lemma king_step b s p m :
  occupant b s = Some p -> pkind p = King -> m ∈ pseudoLegalMoves b s -> mv_castle m = false ->
  exists d, d ∈ king_offsets /\ mv_to m = shift s d.
Proof.
  intros Hs Hk Hm Hc. destruct (decide (m ∈ pieceMoves b s p)) as [Hp|Hp].
  - unfold pieceMoves in Hp. rewrite Hk in Hp. by apply leap_aimed in Hp as [? _].
  - unfold pseudoLegalMoves in Hm. rewrite Hs in Hm. apply elem_of_app in Hm as [Hm|Hm]; [done|].
    case_decide; list_mem. apply castle_moves_spec in Hm as (ks & -> & _). done.
Qed.

(** A pawn's move onto its last rank straight ahead or onto an occupied
    square is always a promotion. *)
Lemma pawn_last_rank_promotes b s p m :
  occupant b s = Some p -> pkind p = Pawn -> m ∈ pseudoLegalMoves b s ->
  (mv_to m).2 = last_rank (pcolor p) -> ((mv_to m).1 = s.1 \/ is_empty b (mv_to m) = false) ->
  mv_promotion m <> None.
Proof.
  unfold pseudoLegalMoves. intros Hs Hk Hm Hlast Hsq. rewrite Hs in Hm.
  rewrite decide_False in Hm by (rewrite Hk; discriminate). rewrite app_nil_r in Hm.
  unfold pieceMoves in Hm. rewrite Hk in Hm. set (c := pcolor p) in *.
  assert (forall from to cap m', m' ∈ pawn_to c from to cap -> to.2 = last_rank c ->
          mv_promotion m' <> None) as Hpt.
  { intros from to cap m' Hm' Hl. unfold pawn_to in Hm'. rewrite decide_True in Hm' by done.
    list_mem. simpl. discriminate. }
  unfold pawn_moves, pawn_advances, pawn_capture in Hm.
  repeat match goal with
  | H : _ ∈ _ ++ _ |- _ => apply elem_of_app in H as [H|H]
  | H : _ ∈ (if ?x then _ else _) |- _ => destruct x eqn:?
  | H : _ ∈ (match ?x with _ => _ end) |- _ => destruct x eqn:?
  | H : _ ∈ pawn_to _ _ ?to _ |- _ => apply (Hpt _ to _ _ H); pose proof (pawn_to_shape _ _ _ _ _ H) as (_ & <- & _); done
  | H : _ ∈ [] |- _ => apply not_elem_of_nil in H; destruct H
  | H : _ ∈ [_] |- _ => apply list_elem_of_singleton in H; subst
  end; simpl in *.
  - apply andb_prop in Heqb1 as [Hst _]. apply bool_decide_eq_true in Hst.
    destruct c; simpl in *; lia.
  - destruct Hsq as [Hf|He]; [lia|]. unfold is_empty in He. simpl in He. by rewrite Heqo in He.
  - destruct Hsq as [Hf|He]; [lia|]. unfold is_empty in He. simpl in He. by rewrite Heqo in He.
Qed.

(** ** Witnesses *)

Lemma pseudoLegalMoves_aimed_witness :
  aimed initial_board White (6, 0)%Z (plain (6, 0) (5, 2) false)%Z.
Proof.
  apply (pseudoLegalMoves_aimed initial_board (6, 0)%Z (mkPiece Knight White false));
    [vm_compute; reflexivity | apply (bool_decide_unpack _); vm_compute; reflexivity].
Defined.

Lemma ray_fuel_enough_witness :
  ray initial_board White (3, 3)%Z (3, 3)%Z (1, 0)%Z 10 = ray initial_board White (3, 3)%Z (3, 3)%Z (1, 0)%Z 7.
Proof.
  apply ray_fuel_enough; [reflexivity | apply (bool_decide_unpack _); vm_compute; reflexivity | lia].
Defined.

Lemma pseudoLegalMoves_length_witness :
  (length (pseudoLegalMoves initial_board (3, 0)%Z) <= 27)%nat.
Proof. apply pseudoLegalMoves_length. reflexivity. Defined.

End MoveGen.
