(* ===== verification/EngineRules.v ===== *)
(** * EngineRules: applying a move, legality and game status (spec 4.1, 4.3)

    [applyMove] performs a generated move on a board: the placement
    (through [move_piece], [applyCastle], [applyEnPassantCapture] and
    [applyPromotion]), then the side effects of section 4.1: the new
    en-passant target, the castling rights the move revokes, and the turn.
    The move counters are the session's business (section 4.4, step 5).

    [legalMoves b c] keeps the pseudo-legal moves of colour [c] after which
    [c]'s king is not attacked, simulating each on a copy of the board;
    [status] classifies a position by the legal moves of the side to move
    and whether its king is attacked. *)

From S2P Require Import Prelude EngineBoard EngineMoves.

Module Rules.
Import Board MoveGen.

Definition touches (m : move) (s : square) : bool := bool_decide (mv_from m = s \/ mv_to m = s).

(** A right is lost when its king's or its rook's home square is left or
    landed on. *)
Definition update_rights (r : castling) (m : move) : castling :=
  mkCastling
    (white_king_side r && negb (touches m (4, 0)%Z) && negb (touches m (7, 0)%Z))
    (white_queen_side r && negb (touches m (4, 0)%Z) && negb (touches m (0, 0)%Z))
    (black_king_side r && negb (touches m (4, 7)%Z) && negb (touches m (7, 7)%Z))
    (black_queen_side r && negb (touches m (4, 7)%Z) && negb (touches m (0, 7)%Z)).

(** A pawn's double step leaves the square it passed as en-passant target. *)
Definition new_ep_target (p : piece) (m : move) : option square :=
  if decide (pkind p = Pawn /\ Z.abs ((mv_to m).2 - (mv_from m).2) = 2%Z)
  then Some ((mv_from m).1, (mv_from m).2 + pawn_dir (pcolor p))%Z
  else None.

Definition placement (b : board) (p : piece) (m : move) : board :=
  if mv_castle m then applyCastle (pcolor p) (bool_decide ((mv_to m).1 = 6%Z)) b
  else if mv_en_passant m then applyEnPassantCapture (mv_from m) (mv_to m) b
  else
    let b1 := move_piece (mv_from m) (mv_to m) b in
    match mv_promotion m with
    | Some k => applyPromotion (mv_to m) k b1
    | None => b1
    end.

Definition applyMove (b : board) (m : move) : board :=
  match occupant b (mv_from m) with
  | None => b
  | Some p =>
      mkBoard (squares (placement b p m)) (opposite (side_to_move b)) (new_ep_target p m)
              (update_rights (rights b) m) (halfmove_clock b) (fullmove_number b)
  end.

Definition inCheck (b : board) (c : color) : bool :=
  existsb (fun k => isSquareAttacked b k (opposite c)) (kings b c).

Definition pseudoMovesOf (b : board) (c : color) : list move :=
  pieces_of b c ≫= fun sp => pseudoLegalMoves b sp.1.

(** [legalMoves(board, color)] *)
Definition legalMoves (b : board) (c : color) : list move :=
  filter (fun m => inCheck (applyMove b m) c = false) (pseudoMovesOf b c).

Inductive status :=
  | InProgress
  | Check (c : color)
  | Checkmate (winner : color)
  | Stalemate
  | DrawByFiftyMove
  | DrawByRepetition
  | DrawByInsufficientMaterial.

#[export] Instance status_eq_dec : EqDecision status.
Proof. solve_decision. Defined.

Definition terminal (s : status) : bool :=
  match s with InProgress | Check _ => false | _ => true end.

(** [status(board, colorToMove)] *)
Definition status_of (b : board) (c : color) : status :=
  match legalMoves b c, inCheck b c with
  | [], true => Checkmate (opposite c)
  | [], false => Stalemate
  | _ :: _, true => Check c
  | _ :: _, false => InProgress
  end.

(** ** Properties *)

Lemma elem_of_pseudoMovesOf b c m :
  m ∈ pseudoMovesOf b c <->
  exists s p, occupant b s = Some p /\ pcolor p = c /\ m ∈ pseudoLegalMoves b s.
Proof.
  unfold pseudoMovesOf. rewrite list_elem_of_bind. split.
  - intros ([s p] & Hm & Hsp%elem_of_pieces_of). naive_solver.
  - intros (s & p & ? & ? & ?). exists (s, p). rewrite elem_of_pieces_of. naive_solver.
Qed.

(** [inCheck] is false exactly when no king of the colour stands on an
    attacked square. *)
Lemma inCheck_false b c :
  inCheck b c = false <->
  forall k p, occupant b k = Some p -> pkind p = King -> pcolor p = c ->
              isSquareAttacked b k (opposite c) = false.
Proof.
  unfold inCheck. split.
  - intros H k p Hk Hkind Hc. apply not_true_iff_false. intros Ha.
    assert (existsb (fun k => isSquareAttacked b k (opposite c)) (kings b c) = true) as E.
    { apply existsb_exists. exists k. split; [|done].
      apply list_elem_of_In, elem_of_kings. eauto. }
    congruence.
  - intros H. apply not_true_iff_false. intros (k & Hin & Ha)%existsb_exists.
    apply list_elem_of_In, elem_of_kings in Hin as (p & Hk & Hkind & Hc).
    rewrite (H k p) in Ha by auto. discriminate.
Qed.

Lemma legalMoves_pseudo b c m :
  m ∈ legalMoves b c ->
  exists p, occupant b (mv_from m) = Some p /\ pcolor p = c /\ m ∈ pseudoLegalMoves b (mv_from m).
Proof.
  unfold legalMoves. rewrite list_elem_of_filter, elem_of_pseudoMovesOf.
  intros [_ (s & p & Hs & Hc & Hm)].
  destruct (pseudoLegalMoves_aimed b s p m Hs Hm) as [-> _]. eauto.
Qed.

Lemma applyMove_side b m p :
  occupant b (mv_from m) = Some p -> side_to_move (applyMove b m) = opposite (side_to_move b).
Proof. unfold applyMove. by intros ->. Qed.

Lemma legalMoves_side b c m :
  m ∈ legalMoves b c -> side_to_move (applyMove b m) = opposite (side_to_move b).
Proof. intros (p & Hp & _)%legalMoves_pseudo. eauto using applyMove_side. Qed.

Lemma placement_on_board b p m :
  squares_on_board b -> on_board (mv_to m) = true -> squares_on_board (placement b p m).
Proof.
  unfold placement. intros Hb Ht.
  destruct (mv_castle m); [auto with chess|]. destruct (mv_en_passant m); [auto with chess|].
  destruct (mv_promotion m); auto with chess.
Qed.

(** Applying a move whose target is on the board keeps every piece on
    the board. *)
Lemma applyMove_on_board b m :
  squares_on_board b -> on_board (mv_to m) = true -> squares_on_board (applyMove b m).
Proof.
  unfold applyMove. intros Hb Ht. destruct (occupant b (mv_from m)); [|done].
  apply (placement_on_board b p m Hb Ht).
Qed.

Lemma legalMoves_on_board b c m :
  m ∈ legalMoves b c -> on_board (mv_to m) = true.
Proof.
  intros (p & Hp & _ & Hm)%legalMoves_pseudo.
  by destruct (pseudoLegalMoves_aimed _ _ _ _ Hp Hm) as (_ & ? & _).
Qed.

(** The legality filter is sound and complete: a legal move of colour
    [c] is a pseudo-legal move of one of [c]'s pieces, landing on the board
    and not on a piece of [c], after which no king of [c] stands on a square
    the opponent attacks; and every pseudo-legal move of a piece of [c]
    with that property is legal. *)
Theorem legalMoves_spec b c m :
  m ∈ legalMoves b c <->
  (exists p, occupant b (mv_from m) = Some p /\ pcolor p = c /\ m ∈ pseudoLegalMoves b (mv_from m)) /\
  on_board (mv_to m) = true /\
  (forall q, occupant b (mv_to m) = Some q -> pcolor q <> c) /\
  (forall k p, occupant (applyMove b m) k = Some p -> pkind p = King -> pcolor p = c ->
               isSquareAttacked (applyMove b m) k (opposite c) = false).
Proof.
  split.
  - intros Hm. pose proof (legalMoves_pseudo b c m Hm) as (p & Hp & Hc & Hps).
    destruct (pseudoLegalMoves_aimed _ _ _ _ Hp Hps) as (_ & Hon & Hown). subst c.
    unfold legalMoves in Hm. apply list_elem_of_filter in Hm as [Hchk _].
    rewrite inCheck_false in Hchk. eauto 10.
  - intros ((p & Hp & Hc & Hps) & _ & _ & Hsafe). unfold legalMoves.
    apply list_elem_of_filter. rewrite inCheck_false, elem_of_pseudoMovesOf. eauto 10.
Qed.

(** A castling move is legal only if the king's square, the square it
    passes and the square it lands on are all unattacked (spec 4.2, 8). *)
Theorem castle_legal_path_safe b c ks :
  castle_move c ks ∈ legalMoves b c ->
  forall f, f ∈ castle_king_files ks -> isSquareAttacked b (f, home_rank c) (opposite c) = false.
Proof.
  intros (p & Hp & Hc & Hm)%legalMoves_pseudo.
  destruct (pseudoLegalMoves_castle _ _ _ _ Hp Hm eq_refl) as (ks' & _ & Heq & _ & Hcan).
  subst c. assert (ks' = ks) as -> by (destruct ks, ks', (pcolor p); simplify_eq/=; done).
  by apply can_castle_spec in Hcan as (_ & _ & _ & _ & Hsafe).
Qed.

(** From the initial position White has exactly 20 legal moves, and
    after each of them Black has exactly 20. *)
Theorem initial_position_perft :
  length (legalMoves initial_board White) = 20 /\
  map (fun m => length (legalMoves (applyMove initial_board m) Black))
      (legalMoves initial_board White) = repeat 20 20.
Proof. split; vm_compute; reflexivity. Qed.

(** ** Witnesses *)

(** White king and king's rook at home with the squares between empty. *)
Definition castle_board : board :=
  mkBoard (list_to_map [((4, 0)%Z, mkPiece King White false); ((7, 0)%Z, mkPiece Rook White false);
                        ((4, 7)%Z, mkPiece King Black false)])
          White None (mkCastling true true true true) 0 1.

Lemma castle_legal_path_safe_witness :
  forall f, f ∈ castle_king_files true -> isSquareAttacked castle_board (f, home_rank White) Black = false.
Proof.
  apply (castle_legal_path_safe castle_board White true).
  apply (bool_decide_unpack _). vm_compute. reflexivity.
Defined.

End Rules.
