(* ===== verification/EngineSession.v ===== *)
(** * EngineSession: one game's state machine (spec section 3 and 4.4)

    A session owns the current board, the history of applied moves, the
    positions seen so far (the repetition keys of step 6, the initial one
    included), the two player identities and the status.  [submitMove] is
    the transition of section 4.4, step by step: the checks 1-3 are pure
    and return a [move_error]; on success the move is applied (step 4),
    appended and the counters updated (step 5), and the status recomputed
    with the two draw rules declared on top of it (step 6).

    Off-board squares are rejected with [InvalidSquare] before step 1: the
    spec names the error (section 6) but not its place in the order. *)

From S2P Require Import Prelude EngineBoard EngineMoves EngineRules.

Module Session.
Import Board MoveGen Rules.

Inductive move_error := NotYourTurn | GameOver | IllegalMove | InvalidSquare | SessionNotFound.

#[export] Instance move_error_eq_dec : EqDecision move_error.
Proof. solve_decision. Defined.

(** The move a client proposes: from, to and an optional promotion. *)
Record proposal := mkProposal { pr_from : square; pr_to : square; pr_promotion : option kind }.

(** The repetition key: occupancy, side to move, castling rights and
    en-passant target. *)
Definition position_key : Type := gmap square piece * color * castling * option square.

Definition key_of (b : board) : position_key := (squares b, side_to_move b, rights b, ep_target b).

Record session := mkSession {
  board_of : board;
  history : list move;
  positions : list position_key;
  white_player : string;
  black_player : string;
  game_status : status
}.

Definition createSession (white black : string) : session :=
  mkSession initial_board [] [key_of initial_board] white black InProgress.

(** Step 3: the legal move that matches the proposal on from, to and
    promotion. *)
Definition find_legal (b : board) (c : color) (pr : proposal) : option move :=
  find (same_move (mkMove (pr_from pr) (pr_to pr) (pr_promotion pr) false false false))
       (legalMoves b c).

Definition resets_clock (b : board) (m : move) : bool :=
  mv_capture m ||
  match occupant b (mv_from m) with Some p => bool_decide (pkind p = Pawn) | None => false end.

(** Step 5: the counters after move [m] of colour [c] on board [b]. *)
Definition with_counters (b : board) (c : color) (m : move) (b' : board) : board :=
  mkBoard (squares b') (side_to_move b') (ep_target b') (rights b')
          (if resets_clock b m then 0 else S (halfmove_clock b))
          (if decide (c = Black) then S (fullmove_number b) else fullmove_number b).

Definition occurrences (k : position_key) (ks : list position_key) : nat :=
  length (filter (fun k' => k' = k) ks).

(** Step 6. *)
Definition final_status (b : board) (ks : list position_key) : status :=
  if decide (100 <= halfmove_clock b) then DrawByFiftyMove
  else if decide (3 <= occurrences (key_of b) ks) then DrawByRepetition
  else status_of b (side_to_move b).

(** [submitMove(session, color, move)] *)
Definition submitMove (s : session) (c : color) (pr : proposal) : move_error + session :=
  if negb (on_board (pr_from pr) && on_board (pr_to pr)) then inl InvalidSquare
  else if decide (c <> side_to_move (board_of s)) then inl NotYourTurn
  else if terminal (game_status s) then inl GameOver
  else match find_legal (board_of s) c pr with
  | None => inl IllegalMove
  | Some m =>
      let b := board_of s in
      let b' := with_counters b c m (applyMove b m) in
      let ks := positions s ++ [key_of b'] in
      inr (mkSession b' (history s ++ [m]) ks (white_player s) (black_player s) (final_status b' ks))
  end.

(** A sequence of submissions, each by the side it names; the first
    rejection stops the sequence. *)
Fixpoint play (s : session) (ms : list (color * proposal)) : move_error + session :=
  match ms with
  | [] => inr s
  | (c, pr) :: rest => match submitMove s c pr with
                       | inl e => inl e
                       | inr s' => play s' rest
                       end
  end.

(** Fool's mate, [1. f3 e5 2. g4 Qh4#]. *)
Definition fools_mate : list (color * proposal) :=
  [(White, mkProposal (5, 1) (5, 2) None); (Black, mkProposal (4, 6) (4, 4) None);
   (White, mkProposal (6, 1) (6, 3) None); (Black, mkProposal (3, 7) (7, 3) None)]%Z.

Definition e2e4 : proposal := mkProposal (4, 1)%Z (4, 3)%Z None.

(** ** Well-formed sessions *)

(** The colour to move after [n] plies. *)
Definition side_after (n : nat) : color := if Nat.even n then White else Black.

Record session_wf (s : session) : Prop := {
  wf_side : side_to_move (board_of s) = side_after (length (history s));
  wf_fullmove : 2 * fullmove_number (board_of s) =
                length (history s) + (if Nat.even (length (history s)) then 2 else 1);
  wf_positions : length (positions s) = S (length (history s));
  wf_last : last (positions s) = Some (key_of (board_of s));
  wf_on_board : squares_on_board (board_of s);
  wf_status : game_status s = final_status (board_of s) (positions s)
}.

(** ** Properties *)

Definition matches (pr : proposal) (m : move) : Prop :=
  mv_from m = pr_from pr /\ mv_to m = pr_to pr /\ mv_promotion m = pr_promotion pr.

Lemma find_legal_Some b c pr m :
  find_legal b c pr = Some m -> m ∈ legalMoves b c /\ matches pr m.
Proof.
  unfold find_legal, same_move, matches. intros (Hin & Hm)%find_some.
  apply bool_decide_eq_true in Hm. simpl in Hm. split; [by apply list_elem_of_In|naive_solver].
Qed.

Lemma find_legal_None b c pr :
  find_legal b c pr = None <-> forall m, m ∈ legalMoves b c -> ~ matches pr m.
Proof.
  unfold find_legal, same_move, matches. split.
  - intros Hf m Hm Hmt. apply list_elem_of_In in Hm.
    pose proof (find_none _ _ Hf m Hm) as Hn. simpl in Hn.
    rewrite bool_decide_eq_false in Hn. naive_solver.
  - intros H. destruct (find _ _) as [m|] eqn:Hf; [|done]. exfalso.
    apply find_some in Hf as [Hin Hm]. apply bool_decide_eq_true in Hm.
    apply (H m); [by apply list_elem_of_In|simpl in Hm; naive_solver].
Qed.

Definition squares_ok (pr : proposal) : bool := on_board (pr_from pr) && on_board (pr_to pr).

Lemma submitMove_turn s c pr :
  squares_ok pr = true -> c <> side_to_move (board_of s) -> submitMove s c pr = inl NotYourTurn.
Proof. unfold submitMove. fold (squares_ok pr). intros -> Hc. simpl. by rewrite decide_True. Qed.

(** A submission by the side not to move is refused, for its squares or
    for its turn. *)
Lemma submitMove_off_turn s c pr :
  c <> side_to_move (board_of s) ->
  submitMove s c pr = inl NotYourTurn \/ submitMove s c pr = inl InvalidSquare.
Proof.
  intros Hc. destruct (squares_ok pr) eqn:Hsq; [left; by apply submitMove_turn|right].
  unfold submitMove. fold (squares_ok pr). by rewrite Hsq.
Qed.

Lemma submitMove_illegal s c pr :
  squares_ok pr = true -> c = side_to_move (board_of s) -> terminal (game_status s) = false ->
  (forall m, m ∈ legalMoves (board_of s) c -> ~ matches pr m) -> submitMove s c pr = inl IllegalMove.
Proof.
  unfold submitMove. fold (squares_ok pr). intros -> Hc Ht Hm. simpl.
  rewrite decide_False by tauto. rewrite Ht. apply find_legal_None in Hm. by rewrite Hm.
Qed.

(** The rejections of [submitMove] and their order: off-board squares,
    then the turn (step 1), then a finished game (step 2), then a proposal
    matching no legal move (step 3); each is returned as an error value. *)
Theorem submitMove_rejects s c pr e :
  submitMove s c pr = inl e <->
  (squares_ok pr = false /\ e = InvalidSquare) \/
  (squares_ok pr = true /\ c <> side_to_move (board_of s) /\ e = NotYourTurn) \/
  (squares_ok pr = true /\ c = side_to_move (board_of s) /\ terminal (game_status s) = true /\
   e = GameOver) \/
  (squares_ok pr = true /\ c = side_to_move (board_of s) /\ terminal (game_status s) = false /\
   (forall m, m ∈ legalMoves (board_of s) c -> ~ matches pr m) /\ e = IllegalMove).
Proof.
  unfold submitMove. fold (squares_ok pr). rewrite <- find_legal_None.
  destruct (squares_ok pr); simpl; [|naive_solver].
  case_decide; [naive_solver|]. destruct (terminal _); [naive_solver|].
  destruct (find_legal _ _ _); naive_solver.
Qed.

Lemma submitMove_accepted s c pr s' :
  submitMove s c pr = inr s' ->
  exists m, squares_ok pr = true /\ c = side_to_move (board_of s) /\
    terminal (game_status s) = false /\ find_legal (board_of s) c pr = Some m /\
    board_of s' = with_counters (board_of s) c m (applyMove (board_of s) m) /\
    history s' = history s ++ [m] /\
    positions s' = positions s ++ [key_of (board_of s')] /\
    white_player s' = white_player s /\ black_player s' = black_player s /\
    game_status s' = final_status (board_of s') (positions s').
Proof.
  unfold submitMove. fold (squares_ok pr).
  destruct (squares_ok pr); simpl; [|done].
  case_decide; [done|]. destruct (terminal _); [done|].
  destruct (find_legal _ _ _) eqn:Hf; [|done]. intros [= <-]. eexists; simpl.
  repeat split; auto. all: by apply dec_stable.
Qed.

(** After an accepted move the other colour is to move. *)
Lemma submitMove_side s c pr s' :
  submitMove s c pr = inr s' -> side_to_move (board_of s') = opposite c.
Proof.
  intros (m & _ & -> & _ & Hf & -> & _)%submitMove_accepted.
  apply find_legal_Some in Hf as [Hm _]. simpl. exact (legalMoves_side _ _ _ Hm).
Qed.

(** Two submissions by the same colour, processed one after the other
    as section 5 requires: once the first is accepted, the second is
    rejected with [NotYourTurn], never accepted. *)
Theorem serialized_submissions s c pr1 pr2 s1 :
  submitMove s c pr1 = inr s1 -> squares_ok pr2 = true ->
  submitMove s1 c pr2 = inl NotYourTurn.
Proof.
  intros H1 Hok. apply submitMove_turn; [done|].
  rewrite (submitMove_side _ _ _ _ H1). destruct c; discriminate.
Qed.

(** Terminal statuses are sinks: in a finished game no sequence of
    submissions is accepted. *)
Theorem terminal_sink s ms :
  terminal (game_status s) = true -> ms <> [] -> exists e, play s ms = inl e.
Proof.
  intros Ht Hms. destruct ms as [|[c pr] ms]; [done|]. simpl.
  destruct (submitMove s c pr) as [e|s'] eqn:E; [eauto|].
  apply submitMove_accepted in E as (m & _ & _ & Hnt & _). congruence.
Qed.

Lemma createSession_wf w bl : session_wf (createSession w bl).
Proof.
  split; [reflexivity..| |vm_compute; reflexivity].
  unfold squares_on_board. apply map_Forall_to_list. vm_compute. repeat constructor.
Qed.

Lemma side_after_S n : side_after (S n) = opposite (side_after n).
Proof. unfold side_after. rewrite Nat.even_succ, <- Nat.negb_even. by destruct (Nat.even n). Qed.

(** An accepted submission keeps a session well formed. *)
Lemma submitMove_wf s c pr s' :
  session_wf s -> submitMove s c pr = inr s' -> session_wf s'.
Proof.
  intros [Hside Hfull Hpos Hlast Hon _] E.
  pose proof (submitMove_side _ _ _ _ E) as Hside'.
  apply submitMove_accepted in E as (m & _ & Hc & _ & Hf & Hb & Hh & Hp & _ & _ & Hst).
  apply find_legal_Some in Hf as [Hm _]. subst c.
  assert (length (history s') = S (length (history s))) as Hl
    by (rewrite Hh, length_app; simpl; lia).
  split; rewrite ?Hl.
  - by rewrite Hside', Hside, side_after_S.
  - rewrite Hb. cbn [with_counters fullmove_number]. rewrite Nat.even_succ, <- Nat.negb_even, Hside. unfold side_after in *.
    destruct (Nat.even (length (history s))); simpl in *; try case_decide; try discriminate; lia.
  - by rewrite Hp, length_app, Hpos, Nat.add_1_r.
  - by rewrite Hp, last_snoc.
  - rewrite Hb. apply (applyMove_on_board _ _ Hon). by eapply legalMoves_on_board.
  - done.
Qed.

Lemma play_wf s ms s' : session_wf s -> play s ms = inr s' -> session_wf s'.
Proof.
  revert s. induction ms as [|[c pr] ms IH]; simpl; intros s Hs E; [congruence|].
  destruct (submitMove s c pr) as [|s1] eqn:E1; [done|]. eauto using submitMove_wf.
Qed.

Lemma play_snoc s0 ms s c pr s' :
  play s0 ms = inr s -> submitMove s c pr = inr s' -> play s0 (ms ++ [(c, pr)]) = inr s'.
Proof.
  revert s0. induction ms as [|[c0 pr0] ms IH]; simpl; intros s0 H1 H2.
  - injection H1 as ->. by rewrite H2.
  - destruct (submitMove s0 c0 pr0); [done|]. eauto.
Qed.

(** Every session reachable from [createSession] by accepted moves is
    well formed: the colour to move alternates with the length of the
    history, the full-move number counts Black's moves, one repetition key
    is recorded per position (the current one last), and every piece stands
    on the board. *)
Theorem reachable_session_wf w bl ms s :
  play (createSession w bl) ms = inr s -> session_wf s.
Proof. apply play_wf, createSession_wf. Qed.

(** Fool's mate, [1. f3 e5 2. g4 Qh4#], is accepted move by move and
    ends in [Checkmate Black], with no legal move left for White. *)
Theorem fools_mate_checkmate w bl :
  exists s, play (createSession w bl) fools_mate = inr s /\
            game_status s = Checkmate Black /\ legalMoves (board_of s) White = [].
Proof. apply inr_eval. vm_compute. split; reflexivity. Qed.

(** A castling request is rejected with [IllegalMove] when the king's
    square, the square it passes or the square it lands on is attacked,
    whatever the castling rights and the squares between. *)
Theorem castle_through_attack_rejected s c ks p :
  c = side_to_move (board_of s) -> terminal (game_status s) = false ->
  occupant (board_of s) (4, home_rank c)%Z = Some p -> pkind p = King ->
  (exists f, f ∈ castle_king_files ks /\
             isSquareAttacked (board_of s) (f, home_rank c) (opposite c) = true) ->
  submitMove s c (mkProposal (4, home_rank c) (if ks then 6 else 2, home_rank c) None)%Z
  = inl IllegalMove.
Proof.
  intros Hc Ht Hp Hk (f & Hf & Ha). apply submitMove_illegal; [by destruct c, ks|done..|].
  intros m (p' & Hp' & Hcol & Hm)%legalMoves_pseudo (Hfrom & Hto & _).
  simpl in Hfrom, Hto. rewrite Hfrom in Hp', Hm. rewrite Hp in Hp'. simplify_eq.
  destruct (mv_castle m) eqn:Hcastle.
  - destruct (pseudoLegalMoves_castle _ _ _ _ Hp Hm Hcastle) as (ks' & _ & -> & _ & Hcan).
    assert (ks' = ks) as ->.
    { simpl in Hto. destruct ks, ks'; simplify_eq/=; done. }
    apply can_castle_spec in Hcan as (_ & _ & _ & _ & Hsafe). rewrite Hcol in Hsafe. by rewrite (Hsafe f Hf) in Ha.
  - destruct (king_step _ _ _ _ Hp Hk Hm Hcastle) as (d & Hd & Hto').
    rewrite Hto in Hto'. unfold shift in Hto'. simpl in Hto'.
    unfold king_offsets, rook_dirs, bishop_dirs in Hd. list_mem;
      simplify_eq/=; destruct ks; lia.
Qed.

(** The fifty-move rule: when the half-move clock stands at 99 and a
    piece other than a pawn moves to an empty square, the clock reaches 100
    and the game is drawn. *)
Theorem fifty_move_draw s c pr s' p :
  submitMove s c pr = inr s' -> halfmove_clock (board_of s) = 99 ->
  occupant (board_of s) (pr_from pr) = Some p -> pkind p <> Pawn ->
  is_empty (board_of s) (pr_to pr) = true ->
  halfmove_clock (board_of s') = 100 /\ game_status s' = DrawByFiftyMove.
Proof.
  intros E H99 Hp Hk He.
  apply submitMove_accepted in E as (m & _ & _ & _ & Hf & Hb & _ & _ & _ & _ & ->).
  apply find_legal_Some in Hf as [Hm (Hfrom & Hto & _)].
  destruct (legalMoves_pseudo _ _ _ Hm) as (p' & Hp' & _ & Hps).
  rewrite Hfrom, Hp in Hp'. simplify_eq. rewrite Hfrom in Hps.
  assert (resets_clock (board_of s) m = false) as Hr.
  { unfold resets_clock. rewrite (pseudoLegalMoves_capture _ _ _ _ Hp Hk Hps), Hto, He, Hfrom, Hp.
    simpl. by rewrite bool_decide_eq_false. }
  assert (halfmove_clock (board_of s') = 100) as Hh by (rewrite Hb; simpl; by rewrite Hr, H99).
  split; [done|]. unfold final_status. rewrite Hh. by case_decide; [|lia].
Qed.

Lemma final_status_live b ks :
  terminal (final_status b ks) = false -> legalMoves b (side_to_move b) <> [].
Proof.
  unfold final_status, status_of. repeat case_decide; try discriminate.
  by destruct (legalMoves _ _), (inCheck _ _).
Qed.

Lemma occupant_on_board b s p : squares_on_board b -> occupant b s = Some p -> on_board s = true.
Proof. intros Hb Hs. exact (Hb s p Hs). Qed.

(** Progress: in a reachable game that is not over, the side to move
    has a proposal that [submitMove] accepts. *)
Theorem reachable_progress w bl ms s :
  play (createSession w bl) ms = inr s -> terminal (game_status s) = false ->
  exists pr s', submitMove s (side_to_move (board_of s)) pr = inr s'.
Proof.
  intros Hr Ht. destruct (play_wf _ _ _ (createSession_wf w bl) Hr) as [_ _ _ _ Hon Hst].
  pose proof Ht as Hlive. rewrite Hst in Hlive. apply final_status_live in Hlive.
  destruct (legalMoves _ _) as [|m ms'] eqn:El; [done|].
  assert (m ∈ legalMoves (board_of s) (side_to_move (board_of s))) as Hm by (rewrite El; left).
  exists (mkProposal (mv_from m) (mv_to m) (mv_promotion m)).
  destruct (find_legal (board_of s) (side_to_move (board_of s))
              (mkProposal (mv_from m) (mv_to m) (mv_promotion m))) as [m'|] eqn:Hf.
  - unfold submitMove. simpl. rewrite Hf.
    destruct (legalMoves_pseudo _ _ _ Hm) as (p & Hp & _).
    rewrite (occupant_on_board _ _ _ Hon Hp), (legalMoves_on_board _ _ _ Hm). simpl.
    rewrite decide_False by tauto. rewrite Ht. eauto.
  - exfalso. apply (proj1 (find_legal_None _ _ _) Hf m Hm). done.
Qed.

(** ** Witnesses *)

Lemma serialized_submissions_witness :
  exists s1, submitMove (createSession "alice" "bob") White e2e4 = inr s1 /\
             submitMove s1 White (mkProposal (3, 1) (3, 3) None)%Z = inl NotYourTurn.
Proof.
  destruct (inr_eval (submitMove (createSession "alice" "bob") White e2e4) (fun _ => True))
    as (s1 & E & _); [vm_compute; exact I|].
  exists s1. split; [done|]. apply (serialized_submissions _ White e2e4 _ s1 E). reflexivity.
Defined.

Lemma terminal_sink_witness :
  exists s, play (createSession "alice" "bob") fools_mate = inr s /\
            exists e, play s [(White, e2e4)] = inl e.
Proof.
  destruct (inr_eval (play (createSession "alice" "bob") fools_mate)
              (fun s => terminal (game_status s) = true)) as (s & E & Ht); [vm_compute; reflexivity|].
  exists s. split; [done|]. apply terminal_sink; [exact Ht | discriminate].
Defined.

Lemma reachable_session_wf_witness :
  exists s, play (createSession "alice" "bob") fools_mate = inr s /\ session_wf s.
Proof.
  destruct (inr_eval (play (createSession "alice" "bob") fools_mate) (fun _ => True))
    as (s & E & _); [vm_compute; exact I|].
  exists s. split; [done|]. exact (reachable_session_wf "alice" "bob" fools_mate s E).
Defined.

Lemma reachable_progress_witness :
  exists s, play (createSession "alice" "bob") [(White, e2e4)] = inr s /\
            exists pr s', submitMove s (side_to_move (board_of s)) pr = inr s'.
Proof.
  destruct (inr_eval (play (createSession "alice" "bob") [(White, e2e4)])
              (fun s => terminal (game_status s) = false)) as (s & E & Ht); [vm_compute; reflexivity|].
  exists s. split; [done|]. exact (reachable_progress "alice" "bob" [(White, e2e4)] s E Ht).
Defined.

(** King and rook at home, castling rights intact, but a black rook on
    the open f-file attacks f1. *)
Definition castle_attacked_board : board :=
  mkBoard (list_to_map [((4, 0)%Z, mkPiece King White false); ((7, 0)%Z, mkPiece Rook White false);
                        ((4, 7)%Z, mkPiece King Black false); ((5, 7)%Z, mkPiece Rook Black false)])
          White None (mkCastling true true true true) 0 1.

Definition castle_attacked_session : session :=
  mkSession castle_attacked_board [] [key_of castle_attacked_board] "alice" "bob" InProgress.

Lemma castle_through_attack_rejected_witness :
  submitMove castle_attacked_session White
    (mkProposal (4, home_rank White) (if true then 6 else 2, home_rank White) None)%Z = inl IllegalMove.
Proof.
  apply (castle_through_attack_rejected castle_attacked_session White true (mkPiece King White false));
    [reflexivity | reflexivity | vm_compute; reflexivity | reflexivity |].
  exists 5%Z. split; [apply (bool_decide_unpack _); vm_compute; reflexivity | vm_compute; reflexivity].
Defined.

(** The initial position with the half-move clock at 99. *)
Definition clock99_session : session :=
  mkSession (mkBoard initial_squares White None (mkCastling true true true true) 99 1)
            [] [] "alice" "bob" InProgress.

Definition knight_g1f3 : proposal := mkProposal (6, 0)%Z (5, 2)%Z None.

Lemma fifty_move_draw_witness :
  exists s', submitMove clock99_session White knight_g1f3 = inr s' /\
             halfmove_clock (board_of s') = 100 /\ game_status s' = DrawByFiftyMove.
Proof.
  destruct (inr_eval (submitMove clock99_session White knight_g1f3) (fun _ => True))
    as (s' & E & _); [vm_compute; exact I|].
  exists s'. split; [done|].
  apply (fifty_move_draw clock99_session White knight_g1f3 s' (mkPiece Knight White false));
    [exact E | reflexivity | vm_compute; reflexivity | discriminate | vm_compute; reflexivity].
Defined.

End Session.
