(* ===== verification/EngineSnapshot.v ===== *)
(** * EngineSnapshot: the [BoardSnapshot] of spec section 6

    A snapshot is the dense form of a board: an 8x8 grid of optional
    pieces, row [r] holding rank [r] from file 0 to file 7, with the side
    to move, the en-passant target, the castling rights and the two
    counters.  [serialize] reads the grid off the occupancy map;
    [deserialize] rebuilds the map from the cells of the 64 squares.  The
    round trip of section 8 holds for every board whose pieces stand on the
    board, which every reachable board does ([EngineSession]).

    The grid is also what the engine hands to the client as [board]: each
    cell is [null] or [{ name, color }] with the names [ChessPiece] looks up
    in its image map. *)

From S2P Require Import Prelude JsValue EngineBoard EngineMoves EngineRules EngineSession.

Module Snapshot.
Import Board.

Record snapshot := mkSnapshot {
  grid : list (list (option piece));
  snap_side : color;
  snap_ep : option square;
  snap_rights : castling;
  snap_halfmove : nat;
  snap_fullmove : nat
}.

(** The coordinates 0 .. 7. *)
Definition coords8 : list Z := Z.of_nat <$> seq 0 8.

Definition serialize (b : board) : snapshot :=
  mkSnapshot ((fun r => (fun f => occupant b (f, r)) <$> coords8) <$> coords8)
             (side_to_move b) (ep_target b) (rights b) (halfmove_clock b) (fullmove_number b).

(** The cell of square [s]; off-board squares have none. *)
Definition cell (sn : snapshot) (s : square) : option piece :=
  if on_board s then
    match grid sn !! Z.to_nat s.2 with
    | Some row => default None (row !! Z.to_nat s.1)
    | None => None
    end
  else None.

Definition all_squares : list square := coords8 ≫= fun r => (fun f => (f, r)) <$> coords8.

Definition deserialize (sn : snapshot) : board :=
  mkBoard (omap id (list_to_map ((fun s => (s, cell sn s)) <$> all_squares)))
          (snap_side sn) (snap_ep sn) (snap_rights sn) (snap_halfmove sn) (snap_fullmove sn).

(** ** The JSON the client receives *)

Definition kind_label (k : kind) : string :=
  match k with
  | Pawn => "Pawn" | Knight => "Knight" | Bishop => "Bishop"
  | Rook => "Rook" | Queen => "Queen" | King => "King"
  end.

Definition color_label (c : color) : string :=
  match c with White => "white" | Black => "black" end.

Definition piece_json (p : piece) : jsval :=
  JObj [("name", JStr (kind_label (pkind p))); ("color", JStr (color_label (pcolor p)))].

Definition cell_json (o : option piece) : jsval :=
  match o with Some p => piece_json p | None => JNull end.

Definition board_json (sn : snapshot) : jsval :=
  JArr ((fun row => JArr (cell_json <$> row)) <$> grid sn).

(** ** Round trip *)

Lemma elem_of_coords8 z : z ∈ coords8 <-> (0 <= z < 8)%Z.
Proof.
  unfold coords8. rewrite list_elem_of_fmap. setoid_rewrite elem_of_seq. split.
  - intros (n & -> & Hn). lia.
  - intros Hz. exists (Z.to_nat z). lia.
Qed.

Lemma elem_of_all_squares s : s ∈ all_squares <-> on_board s = true.
Proof.
  destruct s as [f r]. unfold all_squares, on_board. rewrite list_elem_of_bind.
  rewrite andb_true_iff, !bool_decide_eq_true. cbn [fst snd]. split.
  - intros (r' & Hin & Hr'%elem_of_coords8). apply list_elem_of_fmap in Hin as (f' & [= -> ->] & Hf).
    apply elem_of_coords8 in Hf. done.
  - intros [Hf Hr]. exists r. split; [|by apply elem_of_coords8].
    apply list_elem_of_fmap. exists f. split; [done|]. by apply elem_of_coords8.
Qed.

Lemma NoDup_all_squares : NoDup all_squares.
Proof. apply (bool_decide_unpack _). vm_compute. reflexivity. Qed.

Lemma coords8_lookup z : (0 <= z < 8)%Z -> coords8 !! Z.to_nat z = Some z.
Proof.
  intros Hz. unfold coords8. rewrite list_lookup_fmap, lookup_seq_lt by lia. simpl. f_equal. lia.
Qed.

Lemma fmap_Some_eq {A B} (g : A -> B) x : g <$> Some x = Some (g x).
Proof. reflexivity. Qed.

Lemma cell_serialize b s : on_board s = true -> cell (serialize b) s = occupant b s.
Proof.
  destruct s as [f r]. unfold cell. intros Hs. rewrite Hs. unfold on_board in Hs.
  rewrite andb_true_iff, !bool_decide_eq_true in Hs. destruct Hs as [Hf Hr]. cbn [fst snd] in *.
  unfold serialize. cbn [grid]. rewrite list_lookup_fmap, (coords8_lookup r Hr), fmap_Some_eq.
  cbv beta iota. rewrite list_lookup_fmap, (coords8_lookup f Hf), fmap_Some_eq. reflexivity.
Qed.

Lemma keys_all_squares sn : ((fun s => (s, cell sn s)) <$> all_squares).*1 = all_squares.
Proof. rewrite <- list_fmap_compose. apply list_fmap_id. Qed.

Lemma deserialize_lookup sn s : squares (deserialize sn) !! s = cell sn s.
Proof.
  unfold deserialize. cbn [squares]. rewrite lookup_omap.
  destruct (on_board s) eqn:Hs.
  - rewrite (elem_of_list_to_map_1 _ s (cell sn s)); [done|..].
    + rewrite keys_all_squares. apply NoDup_all_squares.
    + apply list_elem_of_fmap. exists s. split; [done|]. by apply elem_of_all_squares.
  - rewrite not_elem_of_list_to_map_1; [unfold cell; by rewrite Hs|].
    rewrite keys_all_squares, elem_of_all_squares. by rewrite Hs.
Qed.

Lemma squares_deserialize_serialize b :
  squares_on_board b -> squares (deserialize (serialize b)) = squares b.
Proof.
  intros Hb. apply map_eq. intros s. rewrite deserialize_lookup.
  destruct (on_board s) eqn:Hs; [by apply cell_serialize|].
  unfold cell. rewrite Hs. destruct (squares b !! s) as [p|] eqn:Hp; [|done].
  by rewrite (Hb s p Hp) in Hs.
Qed.

(** Serialising then deserialising gives back the board itself when its
    pieces stand on the board. *)
Lemma snapshot_roundtrip b : squares_on_board b -> deserialize (serialize b) = b.
Proof.
  intros Hb. pose proof (squares_deserialize_serialize b Hb) as E.
  destruct b as [m side ep r h f]. unfold deserialize in *. cbn [squares] in E.
  rewrite E. reflexivity.
Qed.

(** The round-trip law of section 8: for every board reachable from
    the initial position by accepted moves, deserialising its snapshot
    gives back exactly that board, occupancy, side to move, en-passant
    target, castling rights and counters. *)
Theorem reachable_snapshot_roundtrip w bl ms s :
  Session.play (Session.createSession w bl) ms = inr s ->
  deserialize (serialize (Session.board_of s)) = Session.board_of s.
Proof.
  intros Hr. apply snapshot_roundtrip.
  exact (Session.wf_on_board _ (Session.play_wf _ _ _ (Session.createSession_wf w bl) Hr)).
Qed.

(** ** Witnesses *)

Lemma reachable_snapshot_roundtrip_witness :
  exists s, Session.play (Session.createSession "alice" "bob") Session.fools_mate = inr s /\
            deserialize (serialize (Session.board_of s)) = Session.board_of s.
Proof.
  destruct (inr_eval (Session.play (Session.createSession "alice" "bob") Session.fools_mate)
              (fun _ => True)) as (s & E & _); [vm_compute; exact I|].
  exists s. split; [done|]. exact (reachable_snapshot_roundtrip "alice" "bob" Session.fools_mate s E).
Defined.

End Snapshot.
