(* ===== verification/EngineRegistry.v ===== *)
(** * EngineRegistry: the session registry (spec sections 2, 3, 5 and 6)

    The registry maps session identifiers to game sessions and each
    authenticated identity to its binding: the session it plays in and its
    colour.  [createSession] allocates the identifier ["game-<n>"] from a
    counter, stores a fresh session and binds both players; [submitMove]
    resolves the identifier ([SessionNotFound] when it names no session),
    runs the session's transition and stores the result, returning the
    snapshot and status of section 6.  [submitFor] is the transport's
    entry: the colour is the one the caller's binding gives for that
    session. *)

From S2P Require Import Prelude EngineBoard EngineMoves EngineRules EngineSession EngineSnapshot.

Module Registry.
Import Board Rules Session Snapshot.

Record registry := mkRegistry {
  sessions : gmap string session;
  bindings : gmap string (string * color);
  next_id : nat
}.

Definition empty_registry : registry := mkRegistry ∅ ∅ 0.

Definition session_id (n : nat) : string := "game-" +:+ pretty n.

(** [createSession(whiteId, blackId) -> sessionId] *)
Definition createSession (white black : string) (r : registry) : string * registry :=
  let id := session_id (next_id r) in
  (id, mkRegistry (<[id := Session.createSession white black]> (sessions r))
                  (<[white := (id, White)]> (<[black := (id, Black)]> (bindings r)))
                  (S (next_id r))).

(** [submitMove(sessionId, color, move)] at the boundary: the result is
    the new registry with the snapshot and status, or the error. *)
Definition submitMove (r : registry) (sid : string) (c : color) (pr : proposal)
  : move_error + (registry * (snapshot * status)) :=
  match sessions r !! sid with
  | None => inl SessionNotFound
  | Some s =>
      match Session.submitMove s c pr with
      | inl e => inl e
      | inr s' => inr (mkRegistry (<[sid := s']> (sessions r)) (bindings r) (next_id r),
                       (serialize (board_of s'), game_status s'))
      end
  end.

(** The transport's call on behalf of [user]: a user with no binding to
    [sid] is told the session is not found. *)
Definition submitFor (r : registry) (user sid : string) (pr : proposal)
  : move_error + (registry * (snapshot * status)) :=
  match bindings r !! user with
  | Some (sid', c) => if decide (sid' = sid) then submitMove r sid c pr else inl SessionNotFound
  | None => inl SessionNotFound
  end.

(** The operations the transport performs on the registry, in the order
    the per-session serialisation of section 5 delivers them. *)
Inductive op :=
  | OpCreate (white black : string)
  | OpSubmit (sid : string) (c : color) (pr : proposal).

Definition apply_op (r : registry) (o : op) : registry :=
  match o with
  | OpCreate w b => (createSession w b r).2
  | OpSubmit sid c pr =>
      match submitMove r sid c pr with
      | inr (r', _) => r'
      | inl _ => r
      end
  end.

Definition run_ops (r : registry) (os : list op) : registry := fold_left apply_op os r.

(** Every stored session has an identifier the counter has handed out. *)
Definition registry_wf (r : registry) : Prop :=
  forall id s, sessions r !! id = Some s -> exists n, n < next_id r /\ id = session_id n.

(** ** Properties *)

Lemma session_id_inj n m : session_id n = session_id m -> n = m.
Proof. unfold session_id. cbv [String.append]. intros [= H]. by apply (inj pretty). Qed.

Lemma session_submit_not_found s c pr : Session.submitMove s c pr <> inl SessionNotFound.
Proof.
  unfold Session.submitMove. repeat case_match; try discriminate; done.
Qed.

Lemma empty_registry_wf : registry_wf empty_registry.
Proof. intros id s. unfold empty_registry. cbn [sessions]. by rewrite lookup_empty. Qed.

Lemma registry_createSession_wf w b r : registry_wf r -> registry_wf (createSession w b r).2.
Proof.
  intros Hr id s. simpl. rewrite lookup_insert.
  case_decide as Hid; [intros _; exists (next_id r); split; [lia | done]|].
  intros (n & ? & ->)%Hr. exists n. split; [lia | done].
Qed.

Lemma submitMove_registry_wf r sid c pr r' out :
  registry_wf r -> submitMove r sid c pr = inr (r', out) -> registry_wf r'.
Proof.
  unfold submitMove. intros Hr E.
  destruct (sessions r !! sid) as [s|] eqn:Hs; [|done].
  destruct (Session.submitMove s c pr) as [|s']; [done|]. injection E as <- _.
  intros id t. simpl. rewrite lookup_insert. case_decide; [subst; intros _; eauto|eauto].
Qed.

(** What a successful submission returns: the snapshot and status of the
    session it stores. *)
Lemma submitMove_out r sid c pr r' sn st :
  submitMove r sid c pr = inr (r', (sn, st)) ->
  exists s', sessions r' !! sid = Some s' /\ sn = serialize (board_of s') /\ st = game_status s'.
Proof.
  unfold submitMove. destruct (sessions r !! sid); [|done].
  destruct (Session.submitMove _ c pr) as [|s']; [done|]. intros [= <- <- <-].
  exists s'. cbn [sessions]. by rewrite lookup_insert_eq.
Qed.

Lemma submitFor_out r u sid pr r' sn st :
  submitFor r u sid pr = inr (r', (sn, st)) ->
  exists s', sessions r' !! sid = Some s' /\ sn = serialize (board_of s') /\ st = game_status s'.
Proof. unfold submitFor. repeat case_match; try done. apply submitMove_out. Qed.

(** A submission to one session leaves every other session and all
    bindings as they were (section 5: sessions are independent); the
    session it names takes the result of its transition, and the caller
    receives that session's snapshot and status. *)
Theorem registry_submit_isolated r sid c pr r' out :
  submitMove r sid c pr = inr (r', out) ->
  (forall sid', sid' <> sid -> sessions r' !! sid' = sessions r !! sid') /\
  bindings r' = bindings r /\
  exists s s', sessions r !! sid = Some s /\ Session.submitMove s c pr = inr s' /\
    sessions r' !! sid = Some s' /\ out = (serialize (board_of s'), game_status s').
Proof.
  unfold submitMove. destruct (sessions r !! sid) as [s|] eqn:Hs; [|done].
  destruct (Session.submitMove s c pr) as [|s'] eqn:E; [done|]. intros [= <- <-]. simpl.
  split; [intros; by rewrite lookup_insert_ne|]. split; [done|].
  exists s, s'. by rewrite lookup_insert_eq.
Qed.

(** The errors at the boundary: [SessionNotFound] exactly when the
    identifier names no session; otherwise the session's own validation
    error, passed on verbatim. *)
Theorem registry_submit_errors r sid c pr e :
  submitMove r sid c pr = inl e <->
  (sessions r !! sid = None /\ e = SessionNotFound) \/
  (exists s, sessions r !! sid = Some s /\ Session.submitMove s c pr = inl e /\ e <> SessionNotFound).
Proof.
  unfold submitMove. destruct (sessions r !! sid) as [s|]; [|naive_solver].
  pose proof (session_submit_not_found s c pr) as Hnf.
  destruct (Session.submitMove s c pr) as [e'|s'] eqn:E; split.
  - intros [= <-]. right. exists s. split; [done|]. split; [done|]. intros ->. by apply Hnf.
  - intros [[Hn _]|(s0 & [= <-] & E0 & _)]; [discriminate|]. congruence.
  - discriminate.
  - intros [[Hn _]|(s0 & [= <-] & E0 & _)]; [discriminate|]. congruence.
Qed.

(** [createSession] hands out an identifier no stored session has,
    stores the initial game under it, leaves the other sessions alone and
    binds the white player, and the black one when they differ. *)
Theorem createSession_fresh w b r id r' :
  registry_wf r -> createSession w b r = (id, r') ->
  sessions r !! id = None /\ sessions r' !! id = Some (Session.createSession w b) /\
  (forall id', id' <> id -> sessions r' !! id' = sessions r !! id') /\
  bindings r' !! w = Some (id, White) /\ (w <> b -> bindings r' !! b = Some (id, Black)) /\
  registry_wf r'.
Proof.
  intros Hr E. pose proof (registry_createSession_wf w b r Hr) as Hwf. rewrite E in Hwf.
  injection E as <- <-. simpl. split.
  - destruct (sessions r !! _) as [s|] eqn:Hs; [|done].
    destruct (Hr _ _ Hs) as (n & Hn & Heq%session_id_inj). lia.
  - split; [by rewrite lookup_insert_eq|]. split; [intros; by rewrite lookup_insert_ne|].
    split; [by rewrite lookup_insert_eq|]. split; [|done].
    intros Hwb. rewrite lookup_insert_ne by done. by rewrite lookup_insert_eq.
Qed.

(** Every stored session is one a game reaches from its initial position. *)
Definition sessions_reachable (r : registry) : Prop :=
  forall id s, sessions r !! id = Some s ->
  exists w b ms, play (Session.createSession w b) ms = inr s.

Lemma apply_op_reachable r o : sessions_reachable r -> sessions_reachable (apply_op r o).
Proof.
  intros Hr. destruct o as [w b|sid c pr]; simpl.
  - intros id s. simpl. rewrite lookup_insert. case_decide; [|apply Hr].
    intros [= <-]. by exists w, b, [].
  - destruct (submitMove r sid c pr) as [|[r' out]] eqn:E; [done|].
    unfold submitMove in E. destruct (sessions r !! sid) as [s0|] eqn:Hs0; [|done].
    destruct (Session.submitMove s0 c pr) as [|s1] eqn:E1; [done|]. injection E as <- _.
    intros id s. simpl. rewrite lookup_insert. case_decide; [|apply Hr].
    intros [= <-]. destruct (Hr _ _ Hs0) as (w & b & ms & Hp).
    exists w, b, (ms ++ [(c, pr)]). by eapply play_snoc.
Qed.

Lemma empty_registry_reachable : sessions_reachable empty_registry.
Proof. intros id s. unfold empty_registry. cbn [sessions]. by rewrite lookup_empty. Qed.

Lemma run_ops_reachable r os : sessions_reachable r -> sessions_reachable (run_ops r os).
Proof.
  unfold run_ops. revert r. induction os as [|o os IH]; simpl; [done|].
  eauto using apply_op_reachable.
Qed.

(** The sessions of a registry whose sessions are all reachable are well
    formed and survive the snapshot round trip. *)
Lemma reachable_sessions_wf r id s :
  sessions_reachable r -> sessions r !! id = Some s ->
  session_wf s /\ deserialize (serialize (board_of s)) = board_of s.
Proof.
  intros Hr Hs. destruct (Hr id s Hs) as (w & b & ms & Hp).
  pose proof (play_wf _ _ _ (Session.createSession_wf w b) Hp) as Hwf.
  split; [done|]. apply snapshot_roundtrip, Hwf.
Qed.

(** Whatever sequence of creations and submissions the transport
    performs from the empty registry, every stored session is well formed
    (turn, counters, repetition keys, pieces on the board, status) and its
    board survives the snapshot round trip. *)
Theorem run_ops_sessions_wf os id s :
  sessions (run_ops empty_registry os) !! id = Some s ->
  session_wf s /\ deserialize (serialize (board_of s)) = board_of s.
Proof. apply reachable_sessions_wf, run_ops_reachable, empty_registry_reachable. Qed.

(** ** Witnesses *)

(** A registry holding one game, ["game-0"], between alice and bob. *)
Definition one_game : registry := (createSession "alice" "bob" empty_registry).2.

Lemma registry_submit_isolated_witness :
  exists r' out, submitMove one_game "game-0" White e2e4 = inr (r', out) /\
  (forall sid', sid' <> "game-0" -> sessions r' !! sid' = sessions one_game !! sid') /\
  bindings r' = bindings one_game /\
  exists s s', sessions one_game !! "game-0" = Some s /\ Session.submitMove s White e2e4 = inr s' /\
    sessions r' !! "game-0" = Some s' /\ out = (serialize (board_of s'), game_status s').
Proof.
  destruct (inr_eval (submitMove one_game "game-0" White e2e4) (fun _ => True))
    as ([r' out] & E & _); [vm_compute; exact I|].
  exists r', out. split; [done|]. exact (registry_submit_isolated _ _ _ _ _ _ E).
Defined.

Lemma createSession_fresh_witness :
  sessions empty_registry !! "game-0" = None /\
  sessions one_game !! "game-0" = Some (Session.createSession "alice" "bob") /\
  (forall id', id' <> "game-0" -> sessions one_game !! id' = sessions empty_registry !! id') /\
  bindings one_game !! "alice" = Some ("game-0", White) /\
  ("alice" <> "bob" -> bindings one_game !! "bob" = Some ("game-0", Black)) /\
  registry_wf one_game.
Proof.
  apply (createSession_fresh "alice" "bob" empty_registry "game-0" one_game);
    [intros id s Hs; vm_compute in Hs; discriminate | reflexivity].
Defined.

Definition two_ops : list op := [OpCreate "alice" "bob"; OpSubmit "game-0" White e2e4].

Lemma run_ops_sessions_wf_witness :
  exists s, sessions (run_ops empty_registry two_ops) !! "game-0" = Some s /\
            session_wf s /\ deserialize (serialize (board_of s)) = board_of s.
Proof.
  destruct (some_eval (sessions (run_ops empty_registry two_ops) !! "game-0")) as (s & E);
    [vm_compute; exact I|].
  exists s. split; [exact E|]. exact (run_ops_sessions_wf two_ops "game-0" s E).
Defined.

End Registry.
