(* ===== verification/Integration.v ===== *)
(** * Integration: the client against the server's [/api/move] contract

    [App.js] posts [{ from, to }] to [/api/move] and stores
    [response.data] as [game]; its render passes [game.board] to
    [ChessBoard], which reads [board[row][col]] and draws a [ChessPiece]
    from each truthy cell's [name] and [color].  The class [MoveServer]
    is the server as the client sees it: a state and a function from a
    request to a new state and an outcome.  [MoveServerLaws] is what the
    client needs from it: a resolved move response carries, under
    [data.board], eight rows of eight cells, each [null] or
    [{ name, color }].

    [deliver] is the network: it settles the client's oldest pending
    request with the server's answer.  The client theorem
    [move_roundtrip_renders] is proved against the laws only; the engine
    of the [Engine*] files is an instance ([EngineServer]), and the
    end-to-end theorem shows that the squares the client draws are the
    engine's pieces.  [deliver_n] runs the network for several deliveries;
    [serve_requests] serves the requests of several callers in order, and
    [clients_play_session] shows that the two players' clients drive the
    session exactly as [Session.play] does. *)

From S2P Require Import Prelude JsValue ChessPiece ChessBoard App.
From S2P Require Import EngineBoard EngineMoves EngineRules EngineSession EngineSnapshot EngineRegistry.

Module Integration.

(** ** The contract *)

Definition cell_ok (v : jsval) : Prop :=
  v = JNull \/ exists n c, v = JObj [("name", JStr n); ("color", JStr c)].

(** An array of eight rows, each an array of eight cells satisfying [P]:
    what [board[row][col]] reads for [row, col < 8]. *)
Definition grid_of (P : jsval -> Prop) (g : jsval) : Prop :=
  exists rows, g = JArr rows /\ length rows = 8 /\
  Forall (fun row => exists cells, row = JArr cells /\ length cells = 8 /\ Forall P cells) rows.

Definition grid_ok : jsval -> Prop := grid_of cell_ok.

Class MoveServer (S : Type) := serve : S -> App.request -> S * App.outcome.

Class MoveServerLaws (S : Type) `{MoveServer S} := {
  serve_move_board srv req srv' resp :
    App.req_url req = "/api/move" -> serve srv req = (srv', App.Resolved resp) ->
    exists d g, js_get resp "data" = JsOk d /\ js_get d "board" = JsOk g /\ grid_ok g
}.

(** The network: the oldest pending request is answered by the server and
    settled in the client. *)
Definition deliver {S} `{MoveServer S} (sc : App.scope) (x : S * App.state) : S * App.state :=
  match App.pending x.2 with
  | (id, _) :: _ =>
      match App.requests x.2 !! id with
      | Some req => let '(srv', o) := serve x.1 req in (srv', App.settle sc id o x.2)
      | None => x
      end
  | [] => x
  end.

(** The network run for [n] deliveries: each answers and settles the
    oldest pending request. *)
Fixpoint deliver_n {S} `{MoveServer S} (sc : App.scope) (n : nat) (x : S * App.state) : S * App.state :=
  match n with
  | O => x
  | Datatypes.S n' => deliver_n sc n' (deliver sc x)
  end.

(** ** The client side, against the contract *)

Lemma grid_ok_rows g r :
  grid_ok g -> r < 8 -> exists cells, js_index g r = JsOk (JArr cells).
Proof.
  intros (rows & -> & Hlen & Hrows) Hr. rewrite js_index_arr.
  destruct (lookup_lt_is_Some_2 rows r) as [row Hrow]; [lia|].
  rewrite Hrow. simpl. rewrite Forall_lookup in Hrows.
  destruct (Hrows r row Hrow) as (cells & -> & _). eauto.
Qed.

Lemma renderBoard_grid_ok g opc osc :
  grid_ok g -> exists sqs, ChessBoard.renderBoard (ChessBoard.mkProps g opc osc) = JsOk sqs.
Proof.
  intros Hg. ChessBoard.render_traversal. apply js_mapM_ok_all.
  intros [r c] Hrc%ChessBoard.board_coords_In. apply ChessBoard.renderSquare_ok_iff.
  unfold ChessBoard.row_readable. cbn [ChessBoard.board fst].
  destruct (grid_ok_rows g r Hg ltac:(lia)) as (cells & ->). done.
Qed.

(** The request [handleMove] posts. *)
Definition move_request (from to : jsval) : App.request :=
  App.mkRequest "/api/move" (JObj [("from", from); ("to", to)]).

(** The client after [handleMove(from, to)] and the delivery of the answer. *)
Definition after_move {S} `{MoveServer S} (sc : App.scope) (srv : S) (st : App.state) (from to : jsval)
  : S * App.state :=
  deliver sc (srv, App.step sc st (App.EMove from to)).

Lemma after_move_settles {S} `{MoveServer S} u0 g0 srv st from to :
  App.pending st = [] ->
  after_move (App.with_state u0 g0) srv st from to
  = let '(srv', o) := serve srv (move_request from to) in
    (srv', App.resume (App.with_state u0 g0) App.HMove o
             (App.mkState (App.user st) (App.game st) (App.requests st ++ [move_request from to])
                          [] (App.console st))).
Proof.
  intros Hp. unfold after_move, deliver. cbn [App.step App.handleMove App.post App.axios_imported
    App.with_state App.pending App.requests snd fst]. rewrite Hp. cbn [app].
  rewrite list_lookup_middle by done. fold (move_request from to).
  destruct (serve srv (move_request from to)) as [srv' o]. unfold App.settle. cbn [App.pending].
  cbn [App.take_pending]. by rewrite decide_True.
Qed.

(** Two moves posted by a logged-in client with nothing in flight. *)
Lemma post_two_moves u0 g0 st f1 t1 f2 t2 :
  App.pending st = [] ->
  App.run (App.with_state u0 g0) st [App.EMove f1 t1; App.EMove f2 t2]
  = App.mkState (App.user st) (App.game st) (App.requests st ++ [move_request f1 t1; move_request f2 t2])
      [(length (App.requests st), App.HMove); (Datatypes.S (length (App.requests st)), App.HMove)]
      (App.console st).
Proof. exact (App.run_two_moves u0 g0 st f1 t1 f2 t2). Qed.

Lemma lookup_second {A} (l : list A) a b : (l ++ [a; b]) !! Datatypes.S (length l) = Some b.
Proof. rewrite lookup_app_r by lia. by replace (Datatypes.S (length l) - length l) with 1 by lia. Qed.

Lemma resume_move_resolved u0 g0 resp d st :
  js_get resp "data" = JsOk d ->
  App.resume (App.with_state u0 g0) App.HMove (App.Resolved resp) st
  = App.mkState (App.user st) d (App.requests st) (App.pending st) (App.console st).
Proof. intros Hd. unfold App.resume. by rewrite Hd. Qed.

Section client.
Context {S : Type} `{MoveServerLaws S}.

(** (C3) Against any server that keeps the [/api/move] contract: after the
    logged-in client posts a move and the answer arrives, a resolved answer
    makes the app render the board view, whose [ChessBoard] renders its 64
    squares without throwing; a rejected one leaves [game] unchanged and
    logs ["Invalid move:"] with the reason. *)
Theorem move_roundtrip_renders (u0 g0 : jsval) (srv : S) (st : App.state) (from to : jsval) :
  js_truthy (App.user st) = true -> App.pending st = [] ->
  let x := after_move (App.with_state u0 g0) srv st from to in
  match (serve srv (move_request from to)).2 with
  | App.Resolved _ =>
      exists o p sqs, App.render (App.with_state u0 g0) x.2 = JsOk (App.BoardView o) /\
        ChessBoard.props_of o = JsOk p /\ ChessBoard.renderBoard p = JsOk sqs /\ length sqs = 64
  | App.Rejected reason =>
      App.game x.2 = App.game st /\
      last (App.console x.2) = Some (App.mkLog "Invalid move:" (App.ThrownValue reason))
  end.
Proof.
  intros Hu Hp. simpl. rewrite (after_move_settles u0 g0 srv st from to Hp).
  destruct (serve srv (move_request from to)) as [srv' [resp|reason]] eqn:Hs; simpl.
  - destruct (serve_move_board srv (move_request from to) srv' resp eq_refl Hs) as (d & g & Hd & Hg & Hgrid).
    rewrite Hd. unfold App.render, App.set_state. cbn [App.state_hooks App.with_state App.user App.game].
    rewrite Hu, Hg. simpl.
    destruct (renderBoard_grid_ok g (inherited "onPieceClick") (inherited "onSquareClick") Hgrid)
      as [sqs Hsqs].
    eexists _, (ChessBoard.mkProps g (inherited "onPieceClick") (inherited "onSquareClick")), sqs.
    split; [reflexivity|]. split; [reflexivity|]. split; [done|].
    exact (ChessBoard.renderBoard_length _ sqs Hsqs).
  - split; [done|]. by rewrite last_snoc.
Qed.

Lemma take_pending_head id h ps : App.take_pending id ((id, h) :: ps) = Some (h, ps).
Proof. simpl. by rewrite decide_True. Qed.

End client.

(** ** The engine as the server *)

Section engine.
Import Board MoveGen Rules Session Snapshot Registry.

(** The server's state: the registry, and the identity the authentication
    collaborator has bound to the client's connection. *)
Record engine_server := mkEngineServer { reg : registry; caller : string }.

(** [ChessBoard]'s [position(row, col)] is [[row, col]]; the square is
    [(file, rank) = (col, row)]. *)
Definition square_of (v : jsval) : option square :=
  match v with
  | JArr [JNum row; JNum col] => Some (col, row)
  | _ => None
  end.

(** The body [{ from, to }]; the client sends no promotion. *)
Definition proposal_of (body : jsval) : option proposal :=
  match body with
  | JObj fs =>
      match assoc_lookup "from" fs ≫= square_of, assoc_lookup "to" fs ≫= square_of with
      | Some f, Some t => Some (mkProposal f t None)
      | _, _ => None
      end
  | _ => None
  end.

Definition status_label (st : status) : string :=
  match st with
  | InProgress => "InProgress" | Check _ => "Check" | Checkmate _ => "Checkmate"
  | Stalemate => "Stalemate" | DrawByFiftyMove => "DrawByFiftyMove"
  | DrawByRepetition => "DrawByRepetition"
  | DrawByInsufficientMaterial => "DrawByInsufficientMaterial"
  end.

Definition error_label (e : move_error) : string :=
  match e with
  | NotYourTurn => "NotYourTurn" | GameOver => "GameOver" | IllegalMove => "IllegalMove"
  | InvalidSquare => "InvalidSquare" | SessionNotFound => "SessionNotFound"
  end.

(** The resolved response: [data] is [{ board, status, sideToMove }]. *)
Definition move_response (sn : snapshot) (st : status) : jsval :=
  JObj [("data", JObj [("board", board_json sn); ("status", JStr (status_label st));
                       ("sideToMove", JStr (color_label (snap_side sn)))])].

(** A rejection, as axios reports an error status: the reason carries the
    response. *)
Definition error_response (e : move_error) : jsval :=
  JObj [("response", JObj [("data", JObj [("error", JStr (error_label e))])])].

Definition engine_serve (x : engine_server) (req : App.request) : engine_server * App.outcome :=
  if decide (App.req_url req = "/api/move") then
    match proposal_of (App.req_body req) with
    | None => (x, App.Rejected (error_response InvalidSquare))
    | Some pr =>
        match bindings (reg x) !! caller x with
        | None => (x, App.Rejected (error_response SessionNotFound))
        | Some (sid, _) =>
            match submitFor (reg x) (caller x) sid pr with
            | inl e => (x, App.Rejected (error_response e))
            | inr (r', (sn, st)) => (mkEngineServer r' (caller x), App.Resolved (move_response sn st))
            end
        end
    end
  else (x, App.Rejected (error_response SessionNotFound)).

#[export] Instance engine_move_server : MoveServer engine_server := engine_serve.

Lemma proposal_of_positions row1 col1 row2 col2 :
  proposal_of (App.req_body (move_request (ChessBoard.position row1 col1) (ChessBoard.position row2 col2)))
  = Some (mkProposal (Z.of_nat col1, Z.of_nat row1) (Z.of_nat col2, Z.of_nat row2) None).
Proof. reflexivity. Qed.

(** A rejection leaves the server as it was and carries one of the
    boundary's errors. *)
Lemma engine_serve_rejected x req x' reason :
  engine_serve x req = (x', App.Rejected reason) -> x' = x /\ exists e, reason = error_response e.
Proof. unfold engine_serve. repeat case_match; intros E; simplify_eq; eauto. Qed.

Lemma coords8_lookup_nat n : n < 8 -> coords8 !! n = Some (Z.of_nat n).
Proof. intros Hn. unfold coords8. by rewrite list_lookup_fmap, lookup_seq_lt. Qed.

Lemma board_json_grid_of (P : jsval -> Prop) b :
  (forall o, P (cell_json o)) -> grid_of P (board_json (serialize b)).
Proof.
  intros HP. eexists. split; [reflexivity|]. unfold serialize. cbn [grid]. rewrite !length_fmap.
  split; [reflexivity|]. apply Forall_fmap, Forall_fmap, Forall_forall. intros r _.
  eexists. split; [reflexivity|]. rewrite !length_fmap. split; [reflexivity|].
  apply Forall_fmap, Forall_fmap, Forall_forall. intros f _. apply HP.
Qed.

Lemma board_json_grid_ok b : grid_ok (board_json (serialize b)).
Proof. apply board_json_grid_of. intros [p|]; [right; eauto|by left]. Qed.

(** A resolved answer of the engine carries the snapshot of a board. *)
Lemma engine_serve_board x req x' resp :
  engine_serve x req = (x', App.Resolved resp) ->
  exists b st, resp = move_response (serialize b) st.
Proof.
  unfold engine_serve. repeat case_match; intros E; simplify_eq.
  all: match goal with
  | H : submitFor _ _ _ _ = inr _ |- _ => apply submitFor_out in H as (? & _ & -> & _)
  | H : Registry.submitMove _ _ _ _ = inr _ |- _ => apply Registry.submitMove_out in H as (? & _ & -> & _)
  end; eauto.
Qed.

Lemma engine_serve_resolved x req x' resp :
  engine_serve x req = (x', App.Resolved resp) ->
  exists r' sid c pr s', bindings (reg x) !! caller x = Some (sid, c) /\
    proposal_of (App.req_body req) = Some pr /\
    submitFor (reg x) (caller x) sid pr = inr (r', (serialize (board_of s'), game_status s')) /\
    sessions r' !! sid = Some s' /\ x' = mkEngineServer r' (caller x) /\
    resp = move_response (serialize (board_of s')) (game_status s').
Proof.
  unfold engine_serve. case_decide; [|done].
  destruct (proposal_of _) as [pr|]; [|done]. destruct (bindings _ !! _) as [[sid c]|] eqn:Hb; [|done].
  destruct (submitFor _ _ _ _) as [|[r' [sn st]]] eqn:E; [done|]. intros [= <- <-].
  assert (Hs := E). unfold submitFor in Hs. rewrite Hb, decide_True in Hs by done.
  destruct (submitMove_out _ _ _ _ _ _ _ Hs) as (s' & Hs' & -> & ->).
  exists r', sid, c, pr, s'. done.
Qed.

(** What the client draws on square [(row, col)] for a cell of the engine. *)
Definition expected_child (o : option piece) (row col : nat) : ChessBoard.child :=
  match o with
  | Some p => ChessBoard.PieceChild
                (ChessPiece.mkProps (JStr (kind_label (pkind p))) (JStr (color_label (pcolor p)))
                                    (ChessBoard.position row col))
  | None => ChessBoard.NoChild
  end.

Lemma renderChild_cell_json o row col :
  ChessBoard.renderChild (cell_json o) row col = JsOk (expected_child o row col).
Proof. destruct o; reflexivity. Qed.

Lemma renderSquare_board_json b opc osc row col :
  row < 8 -> col < 8 ->
  exists sq, ChessBoard.renderSquare (ChessBoard.mkProps (board_json (serialize b)) opc osc) row col
             = JsOk sq /\
    ChessBoard.sq_child sq = expected_child (occupant b (Z.of_nat col, Z.of_nat row)) row col.
Proof.
  intros Hr Hc. unfold ChessBoard.renderSquare. cbn [ChessBoard.board].
  unfold board_json, serialize. cbn [grid].
  rewrite js_index_arr, list_lookup_fmap, list_lookup_fmap, coords8_lookup_nat by done.
  rewrite !fmap_Some_eq. cbv beta. cbn [default from_option id]. rewrite js_bind_ok.
  rewrite js_index_arr, list_lookup_fmap, list_lookup_fmap, coords8_lookup_nat by done.
  rewrite !fmap_Some_eq. cbv beta. cbn [default from_option id]. rewrite js_bind_ok.
  rewrite renderChild_cell_json, js_bind_ok. by eexists.
Qed.

Lemma renderBoard_board_json b opc osc :
  exists sqs, ChessBoard.renderBoard (ChessBoard.mkProps (board_json (serialize b)) opc osc) = JsOk sqs /\
  forall row col, row < 8 -> col < 8 -> exists sq, sqs !! (8 * row + col) = Some sq /\
    ChessBoard.sq_child sq = expected_child (occupant b (Z.of_nat col, Z.of_nat row)) row col.
Proof.
  destruct (renderBoard_grid_ok (board_json (serialize b)) opc osc (board_json_grid_ok b))
    as [sqs Hsqs].
  exists sqs. split; [done|]. intros row col Hr Hc. revert Hsqs.
  ChessBoard.render_traversal. rewrite js_mapM_ok. intros H.
  destruct (Forall2_lookup_l _ _ _ (8 * row + col) (row, col) H) as (sq & Hsq & Hrs).
  { rewrite ChessBoard.board_coords_lookup by lia. replace (8 * row + col) with (col + row * 8) by lia.
    rewrite Nat.div_add, Nat.Div0.mod_add, Nat.div_small, Nat.mod_small by lia. done. }
  exists sq. split; [done|]. cbn [fst snd] in Hrs.
  destruct (renderSquare_board_json b opc osc row col Hr Hc) as (sq' & Hsq' & Hchild).
  congruence.
Qed.

(** An accepted request ran the caller's session transition on the
    proposal decoded from the body. *)
Lemma engine_serve_accepted x req x' resp :
  engine_serve x req = (x', App.Resolved resp) ->
  exists sid c pr s s', bindings (reg x) !! caller x = Some (sid, c) /\
    proposal_of (App.req_body req) = Some pr /\ sessions (reg x) !! sid = Some s /\
    Session.submitMove s c pr = inr s' /\ sessions (reg x') !! sid = Some s'.
Proof.
  intros E.
  destruct (engine_serve_resolved _ _ _ _ E) as (r' & sid & c & pr & s' & Hb & Hp & Hf & Hs' & -> & _).
  unfold submitFor in Hf. rewrite Hb, decide_True in Hf by done.
  destruct (registry_submit_isolated _ _ _ _ _ _ Hf) as (_ & _ & s0 & s1 & Hs0 & Hsub & Hs1 & _).
  assert (s1 = s') as -> by congruence.
  exists sid, c, pr, s0, s'. done.
Qed.

(** Once the engine has accepted a move of the caller, the caller is no
    longer to move: its next move request is refused, for its squares or
    for its turn, and leaves the server as it was. *)
Lemma engine_serve_after_accept x req x1 resp req2 :
  engine_serve x req = (x1, App.Resolved resp) -> App.req_url req2 = "/api/move" ->
  exists e, (e = NotYourTurn \/ e = InvalidSquare) /\
    engine_serve x1 req2 = (x1, App.Rejected (error_response e)).
Proof.
  intros E Hurl.
  destruct (engine_serve_resolved _ _ _ _ E) as (r' & sid & c & pr & s' & Hb & _ & Hf & Hs' & -> & _).
  unfold submitFor in Hf. rewrite Hb, decide_True in Hf by done.
  destruct (registry_submit_isolated _ _ _ _ _ _ Hf) as (_ & Hbind & s0 & s1 & _ & Hsub & Hs1 & _).
  assert (s1 = s') as -> by congruence.
  pose proof (submitMove_side _ _ _ _ Hsub) as Hside.
  unfold engine_serve. rewrite decide_True by done.
  destruct (proposal_of (App.req_body req2)) as [pr2|]; [|by exists InvalidSquare; auto].
  cbn [reg caller]. rewrite Hbind, Hb. unfold submitFor. rewrite Hbind, Hb, decide_True by done.
  unfold Registry.submitMove. rewrite Hs'.
  assert (c <> side_to_move (board_of s')) as Hc by (rewrite Hside; apply not_eq_sym, opposite_neq).
  destruct (submitMove_off_turn s' c pr2 Hc) as [-> | ->]; eauto.
Qed.

#[export] Instance engine_move_server_laws : MoveServerLaws engine_server.
Proof.
  split. intros srv req srv' resp _ E.
  apply engine_serve_board in E as (b & st & ->).
  eexists _, _. split; [reflexivity|]. split; [reflexivity|]. apply board_json_grid_ok.
Qed.

(** (C2) End to end: when the engine accepts the move the logged-in client
    posts, the client re-renders the board, and on every square
    [(row, col)] it draws exactly the engine's piece on file [col], rank
    [row] of the session's new board (a [ChessPiece] with its kind and
    colour), and nothing on an empty square. *)
Theorem engine_move_shows_board (x : engine_server) (st : App.state) (u0 g0 from to : jsval)
    (x' : engine_server) (resp : jsval) :
  js_truthy (App.user st) = true -> App.pending st = [] ->
  engine_serve x (move_request from to) = (x', App.Resolved resp) ->
  exists sid s' o p sqs,
    sessions (reg x') !! sid = Some s' /\
    App.render (App.with_state u0 g0) (after_move (App.with_state u0 g0) x st from to).2
      = JsOk (App.BoardView o) /\
    ChessBoard.props_of o = JsOk p /\ ChessBoard.renderBoard p = JsOk sqs /\
    forall row col, row < 8 -> col < 8 -> exists sq, sqs !! (8 * row + col) = Some sq /\
      ChessBoard.sq_child sq = expected_child (occupant (board_of s') (Z.of_nat col, Z.of_nat row)) row col.
Proof.
  intros Hu Hp E. rewrite (after_move_settles u0 g0 x st from to Hp).
  change (serve x (move_request from to)) with (engine_serve x (move_request from to)). rewrite E.
  pose proof E as E'. apply engine_serve_resolved in E' as (r' & sid & c & pr & s' & _ & _ & _ & Hs' & -> & ->).
  destruct (renderBoard_board_json (board_of s') (inherited "onPieceClick") (inherited "onSquareClick"))
    as (sqs & Hsqs & Hchild).
  exists sid, s', (JObj [("board", board_json (serialize (board_of s'))); ("onMove", JFun "handleMove")]),
    (ChessBoard.mkProps (board_json (serialize (board_of s')))
                        (inherited "onPieceClick") (inherited "onSquareClick")), sqs.
  split; [done|]. cbn [snd]. unfold App.resume. cbn [js_get assoc_lookup move_response].
  split; [|split; [reflexivity|split; [done|exact Hchild]]].
  unfold App.render, App.set_state. cbn [App.state_hooks App.with_state App.user App.game].
  rewrite Hu. reflexivity.
Qed.

(** (C5) The engine accepts a move the client posts from [board[row1][col1]]
    to [board[row2][col2]] only as a legal move of the caller's colour
    from file [col1], rank [row1] to file [col2], rank [row2], without
    promotion: it is appended to the session's history and the new board
    is that move applied. *)
Theorem engine_accepts_only_legal x row1 col1 row2 col2 x' resp :
  engine_serve x (move_request (ChessBoard.position row1 col1) (ChessBoard.position row2 col2))
    = (x', App.Resolved resp) ->
  exists sid c s s' m,
    bindings (reg x) !! caller x = Some (sid, c) /\ sessions (reg x) !! sid = Some s /\
    sessions (reg x') !! sid = Some s' /\ m ∈ legalMoves (board_of s) c /\
    mv_from m = (Z.of_nat col1, Z.of_nat row1) /\ mv_to m = (Z.of_nat col2, Z.of_nat row2) /\
    mv_promotion m = None /\ history s' = history s ++ [m] /\
    squares (board_of s') = squares (applyMove (board_of s) m).
Proof.
  intros E. destruct (engine_serve_accepted _ _ _ _ E) as (sid & c & pr & s & s' & Hb & Hpr & Hs & Hsub & Hs').
  rewrite proposal_of_positions in Hpr. injection Hpr as <-.
  apply submitMove_accepted in Hsub as (m & _ & _ & _ & Hf & Hboard & Hh & _).
  apply find_legal_Some in Hf as [Hm (Hfrom & Hto & Hpro)].
  exists sid, c, s, s', m. rewrite Hboard. by repeat split.
Qed.

(** (C6) Through this client a pawn never promotes: the body [{ from, to }]
    names no promotion piece, so the engine answers every move of a pawn of
    the caller's session onto its last rank, straight ahead or capturing,
    with a rejection. *)
Theorem client_cannot_promote x row1 col1 row2 col2 sid c s p :
  bindings (reg x) !! caller x = Some (sid, c) -> sessions (reg x) !! sid = Some s ->
  occupant (board_of s) (Z.of_nat col1, Z.of_nat row1) = Some p -> pkind p = Pawn ->
  Z.of_nat row2 = last_rank (pcolor p) ->
  (col2 = col1 \/ is_empty (board_of s) (Z.of_nat col2, Z.of_nat row2) = false) ->
  forall x' resp,
  engine_serve x (move_request (ChessBoard.position row1 col1) (ChessBoard.position row2 col2))
    <> (x', App.Resolved resp).
Proof.
  intros Hb Hs Hp Hk Hl Hsq x' resp E.
  destruct (engine_serve_accepted _ _ _ _ E) as (sid' & c' & pr & s0 & s' & Hb' & Hpr & Hs0 & Hsub & _).
  rewrite Hb in Hb'. injection Hb' as <- <-. rewrite Hs in Hs0. injection Hs0 as <-.
  rewrite proposal_of_positions in Hpr. injection Hpr as <-.
  apply submitMove_accepted in Hsub as (m & _ & _ & _ & Hf & _).
  apply find_legal_Some in Hf as [Hm (Hfrom & Hto & Hpro)]. simpl in Hfrom, Hto, Hpro.
  apply legalMoves_pseudo in Hm as (p' & Hp' & _ & Hps).
  rewrite Hfrom in Hp', Hps. rewrite Hp in Hp'. injection Hp' as <-.
  apply (pawn_last_rank_promotes _ _ _ _ Hp Hk Hps); [by rewrite Hto | | exact Hpro].
  rewrite Hto. simpl. destruct Hsq as [->|He]; [by left | by right].
Qed.

(** (C7) Progress through the client: when the caller is to move in a game
    that is not over and has a legal move without promotion, there are
    squares [board[row1][col1]] and [board[row2][col2]] whose move the
    client can post and the engine accepts. *)
Theorem client_progress x sid c s m :
  bindings (reg x) !! caller x = Some (sid, c) -> sessions (reg x) !! sid = Some s ->
  squares_on_board (board_of s) -> c = side_to_move (board_of s) -> terminal (game_status s) = false ->
  m ∈ legalMoves (board_of s) c -> mv_promotion m = None ->
  exists row1 col1 row2 col2 x' resp,
    engine_serve x (move_request (ChessBoard.position row1 col1) (ChessBoard.position row2 col2))
    = (x', App.Resolved resp).
Proof.
  intros Hb Hs Hon Hc Ht Hm Hpro.
  destruct (legalMoves_pseudo _ _ _ Hm) as (p & Hp & _).
  pose proof (Hon _ _ Hp) as Hfrom. pose proof (legalMoves_on_board _ _ _ Hm) as Hto.
  destruct m as [[f1 r1] [f2 r2] promo cap ep cs]. simpl in *. subst promo.
  unfold on_board in Hfrom, Hto. simpl in Hfrom, Hto.
  apply andb_prop in Hfrom as [Hf1%bool_decide_eq_true Hr1%bool_decide_eq_true].
  apply andb_prop in Hto as [Hf2%bool_decide_eq_true Hr2%bool_decide_eq_true].
  exists (Z.to_nat r1), (Z.to_nat f1), (Z.to_nat r2), (Z.to_nat f2).
  unfold engine_serve. rewrite decide_True by done. rewrite proposal_of_positions.
  rewrite !Z2Nat.id by lia. rewrite Hb. unfold submitFor. rewrite Hb, decide_True by done.
  unfold Registry.submitMove. rewrite Hs.
  destruct (find_legal (board_of s) c (mkProposal (f1, r1) (f2, r2) None)) as [m'|] eqn:Hf.
  - unfold Session.submitMove. cbn [pr_from pr_to].
    assert (on_board (f1, r1) && on_board (f2, r2) = true) as ->.
    { unfold on_board. simpl. repeat rewrite bool_decide_eq_true_2 by lia. done. }
    simpl. rewrite decide_False by (intros Hne; by apply Hne). rewrite Ht, Hf. eauto.
  - exfalso. apply (proj1 (find_legal_None _ _ _) Hf _ Hm). done.
Qed.

(** (C8) Two moves in flight: when a logged-in client posts two moves
    before any answer and the engine accepts the first, the second is
    refused (the caller is no longer to move, or its squares are off the
    board); once both answers are delivered the client holds the first
    move's [data] as [game] and its last console entry logs the refusal. *)
Theorem second_move_rejected (x : engine_server) (st : App.state) (u0 g0 f1 t1 f2 t2 : jsval)
    (x1 : engine_server) (resp1 : jsval) :
  App.pending st = [] -> engine_serve x (move_request f1 t1) = (x1, App.Resolved resp1) ->
  exists e, (e = NotYourTurn \/ e = InvalidSquare) /\
    js_get resp1 "data"
      = JsOk (App.game (deliver_n (App.with_state u0 g0) 2
                          (x, App.run (App.with_state u0 g0) st [App.EMove f1 t1; App.EMove f2 t2])).2) /\
    last (App.console (deliver_n (App.with_state u0 g0) 2
                         (x, App.run (App.with_state u0 g0) st [App.EMove f1 t1; App.EMove f2 t2])).2)
      = Some (App.mkLog "Invalid move:" (App.ThrownValue (error_response e))).
Proof.
  intros Hp E.
  destruct (engine_serve_after_accept _ _ _ _ (move_request f2 t2) E eq_refl) as (e & He & E2).
  destruct (engine_serve_board _ _ _ _ E) as (b & sb & Hresp).
  exists e. split; [done|]. rewrite post_two_moves by done.
  cbn [deliver_n]. unfold deliver. cbn [App.pending fst snd App.requests].
  rewrite list_lookup_middle by done. change (serve x (move_request f1 t1)) with (engine_serve x (move_request f1 t1)).
  rewrite E. unfold App.settle. cbn [App.pending]. rewrite take_pending_head.
  assert (Hd : js_get resp1 "data" = JsOk (JObj [("board", board_json (serialize b));
            ("status", JStr (status_label sb)); ("sideToMove", JStr (color_label (snap_side (serialize b))))]))
    by (subst resp1; reflexivity).
  rewrite (resume_move_resolved _ _ _ _ _ Hd). cbn [App.pending App.requests fst snd].
  rewrite lookup_second. change (serve x1 (move_request f2 t2)) with (engine_serve x1 (move_request f2 t2)).
  rewrite E2. cbn [snd]. rewrite take_pending_head. cbn [App.resume App.log App.game App.console].
  split; [exact Hd|]. by rewrite last_snoc.
Qed.

(** ** Witnesses *)

Lemma resolved_eval {T} (x : T * App.outcome) :
  match x with (_, App.Resolved _) => True | _ => False end -> exists t r, x = (t, App.Resolved r).
Proof. destruct x as [t [r|r]]; [eauto|done]. Qed.

Lemma rejected_eval {T} (x : T * App.outcome) :
  match x with (_, App.Rejected _) => True | _ => False end -> exists t r, x = (t, App.Rejected r).
Proof. destruct x as [t [r|r]]; [done|eauto]. Qed.

(** alice, logged in, plays white in ["game-0"] and moves e2-e4: from
    [board[1][4]] to [board[3][4]]. *)
Definition alice_server : engine_server := mkEngineServer one_game "alice".
Definition alice_client : App.state := App.mkState (JStr "alice") JNull [] [] [].
Definition e2_js : jsval := ChessBoard.position 1 4.
Definition e4_js : jsval := ChessBoard.position 3 4.

Lemma move_roundtrip_renders_witness :
  let x := after_move (App.with_state JNull JNull) alice_server alice_client e2_js e4_js in
  match (serve alice_server (move_request e2_js e4_js)).2 with
  | App.Resolved _ =>
      exists o p sqs, App.render (App.with_state JNull JNull) x.2 = JsOk (App.BoardView o) /\
        ChessBoard.props_of o = JsOk p /\ ChessBoard.renderBoard p = JsOk sqs /\ length sqs = 64
  | App.Rejected reason =>
      App.game x.2 = App.game alice_client /\
      last (App.console x.2) = Some (App.mkLog "Invalid move:" (App.ThrownValue reason))
  end.
Proof. apply (move_roundtrip_renders JNull JNull alice_server alice_client e2_js e4_js); reflexivity. Defined.

Lemma engine_move_shows_board_witness :
  exists x' resp, engine_serve alice_server (move_request e2_js e4_js) = (x', App.Resolved resp) /\
  exists sid s' o p sqs,
    sessions (reg x') !! sid = Some s' /\
    App.render (App.with_state JNull JNull)
      (after_move (App.with_state JNull JNull) alice_server alice_client e2_js e4_js).2
      = JsOk (App.BoardView o) /\
    ChessBoard.props_of o = JsOk p /\ ChessBoard.renderBoard p = JsOk sqs /\
    forall row col, row < 8 -> col < 8 -> exists sq, sqs !! (8 * row + col) = Some sq /\
      ChessBoard.sq_child sq = expected_child (occupant (board_of s') (Z.of_nat col, Z.of_nat row)) row col.
Proof.
  destruct (resolved_eval (engine_serve alice_server (move_request e2_js e4_js)))
    as (x' & resp & E); [vm_compute; exact I|].
  exists x', resp. split; [exact E|].
  exact (engine_move_shows_board alice_server alice_client JNull JNull e2_js e4_js x' resp
           eq_refl eq_refl E).
Defined.

Lemma client_progress_witness :
  exists row1 col1 row2 col2 x' resp,
    engine_serve alice_server (move_request (ChessBoard.position row1 col1) (ChessBoard.position row2 col2))
    = (x', App.Resolved resp).
Proof.
  apply (client_progress alice_server "game-0" White (Session.createSession "alice" "bob") (plain (4, 1) (4, 3) false)%Z);
    [vm_compute; reflexivity | vm_compute; reflexivity | | reflexivity | reflexivity |
     apply (bool_decide_unpack _); vm_compute; reflexivity | reflexivity].
  unfold squares_on_board. apply map_Forall_to_list. vm_compute. repeat constructor.
Defined.

Lemma engine_accepts_only_legal_witness :
  exists x' resp, engine_serve alice_server (move_request e2_js e4_js) = (x', App.Resolved resp) /\
  exists sid c s s' m,
    bindings (reg alice_server) !! caller alice_server = Some (sid, c) /\
    sessions (reg alice_server) !! sid = Some s /\
    sessions (reg x') !! sid = Some s' /\ m ∈ legalMoves (board_of s) c /\
    mv_from m = (Z.of_nat 4, Z.of_nat 1) /\ mv_to m = (Z.of_nat 4, Z.of_nat 3) /\
    mv_promotion m = None /\ history s' = history s ++ [m] /\
    squares (board_of s') = squares (applyMove (board_of s) m).
Proof.
  destruct (resolved_eval (engine_serve alice_server (move_request e2_js e4_js)))
    as (x' & resp & E); [vm_compute; exact I|].
  exists x', resp. split; [exact E|]. exact (engine_accepts_only_legal alice_server 1 4 3 4 x' resp E).
Defined.

(** A white pawn on a7 with a8 empty, in alice's game. *)
Definition promo_board : board :=
  mkBoard (list_to_map [((4, 0)%Z, mkPiece King White true); ((4, 7)%Z, mkPiece King Black true);
                        ((0, 6)%Z, mkPiece Pawn White true)])
          White None (mkCastling false false false false) 0 40.

Definition promo_server : engine_server :=
  mkEngineServer
    (mkRegistry {["game-0" := mkSession promo_board [] [key_of promo_board] "alice" "bob" InProgress]}
                {["alice" := ("game-0", White)]} 1)
    "alice".

Lemma client_cannot_promote_witness :
  match engine_serve promo_server (move_request (ChessBoard.position 6 0) (ChessBoard.position 7 0)) with
  | (_, App.Resolved _) => False
  | (_, App.Rejected _) => True
  end.
Proof.
  assert (H := client_cannot_promote promo_server 6 0 7 0 "game-0" White
           (mkSession promo_board [] [key_of promo_board] "alice" "bob" InProgress)
           (mkPiece Pawn White true)
           ltac:(vm_compute; reflexivity) ltac:(vm_compute; reflexivity) ltac:(vm_compute; reflexivity)
           eq_refl eq_refl (or_introl eq_refl)).
  destruct (engine_serve _ _) as [x' [resp|r]]; [exact (H x' resp eq_refl)|exact I].
Defined.

(** bob, who plays black, moves e7-e5 before white has moved. *)
Definition bob_server : engine_server := mkEngineServer one_game "bob".
Definition bob_client : App.state := App.mkState (JStr "bob") JNull [] [] [].
Definition e7_js : jsval := ChessBoard.position 6 4.
Definition e5_js : jsval := ChessBoard.position 4 4.

Lemma second_move_rejected_witness :
  exists x1 resp1, engine_serve alice_server (move_request e2_js e4_js) = (x1, App.Resolved resp1) /\
  exists e, (e = NotYourTurn \/ e = InvalidSquare) /\
    js_get resp1 "data"
      = JsOk (App.game (deliver_n (App.with_state JNull JNull) 2
                (alice_server, App.run (App.with_state JNull JNull) alice_client
                                 [App.EMove e2_js e4_js; App.EMove e7_js e5_js])).2) /\
    last (App.console (deliver_n (App.with_state JNull JNull) 2
                (alice_server, App.run (App.with_state JNull JNull) alice_client
                                 [App.EMove e2_js e4_js; App.EMove e7_js e5_js])).2)
      = Some (App.mkLog "Invalid move:" (App.ThrownValue (error_response e))).
Proof.
  destruct (resolved_eval (engine_serve alice_server (move_request e2_js e4_js)))
    as (x1 & resp1 & E); [vm_compute; exact I|].
  exists x1, resp1. split; [exact E|].
  exact (second_move_rejected alice_server alice_client JNull JNull e2_js e4_js e7_js e5_js x1 resp1
           eq_refl E).
Defined.

(** The server after answering a sequence of requests, in order. *)
Definition serve_all (x : engine_server) (reqs : list App.request) : engine_server :=
  fold_left (fun x req => (engine_serve x req).1) reqs x.

Lemma engine_serve_reachable x req :
  sessions_reachable (reg x) -> sessions_reachable (reg (engine_serve x req).1).
Proof.
  intros Hr. destruct (engine_serve x req) as [x' [resp|reason]] eqn:E.
  - destruct (engine_serve_resolved _ _ _ _ E) as (r' & sid & c & pr & s' & Hb & _ & Hf & _ & -> & _).
    unfold submitFor in Hf. rewrite Hb, decide_True in Hf by done.
    replace r' with (apply_op (reg x) (OpSubmit sid c pr)) by (simpl; by rewrite Hf).
    by apply apply_op_reachable.
  - by destruct (engine_serve_rejected _ _ _ _ E) as [-> _].
Qed.

Lemma serve_all_reachable x reqs :
  sessions_reachable (reg x) -> sessions_reachable (reg (serve_all x reqs)).
Proof.
  unfold serve_all. revert x. induction reqs as [|req reqs IH]; intros x Hx; simpl; [done|].
  apply IH, engine_serve_reachable, Hx.
Qed.

(** (C13) Whatever requests clients send, in whatever order, to a server whose
    games were created by the registry: every session the server stores
    stays well formed and its board survives the snapshot round trip. *)
Theorem served_sessions_wf os user reqs id s :
  sessions (reg (serve_all (mkEngineServer (run_ops empty_registry os) user) reqs)) !! id = Some s ->
  session_wf s /\ deserialize (serialize (board_of s)) = board_of s.
Proof.
  intros Hs. eapply reachable_sessions_wf; [|exact Hs].
  apply serve_all_reachable. simpl. apply run_ops_reachable, empty_registry_reachable.
Qed.

Lemma served_sessions_wf_witness :
  exists s, sessions (reg (serve_all (mkEngineServer (run_ops empty_registry [OpCreate "alice" "bob"]) "alice")
                                    [move_request e2_js e4_js])) !! "game-0" = Some s /\
            session_wf s /\ deserialize (serialize (board_of s)) = board_of s.
Proof.
  destruct (some_eval (sessions (reg (serve_all (mkEngineServer (run_ops empty_registry
              [OpCreate "alice" "bob"]) "alice") [move_request e2_js e4_js])) !! "game-0"))
    as (s & E); [vm_compute; exact I|].
  exists s. split; [exact E|]. exact (served_sessions_wf [OpCreate "alice" "bob"] "alice" _ "game-0" s E).
Defined.


(** ** Several clients against one server

    A move as the players click it: the colour of the client that posts
    it and the [[row, col]] positions of the two squares. *)
Definition clicked_move : Type := color * (nat * nat) * (nat * nat).

(** The request the client of the player of colour [c] posts for it:
    [handleMove(from, to)] with the two positions.  No code of the
    sources makes this call (ChessBoard's clicks go to [onPieceClick] and
    [onSquareClick], which App never passes, see [App.board_clicks_throw]);
    this is the request the intended [onMove] wiring would send. *)
Definition player_request (w b : string) (mv : clicked_move) : string * App.request :=
  let '(c, (r1, c1), (r2, c2)) := mv in
  (match c with White => w | Black => b end,
   move_request (ChessBoard.position r1 c1) (ChessBoard.position r2 c2)).

(** The same move as the session sees it. *)
Definition player_proposal (mv : clicked_move) : color * proposal :=
  let '(c, (r1, c1), (r2, c2)) := mv in
  (c, mkProposal (Z.of_nat c1, Z.of_nat r1) (Z.of_nat c2, Z.of_nat r2) None).

(** The server answering requests of several callers in arrival order. *)
Fixpoint serve_requests (r : registry) (reqs : list (string * App.request))
  : registry * list App.outcome :=
  match reqs with
  | [] => (r, [])
  | (u, req) :: rest =>
      let '(x', o) := engine_serve (mkEngineServer r u) req in
      let '(r', os) := serve_requests (reg x') rest in
      (r', o :: os)
  end.

Lemma engine_serve_move r u sid c s s' r1 c1 r2 c2 :
  bindings r !! u = Some (sid, c) -> sessions r !! sid = Some s ->
  Session.submitMove s c (mkProposal (Z.of_nat c1, Z.of_nat r1) (Z.of_nat c2, Z.of_nat r2) None) = inr s' ->
  engine_serve (mkEngineServer r u) (move_request (ChessBoard.position r1 c1) (ChessBoard.position r2 c2))
  = (mkEngineServer (mkRegistry (<[sid := s']> (sessions r)) (bindings r) (next_id r)) u,
     App.Resolved (move_response (serialize (board_of s')) (game_status s'))).
Proof.
  intros Hb Hs Hsub. unfold engine_serve. rewrite decide_True by done. rewrite proposal_of_positions.
  cbn [reg caller]. rewrite Hb. unfold submitFor. rewrite Hb, decide_True by done.
  unfold Registry.submitMove. by rewrite Hs, Hsub.
Qed.

(** (C4) Refinement of the session by the served clients: when the two
    players bound to a game post, from their clients, moves that
    [Session.play] accepts in that order, the server resolves every
    request, stores exactly the session [play] computes, and leaves the
    bindings and every other session as they were. *)
Theorem clients_play_session r sid w b s0 (mvs : list clicked_move) s :
  bindings r !! w = Some (sid, White) -> bindings r !! b = Some (sid, Black) ->
  sessions r !! sid = Some s0 -> play s0 (player_proposal <$> mvs) = inr s ->
  let '(r', os) := serve_requests r (player_request w b <$> mvs) in
  sessions r' !! sid = Some s /\ (forall sid', sid' <> sid -> sessions r' !! sid' = sessions r !! sid') /\
  bindings r' = bindings r /\ Forall (fun o => exists resp, o = App.Resolved resp) os.
Proof.
  revert r s0. induction mvs as [|[[c [r1 c1]] [r2 c2]] mvs IH]; intros r s0 Hw Hb Hs Hp.
  - simpl in *. simplify_eq. auto.
  - cbn [fmap list_fmap player_proposal play] in Hp.
    destruct (Session.submitMove s0 c _) as [e|s1] eqn:Hsub; [done|].
    cbn [fmap list_fmap player_request serve_requests].
    assert (bindings r !! match c with White => w | Black => b end = Some (sid, c)) as Hu
      by (destruct c; assumption).
    rewrite (engine_serve_move _ _ _ _ _ _ _ _ _ _ Hu Hs Hsub). cbn [reg].
    specialize (IH (mkRegistry (<[sid := s1]> (sessions r)) (bindings r) (next_id r)) s1 Hw Hb).
    destruct (serve_requests _ _) as [r' os]. cbn [sessions bindings] in IH.
    destruct IH as (H1 & H2 & H3 & H4); [by rewrite lookup_insert_eq|done|].
    split; [done|]. split; [|split; [done|constructor; eauto]].
    intros sid' Hne. rewrite H2 by done. cbn [sessions]. by rewrite lookup_insert_ne by congruence.
Qed.

(** Fool's mate as alice (white) and bob (black) click it. *)
Definition fools_mate_clicks : list clicked_move :=
  [(White, (1, 5), (2, 5)); (Black, (6, 4), (4, 4)); (White, (1, 6), (3, 6)); (Black, (7, 3), (3, 7))].

Lemma clients_play_session_witness :
  exists s, play (Session.createSession "alice" "bob") (player_proposal <$> fools_mate_clicks) = inr s /\
    game_status s = Checkmate Black /\
    let '(r', os) := serve_requests one_game (player_request "alice" "bob" <$> fools_mate_clicks) in
    sessions r' !! "game-0" = Some s /\
    (forall sid', sid' <> "game-0" -> sessions r' !! sid' = sessions one_game !! sid') /\
    bindings r' = bindings one_game /\ Forall (fun o => exists resp, o = App.Resolved resp) os.
Proof.
  destruct (inr_eval (play (Session.createSession "alice" "bob") (player_proposal <$> fools_mate_clicks))
              (fun s => game_status s = Checkmate Black)) as (s & E & Hst); [vm_compute; reflexivity|].
  exists s. split; [exact E|]. split; [exact Hst|].
  exact (clients_play_session one_game "game-0" "alice" "bob" (Session.createSession "alice" "bob")
           fools_mate_clicks s ltac:(vm_compute; reflexivity) ltac:(vm_compute; reflexivity)
           ltac:(vm_compute; reflexivity) E).
Defined.
End engine.

End Integration.
